(** * humanify: a shallow embedding of the formatting and validation helpers

    The development follows the layout of the JavaScript sources:

    - [JS]: the fragment of the language's values the helpers compute with
      (numbers with [NaN] and the infinities, strings, thrown errors, object
      literals used as tables, the host's formatting services);
    - [NumberHelper]    (src/numberHelper.js): [shortenNumber],
      [clampNumber], [formatOrdinal];
    - [DateHelper]      (date helper):          [timeAgo], [timeFromNow],
      [formatDuration], [startOf], [endOf], over the day and calendar
      arithmetic of [Date];
    - [Regex]: the regular expressions of the validation tables, run by
      derivatives;
    - [ValidationHelper] (src/validationHelper.js): [isValidPhone],
      [isValidCreditCard], [isValidISBN], [isValidPostalCode],
      [isValidIP], [isValidHexColor], [isValidSSN], [isValidEmail],
      [validatePassword];
    - [ArrayHelper]     (array helper):         [chunk], [unique],
      [intersection], [difference], [union], [first], [last], [zip],
      [unzip], [shuffle], [sample], [randomItem];
    - [Spec]: the vocabulary of the statements.

    Definitions come first; the facts about the number model and the
    theorems, one section per helper, follow. *)

From Stdlib Require Import ZArith QArith Qabs Qround Qreduction.
From Stdlib Require Import List Sorted Permutation String Ascii Bool Lia.
From Stdlib Require Import DecimalString.
From Equations Require Import Equations.
Import ListNotations.

Local Open Scope Z_scope.

(* ================================================================== *)
(** * The JavaScript fragment *)
(* ================================================================== *)

Module JS.

(** ** Numbers

    A JavaScript number is [NaN], an infinity or a finite value.  Finite
    values carry the rational they denote, kept in lowest terms, and the
    arithmetic on them is exact: it coincides with IEEE double arithmetic
    wherever the helpers work on integers below 2^53 (durations, time
    stamps, digit sums).  Negative zero is not distinguished from zero. *)

Inductive number : Type :=
| NaN
| PosInf
| NegInf
| Fin (q : Q).

Definition fin (q : Q) : number := Fin (Qred q).
Definition Int (z : Z) : number := Fin (inject_Z z).

Definition Qlt_bool (x y : Q) : bool := negb (Qle_bool y x).

Definition isNaN (n : number) : bool :=
  match n with NaN => true | _ => false end.

Definition isFinite (n : number) : bool :=
  match n with Fin _ => true | _ => false end.

(** [a < b]; every comparison with [NaN] is false. *)
Definition lt (a b : number) : bool :=
  match a with
  | NaN => false
  | PosInf => false
  | NegInf => match b with NaN | NegInf => false | _ => true end
  | Fin x =>
      match b with
      | NaN | NegInf => false
      | PosInf => true
      | Fin y => Qlt_bool x y
      end
  end.

(** [a <= b]. *)
Definition le (a b : number) : bool :=
  match a with
  | NaN => false
  | PosInf => match b with PosInf => true | _ => false end
  | NegInf => match b with NaN => false | _ => true end
  | Fin x =>
      match b with
      | NaN | NegInf => false
      | PosInf => true
      | Fin y => Qle_bool x y
      end
  end.

Definition gt (a b : number) : bool := lt b a.
Definition ge (a b : number) : bool := le b a.

(** [a === b] on numbers. *)
Definition strict_eq (a b : number) : bool :=
  match a, b with
  | PosInf, PosInf => true
  | NegInf, NegInf => true
  | Fin x, Fin y => Qeq_bool x y
  | _, _ => false
  end.

Definition neg (a : number) : number :=
  match a with
  | NaN => NaN
  | PosInf => NegInf
  | NegInf => PosInf
  | Fin x => fin (- x)
  end.

(** [Math.abs]. *)
Definition abs (a : number) : number :=
  match a with
  | NaN => NaN
  | PosInf | NegInf => PosInf
  | Fin x => fin (Qabs x)
  end.

Definition add (a b : number) : number :=
  match a, b with
  | NaN, _ | _, NaN => NaN
  | PosInf, NegInf | NegInf, PosInf => NaN
  | PosInf, _ | _, PosInf => PosInf
  | NegInf, _ | _, NegInf => NegInf
  | Fin x, Fin y => fin (x + y)
  end.

Definition sub (a b : number) : number := add a (neg b).

(** The sign of a finite value: [Lt] negative, [Eq] zero, [Gt] positive. *)
Definition sgn (x : Q) : comparison := (Qnum x ?= 0)%Z.

Definition mul (a b : number) : number :=
  match a, b with
  | NaN, _ | _, NaN => NaN
  | Fin x, Fin y => fin (x * y)
  | Fin x, PosInf | PosInf, Fin x =>
      match sgn x with Eq => NaN | Gt => PosInf | Lt => NegInf end
  | Fin x, NegInf | NegInf, Fin x =>
      match sgn x with Eq => NaN | Gt => NegInf | Lt => PosInf end
  | PosInf, PosInf | NegInf, NegInf => PosInf
  | PosInf, NegInf | NegInf, PosInf => NegInf
  end.

Definition div (a b : number) : number :=
  match a, b with
  | NaN, _ | _, NaN => NaN
  | Fin x, Fin y =>
      match sgn y with
      | Eq => match sgn x with Eq => NaN | Gt => PosInf | Lt => NegInf end
      | _ => fin (x / y)
      end
  | Fin _, _ => Int 0
  | PosInf, Fin y => match sgn y with Lt => NegInf | _ => PosInf end
  | NegInf, Fin y => match sgn y with Lt => PosInf | _ => NegInf end
  | _, _ => NaN
  end.

(** Rounding toward zero, as in [ToIntegerOrInfinity]. *)
Definition Qtrunc (x : Q) : Z := Z.quot (Qnum x) (Zpos (Qden x)).

(** [a % b]: the remainder takes the sign of the dividend. *)
Definition rem (a b : number) : number :=
  match a, b with
  | Fin x, Fin y =>
      match sgn y with
      | Eq => NaN
      | _ => fin (x - y * inject_Z (Qtrunc (x / y)))
      end
  | Fin x, PosInf | Fin x, NegInf => Fin x
  | _, _ => NaN
  end.

(** [Math.floor]. *)
Definition floor (a : number) : number :=
  match a with
  | Fin x => Int (Qfloor x)
  | _ => a
  end.

(** [ToIntegerOrInfinity], used on the arguments of [toFixed]. *)
Definition ToIntegerOrInfinity (a : number) : number :=
  match a with
  | NaN => Int 0
  | Fin x => Int (Qtrunc x)
  | _ => a
  end.

(** ** Thrown errors and completions *)

Inductive exn : Type :=
| Error (message : string)       (* [throw new Error(message)] *)
| RangeError.                    (* raised by the built-ins *)

Inductive completion (A : Type) : Type :=
| Return (a : A)
| Throw (e : exn).
Arguments Return {A} a.
Arguments Throw {A} e.

Definition throws {A : Type} (c : completion A) : bool :=
  match c with Throw _ => true | Return _ => false end.

(** ** Strings

    Strings are sequences of 8-bit characters; the helpers below only
    look at ASCII digits, letters and separators. *)

Local Open Scope string_scope.

Definition is_digit (c : ascii) : bool :=
  let n := nat_of_ascii c in (48 <=? n)%nat && (n <=? 57)%nat.

(** [\s] restricted to the 8-bit characters. *)
Definition is_space (c : ascii) : bool :=
  let n := nat_of_ascii c in
  ((9 <=? n)%nat && (n <=? 13)%nat) || (n =? 32)%nat || (n =? 160)%nat.

Definition digit_value (c : ascii) : Z := Z.of_nat (nat_of_ascii c) - 48.

Fixpoint str_filter (keep : ascii -> bool) (s : string) : string :=
  match s with
  | EmptyString => EmptyString
  | String c rest =>
      if keep c then String c (str_filter keep rest) else str_filter keep rest
  end.

(** [s[i]]: the character at index [i], [undefined] past the end. *)
Definition char_at (s : string) (i : nat) : option ascii := String.get i s.

(** [s[i] === c]. *)
Definition char_is (x : option ascii) (c : ascii) : bool :=
  match x with
  | Some y => Ascii.eqb y c
  | None => false
  end.

(** [s.charAt(0)]. *)
Definition charAt0 (s : string) : string :=
  match s with
  | EmptyString => EmptyString
  | String c _ => String c EmptyString
  end.

(** [parts.join(sep)]. *)
Definition join (sep : string) (parts : list string) : string :=
  String.concat sep parts.

(** [parseInt(c)] on one character (or [undefined]): its digit value,
    [NaN] for anything else. *)
Definition parseInt_char (c : option ascii) : number :=
  match c with
  | Some c => if is_digit c then Int (digit_value c) else NaN
  | None => NaN
  end.

(** ** Rendering numbers *)

Definition decimal_of_nonneg (n : Z) : string :=
  NilZero.string_of_uint (N.to_uint (Z.to_N n)).

Fixpoint zeros (k : nat) : string :=
  match k with
  | O => EmptyString
  | S k' => String "0" (zeros k')
  end.

(** The decimal digits of [n], left-padded with zeros to [w] characters. *)
Definition pad_digits (w : nat) (n : Z) : string :=
  let d := decimal_of_nonneg n in
  zeros (w - String.length d) ++ d.

(** [n / 10^f] written in fixed notation with exactly [f] decimals. *)
Definition fixed_notation (n : Z) (f : nat) : string :=
  let p := 10 ^ Z.of_nat f in
  let whole := decimal_of_nonneg (n / p) in
  match f with
  | O => whole
  | _ => whole ++ "." ++ pad_digits f (n mod p)
  end.

(** The least [f] with [x * 10^f] an integer, searched up to [fuel]. *)
Fixpoint decimal_places (fuel : nat) (x : Q) : option nat :=
  if (Qden (Qred x) =? 1)%positive then Some O
  else
    match fuel with
    | O => None
    | S fuel' =>
        match decimal_places fuel' (x * inject_Z 10) with
        | Some f => Some (S f)
        | None => None
        end
    end.

(** The number of decimals [toFixed] is asked for, when it is one it
    accepts. *)
Definition fraction_digits (fractionDigits : number) : option Z :=
  match ToIntegerOrInfinity fractionDigits with
  | Fin fq =>
      let f := Qfloor fq in
      if (f <? 0)%Z || (100 <? f)%Z then None else Some f
  | _ => None
  end.

(** The host's part of number formatting and of [Intl]: what the model
    does not compute itself. *)
Record Host : Type := {
  (** [Number::toString] on finite values written with an exponent or
      whose exact value has no finite decimal expansion *)
  host_ToString : Q -> string;
  (** [new Intl.RelativeTimeFormat(locale, {numeric: 'auto'})]: the
      formatter's [format(n, unit)] on finite counts and the units of the
      helpers, or the [RangeError] raised for a locale it rejects *)
  RelativeTimeFormat : string -> completion (number -> string -> string)
}.

Section WithHost.
Variable host : Host.

(** [Number::toString]: the special values, then plain decimal notation
    for finite values in [1e-6, 1e21) whose expansion terminates. *)
Definition ToString (a : number) : string :=
  match a with
  | NaN => "NaN"
  | PosInf => "Infinity"
  | NegInf => "-Infinity"
  | Fin x =>
      let m := Qabs x in
      let sign := if Qlt_bool x 0 then "-" else "" in
      if Qeq_bool x 0 then "0"
      else if Qlt_bool m (1 # 1000000) || Qle_bool (inject_Z (10 ^ 21)) m
      then host_ToString host x
      else
        match decimal_places (Pos.size_nat (Qden (Qred x))) m with
        | Some f =>
            sign ++ fixed_notation (Qfloor (m * inject_Z (10 ^ Z.of_nat f))) f
        | None => host_ToString host x
        end
  end.

(** [x.toFixed(fractionDigits)]: the digits must lie in 0..100, then the
    special values and the values from 1e21 on are written as [ToString]
    writes them, the others rounded to the nearest multiple of [10^-f],
    the larger in a tie. *)
Definition toFixed (x : number) (fractionDigits : number)
  : completion string :=
  match fraction_digits fractionDigits with
  | None => Throw RangeError
  | Some f =>
      match x with
      | Fin q =>
          if Qle_bool (inject_Z (10 ^ 21)) (Qabs q) then Return (ToString x)
          else
            let n := Qfloor (Qabs q * inject_Z (10 ^ f) + (1 # 2)) in
            let sign := if Qlt_bool q 0 then "-" else "" in
            Return (sign ++ fixed_notation n (Z.to_nat f))
      | _ => Return (ToString x)
      end
  end.

End WithHost.

(** ** [parseFloat] *)

Fixpoint span_digits (s : string) : string * string :=
  match s with
  | String c rest =>
      if is_digit c then
        let (ds, tl) := span_digits rest in (String c ds, tl)
      else (EmptyString, s)
  | EmptyString => (EmptyString, EmptyString)
  end.

Fixpoint digits_value (acc : Z) (s : string) : Z :=
  match s with
  | String c rest => digits_value (10 * acc + digit_value c) rest
  | EmptyString => acc
  end.

Fixpoint skip_spaces (s : string) : string :=
  match s with
  | String c rest => if is_space c then skip_spaces rest else s
  | EmptyString => EmptyString
  end.

(** The exponent part [e[+-]digits] when present and well formed. *)
Definition parse_exponent (s : string) : Z :=
  match s with
  | String c rest =>
      if (c =? "e")%char || (c =? "E")%char then
        let '(negative, rest') :=
          match rest with
          | String "-" r => (true, r)
          | String "+" r => (false, r)
          | _ => (false, rest)
          end in
        let (ds, _) := span_digits rest' in
        match ds with
        | EmptyString => 0
        | _ => if negative then - digits_value 0 ds else digits_value 0 ds
        end
      else 0
  | EmptyString => 0
  end.

Definition pow10 (e : Z) : Q :=
  if (e <? 0)%Z then (1 / inject_Z (10 ^ (- e)))%Q else inject_Z (10 ^ e).

(** [parseFloat(s)]: the longest prefix of the trimmed string that is a
    decimal literal, [NaN] when there is none. *)
Definition parseFloat (s : string) : number :=
  let t := skip_spaces s in
  let '(negative, u) :=
    match t with
    | String "-" r => (true, r)
    | String "+" r => (false, r)
    | _ => (false, t)
    end in
  if String.prefix "Infinity" u then (if negative then NegInf else PosInf)
  else
    let (whole, r1) := span_digits u in
    let '(frac, r2) :=
      match r1 with
      | String "." r => span_digits r
      | _ => (EmptyString, r1)
      end in
    match whole, frac with
    | EmptyString, EmptyString => NaN
    | _, _ =>
        let mant := digits_value 0 (whole ++ frac) in
        let e := parse_exponent r2 - Z.of_nat (String.length frac) in
        let v := (inject_Z mant * pow10 e)%Q in
        fin (if negative then (- v)%Q else v)
    end.

(** ** Object literals used as tables

    An object literal is its list of own properties in insertion order,
    the order [Object.entries] enumerates.  The tables of the helpers are
    read with their own lower-case keys or with a key out of
    [toUpperCase], which leaves no lower-case ASCII letter, so no property
    inherited from [Object.prototype] is ever reached. *)

Definition object (V : Type) : Type := list (string * V).

(** ** Strings with any characters

    Where characters beyond the 8-bit ones matter, a string is the list of
    its UTF-16 code units. *)

Definition wide_string : Type := list N.

(** An 8-bit string as a string of code units. *)
Definition widen (s : string) : wide_string :=
  map N_of_ascii (list_ascii_of_string s).

(** [s1 === s2]. *)
Fixpoint wide_eqb (s1 s2 : wide_string) : bool :=
  match s1, s2 with
  | [], [] => true
  | u1 :: rest1, u2 :: rest2 => N.eqb u1 u2 && wide_eqb rest1 rest2
  | _, _ => false
  end.

(** [o[key]], for a key with any characters. *)
Fixpoint get {V : Type} (o : object V) (key : wide_string) : option V :=
  match o with
  | [] => None
  | (k, v) :: rest => if wide_eqb (widen k) key then Some v else get rest key
  end.

End JS.

(* ================================================================== *)
(** * src/numberHelper.js *)
(* ================================================================== *)

Module NumberHelper.
Import JS.
Local Open Scope string_scope.

Record unit_entry : Type := { value : number; suffix : string }.

(** The table [units] of [shortenNumber], largest tier first. *)
Definition units : list unit_entry :=
  [ {| value := Int (10 ^ 12); suffix := "T" |};
    {| value := Int (10 ^ 9);  suffix := "B" |};
    {| value := Int (10 ^ 6);  suffix := "M" |};
    {| value := Int (10 ^ 3);  suffix := "K" |} ].

Definition default_decimals : number := Int 1.

Section WithHost.
Variable host : Host.

(** [for (const unit of units) { if (absNum >= unit.value) ... }] followed
    by the final [return num.toString()]. *)
Fixpoint shorten_scan (us : list unit_entry)
    (num absNum : number) (sign : string) (decimals : number)
  : completion string :=
  match us with
  | [] => Return (ToString host num)
  | unit :: rest =>
      if ge absNum (value unit) then
        match toFixed host (div absNum (value unit)) decimals with
        | Throw e => Throw e
        | Return shortened =>
            Return (sign ++ ToString host (parseFloat shortened) ++ suffix unit)
        end
      else shorten_scan rest num absNum sign decimals
  end.

(** [shortenNumber(num, decimals = 1)]; the argument is a number, so the
    [typeof num !== 'number'] half of the guard is never taken. *)
Definition shortenNumber (num : number) (decimals : number)
  : completion string :=
  if isNaN num then Throw (Error "Invalid number provided")
  else
    let absNum := abs num in
    let sign := if lt num (Int 0) then "-" else "" in
    if lt absNum (Int 1000) then Return (ToString host num)
    else shorten_scan units num absNum sign decimals.

End WithHost.

(** ** Clamping *)

(** [Math.max(a, b)] and [Math.min(a, b)]. *)
Definition Math_max (a b : number) : number :=
  if isNaN a || isNaN b then NaN else if lt a b then b else a.

Definition Math_min (a b : number) : number :=
  if isNaN a || isNaN b then NaN else if lt b a then b else a.

(** [isValidNumber(value)] on a number. *)
Definition isValidNumber (value : number) : bool :=
  negb (isNaN value) && isFinite value.

(** [clampNumber(num, min, max)]. *)
Definition clampNumber (num min max : number) : completion number :=
  if negb (isValidNumber num) || negb (isValidNumber min)
     || negb (isValidNumber max)
  then Throw (Error "Invalid number provided")
  else if gt min max
  then Throw (Error "Min value cannot be greater than max value")
  else Return (Math_min (Math_max num min) max).

(** ** Ordinals *)

(** [Number.isInteger]. *)
Definition isInteger (value : number) : bool :=
  match value with
  | Fin q => Qeq_bool q (inject_Z (Qfloor q))
  | _ => false
  end.

Section Ordinals.
Variable host : Host.

(** [new Intl.NumberFormat(locale, { style: 'ordinal' })]: the formatter's
    [format], or the error the constructor raises. *)
Variable NumberFormat_ordinal : string -> completion (number -> string).

(** [formatOrdinal(num, locale = 'en-US')]. *)
Definition formatOrdinal (num : number) (locale : string)
  : completion string :=
  if isNaN num || negb (isInteger num)
  then Throw (Error "Invalid number provided")
  else if String.prefix "en" locale then
    let lastDigit := rem num (Int 10) in
    let lastTwoDigits := rem num (Int 100) in
    if ge lastTwoDigits (Int 11) && le lastTwoDigits (Int 13)
    then Return (ToString host num ++ "th")
    else if strict_eq lastDigit (Int 1) then Return (ToString host num ++ "st")
    else if strict_eq lastDigit (Int 2) then Return (ToString host num ++ "nd")
    else if strict_eq lastDigit (Int 3) then Return (ToString host num ++ "rd")
    else Return (ToString host num ++ "th")
  else
    match NumberFormat_ordinal locale with
    | Return format => Return (format num)
    | Throw _ => Return (ToString host num)
    end.

End Ordinals.

End NumberHelper.

(* ================================================================== *)
(** * The date helper *)
(* ================================================================== *)

Module DateHelper.
Import JS.
Local Open Scope string_scope.
Local Open Scope Z_scope.

(** ** Date objects

    A [Date] holds a time value: [NaN] (an invalid date) or a whole number
    of milliseconds since the epoch, at most 8.64e15 in magnitude.  The
    argument [date] of a helper stands for the object [new Date(date)]
    builds from it. *)

Inductive Date : Type :=
| InvalidDate
| TimeValue (tv : Z).

(** [d.getTime()], also what [d] is worth in arithmetic. *)
Definition getTime (d : Date) : number :=
  match d with
  | InvalidDate => NaN
  | TimeValue tv => Int tv
  end.

Definition msPerDay : Z := 86400000.
Definition maxTime : Z := 8640000000000000.

Definition Day (t : Z) : Z := t / msPerDay.
Definition TimeWithinDay (t : Z) : Z := t mod msPerDay.

Definition DaysInYear (y : Z) : Z :=
  if (y mod 4 =? 0) && (negb (y mod 100 =? 0) || (y mod 400 =? 0))
  then 366 else 365.

Definition DayFromYear (y : Z) : Z :=
  365 * (y - 1970) + (y - 1969) / 4 - (y - 1901) / 100 + (y - 1601) / 400.

(** The year of [t]: the largest [y] whose first day is not after [t],
    found next to the estimate given by the mean length of a year. *)
Definition YearFromTime (t : Z) : Z :=
  let d := Day t in
  let y := 1970 + (400 * d) / 146097 in
  if DayFromYear (y + 1) <=? d then y + 1
  else if DayFromYear y <=? d then y
  else y - 1.

Definition InLeapYear (t : Z) : Z :=
  if DaysInYear (YearFromTime t) =? 366 then 1 else 0.

Definition DayWithinYear (t : Z) : Z := Day t - DayFromYear (YearFromTime t).

(** The day of the year on which month [m] starts. *)
Definition month_start (m leap : Z) : Z :=
  if m <=? 0 then 0
  else if m =? 1 then 31
  else if m =? 2 then 59 + leap
  else if m =? 3 then 90 + leap
  else if m =? 4 then 120 + leap
  else if m =? 5 then 151 + leap
  else if m =? 6 then 181 + leap
  else if m =? 7 then 212 + leap
  else if m =? 8 then 243 + leap
  else if m =? 9 then 273 + leap
  else if m =? 10 then 304 + leap
  else 334 + leap.

Definition MonthFromTime (t : Z) : Z :=
  let d := DayWithinYear t in
  let leap := InLeapYear t in
  if d <? 31 then 0
  else if d <? 59 + leap then 1
  else if d <? 90 + leap then 2
  else if d <? 120 + leap then 3
  else if d <? 151 + leap then 4
  else if d <? 181 + leap then 5
  else if d <? 212 + leap then 6
  else if d <? 243 + leap then 7
  else if d <? 273 + leap then 8
  else if d <? 304 + leap then 9
  else if d <? 334 + leap then 10
  else 11.

Definition DateFromTime (t : Z) : Z :=
  DayWithinYear t - month_start (MonthFromTime t) (InLeapYear t) + 1.

(** 0 is Sunday, 1 Monday, ..., 6 Saturday. *)
Definition WeekDay (t : Z) : Z := (Day t + 4) mod 7.

Definition MakeTime (hour min sec ms : Z) : Z :=
  hour * 3600000 + min * 60000 + sec * 1000 + ms.

Definition MakeDay (year month date : Z) : Z :=
  let ym := year + month / 12 in
  let mn := month mod 12 in
  let leap := if DaysInYear ym =? 366 then 1 else 0 in
  DayFromYear ym + month_start mn leap + date - 1.

Definition MakeDate (day time : Z) : Z := day * msPerDay + time.

Definition TimeClip (time : Z) : Date :=
  if maxTime <? Z.abs time then InvalidDate else TimeValue time.

Section WithZone.
(** [LocalTZA t isUTC], the offset of local time from UTC in milliseconds
    as the host's time zone has it: the offset in force at the instant [t]
    when [isUTC] holds, and the offset by which the local time [t] is read
    otherwise.  Where the zone has transitions the two differ around
    them. *)
Variable LocalTZA : Z -> bool -> Z.

Definition LocalTime (t : Z) : Z := t + LocalTZA t true.
Definition UTC (t : Z) : Z := t - LocalTZA t false.

Definition getDay (d : Date) : number :=
  match d with
  | InvalidDate => NaN
  | TimeValue tv => Int (WeekDay (LocalTime tv))
  end.

Definition getDate (d : Date) : number :=
  match d with
  | InvalidDate => NaN
  | TimeValue tv => Int (DateFromTime (LocalTime tv))
  end.

Definition getMonth (d : Date) : number :=
  match d with
  | InvalidDate => NaN
  | TimeValue tv => Int (MonthFromTime (LocalTime tv))
  end.

(** The integer a finite argument of a setter stands for. *)
Definition finite_arg (a : number) : option Z :=
  match a with
  | Fin q => Some (Qtrunc q)
  | _ => None
  end.

(** [d.setDate(date)], returning the updated object. *)
Definition setDate (d : Date) (date : number) : Date :=
  match d, finite_arg date with
  | TimeValue tv, Some dt =>
      let t := LocalTime tv in
      TimeClip (UTC (MakeDate
        (MakeDay (YearFromTime t) (MonthFromTime t) dt) (TimeWithinDay t)))
  | _, _ => InvalidDate
  end.

(** [d.setMonth(month, date)]. *)
Definition setMonth (d : Date) (month date : number) : Date :=
  match d, finite_arg month, finite_arg date with
  | TimeValue tv, Some m, Some dt =>
      let t := LocalTime tv in
      TimeClip (UTC (MakeDate
        (MakeDay (YearFromTime t) m dt) (TimeWithinDay t)))
  | _, _, _ => InvalidDate
  end.

(** [d.setHours(hour, min, sec, ms)]. *)
Definition setHours (d : Date) (hour min sec ms : number) : Date :=
  match d, finite_arg hour, finite_arg min, finite_arg sec, finite_arg ms with
  | TimeValue tv, Some h, Some m, Some s, Some milli =>
      let t := LocalTime tv in
      TimeClip (UTC (MakeDate (Day t) (MakeTime h m s milli)))
  | _, _, _, _, _ => InvalidDate
  end.

(** [startOf(date, period)]; [date] is the object [new Date(date)] builds. *)
Definition startOf (date : Date) (period : string) : completion Date :=
  let targetDate := date in
  if isNaN (getTime targetDate) then Throw (Error "Invalid date provided")
  else
    let result := targetDate in
    if String.eqb period "day" then
      Return (setHours result (Int 0) (Int 0) (Int 0) (Int 0))
    else if String.eqb period "week" then
      let dayOfWeek := getDay result in
      let daysToSubtract :=
        if strict_eq dayOfWeek (Int 0) then Int 6 else sub dayOfWeek (Int 1) in
      let result := setDate result (sub (getDate result) daysToSubtract) in
      Return (setHours result (Int 0) (Int 0) (Int 0) (Int 0))
    else if String.eqb period "month" then
      let result := setDate result (Int 1) in
      Return (setHours result (Int 0) (Int 0) (Int 0) (Int 0))
    else if String.eqb period "year" then
      let result := setMonth result (Int 0) (Int 1) in
      Return (setHours result (Int 0) (Int 0) (Int 0) (Int 0))
    else Throw (Error "Invalid period provided").

(** [endOf(date, period)]. *)
Definition endOf (date : Date) (period : string) : completion Date :=
  let targetDate := date in
  if isNaN (getTime targetDate) then Throw (Error "Invalid date provided")
  else
    let result := targetDate in
    if String.eqb period "day" then
      Return (setHours result (Int 23) (Int 59) (Int 59) (Int 999))
    else if String.eqb period "week" then
      let dayOfWeek := getDay result in
      let daysToAdd :=
        if strict_eq dayOfWeek (Int 0) then Int 0 else sub (Int 7) dayOfWeek in
      let result := setDate result (add (getDate result) daysToAdd) in
      Return (setHours result (Int 23) (Int 59) (Int 59) (Int 999))
    else if String.eqb period "month" then
      let result := setMonth result (add (getMonth result) (Int 1)) (Int 0) in
      Return (setHours result (Int 23) (Int 59) (Int 59) (Int 999))
    else if String.eqb period "year" then
      let result := setMonth result (Int 11) (Int 31) in
      Return (setHours result (Int 23) (Int 59) (Int 59) (Int 999))
    else Throw (Error "Invalid period provided").

End WithZone.

(** A zone without transitions: the one offset [tza] at every instant and
    for every local time. *)
Abbreviation constant_offset tza := (fun (_ : Z) (_ : bool) => tza).


(** ** Relative time *)

Record interval : Type := { unit : string; seconds : number }.

(** The table [intervals] of [timeAgo] and [timeFromNow]. *)
Definition intervals : list interval :=
  [ {| unit := "year";   seconds := Int 31536000 |};
    {| unit := "month";  seconds := Int 2592000 |};
    {| unit := "week";   seconds := Int 604800 |};
    {| unit := "day";    seconds := Int 86400 |};
    {| unit := "hour";   seconds := Int 3600 |};
    {| unit := "minute"; seconds := Int 60 |};
    {| unit := "second"; seconds := Int 1 |} ].

Definition default_locale : string := "en-US".

(** The clock: [clock k] is what the [k]-th evaluation of [new Date()]
    reads. *)
Definition Clock : Type := nat -> Z.

Section WithHost.
Variable host : Host.

(** The loop over [intervals] and the [return] after it.  [format] is
    [rtf.format] and [signed] the count as it is handed over: negated by
    [timeAgo], as it is by [timeFromNow]. *)
Fixpoint scan_intervals (ivs : list interval)
    (format : number -> string -> string) (signed : number -> number)
    (diffInSeconds : number) : string :=
  match ivs with
  | [] => format (Int 0) "second"
  | iv :: rest =>
      let count := floor (div diffInSeconds (seconds iv)) in
      if ge count (Int 1) then format (signed count) (unit iv)
      else scan_intervals rest format signed diffInSeconds
  end.

(** [const rtf = new Intl.RelativeTimeFormat(locale, ...)] and what
    follows it. *)
Definition with_formatter (locale : string) (signed : number -> number)
    (diffInSeconds : number) : completion string :=
  match RelativeTimeFormat host locale with
  | Throw e => Throw e
  | Return format =>
      Return (scan_intervals intervals format signed diffInSeconds)
  end.

(** [timeAgo] and [timeFromNow] call each other; [fuel] bounds the depth
    of the calls and [None] means it ran out.  [tick] counts the clock
    readings made so far. *)
Fixpoint timeAgo (fuel : nat) (clock : Clock) (tick : nat)
    (date : Date) (locale : string) : option (completion string) :=
  match fuel with
  | O => None
  | S fuel' =>
      let now := TimeValue (clock tick) in
      let targetDate := date in
      if isNaN (getTime targetDate)
      then Some (Throw (Error "Invalid date provided"))
      else
        let diffInSeconds :=
          floor (div (sub (getTime now) (getTime targetDate)) (Int 1000)) in
        if lt diffInSeconds (Int 0)
        then timeFromNow fuel' clock (S tick) date locale
        else Some (with_formatter locale neg diffInSeconds)
  end
with timeFromNow (fuel : nat) (clock : Clock) (tick : nat)
    (date : Date) (locale : string) : option (completion string) :=
  match fuel with
  | O => None
  | S fuel' =>
      let now := TimeValue (clock tick) in
      let targetDate := date in
      if isNaN (getTime targetDate)
      then Some (Throw (Error "Invalid date provided"))
      else
        let diffInSeconds :=
          floor (div (sub (getTime targetDate) (getTime now)) (Int 1000)) in
        if lt diffInSeconds (Int 0)
        then timeAgo fuel' clock (S tick) date locale
        else Some (with_formatter locale (fun c => c) diffInSeconds)
  end.

(** ** Durations *)

Record duration_options : Type := {
  includeSeconds : bool;
  includeMinutes : bool;
  includeHours : bool;
  includeDays : bool;
  includeWeeks : bool;
  includeMonths : bool;
  includeYears : bool;
  maxUnits : number;
  compact : bool
}.

(** [options = {}]: every field at its default. *)
Definition default_options : duration_options :=
  {| includeSeconds := true; includeMinutes := true; includeHours := true;
     includeDays := true; includeWeeks := true; includeMonths := true;
     includeYears := true; maxUnits := Int 3; compact := false |}.

Record time_unit : Type :=
  { name : string; unit_seconds : number; enabled : bool }.

Definition timeUnits (o : duration_options) : list time_unit :=
  [ {| name := "year";   unit_seconds := Int 31536000; enabled := includeYears o |};
    {| name := "month";  unit_seconds := Int 2592000;  enabled := includeMonths o |};
    {| name := "week";   unit_seconds := Int 604800;   enabled := includeWeeks o |};
    {| name := "day";    unit_seconds := Int 86400;    enabled := includeDays o |};
    {| name := "hour";   unit_seconds := Int 3600;     enabled := includeHours o |};
    {| name := "minute"; unit_seconds := Int 60;       enabled := includeMinutes o |};
    {| name := "second"; unit_seconds := Int 1;        enabled := includeSeconds o |} ].

(** One emitted term: the template literal [`${count}${unitName}`]. *)
Definition render_term (o : duration_options) (count : number) (u : time_unit)
  : string :=
  let unitName := if compact o then charAt0 (name u) else name u in
  (ToString host count ++ unitName)%string.

(** The loop of [formatDuration] over the remaining units, from the
    current [remaining] and the terms pushed so far. *)
Fixpoint duration_loop (o : duration_options) (tus : list time_unit)
    (remaining : number) (units : list string) : list string :=
  match tus with
  | [] => units
  | u :: rest =>
      if negb (enabled u) || lt remaining (unit_seconds u)
      then duration_loop o rest remaining units
      else
        let count := floor (div remaining (unit_seconds u)) in
        let remaining' := rem remaining (unit_seconds u) in
        let units' :=
          if gt count (Int 0) then (units ++ [render_term o count u])%list
          else units in
        if ge (Int (Z.of_nat (List.length units'))) (maxUnits o) then units'
        else duration_loop o rest remaining' units'
  end.

(** [formatDuration(seconds, options = {})]; [seconds] is a number, so the
    [typeof seconds !== 'number'] part of the guard is never taken. *)
Definition formatDuration (seconds : number) (options : duration_options)
  : completion string :=
  if isNaN seconds || lt seconds (Int 0)
  then Throw (Error "Invalid duration provided")
  else
    let units := duration_loop options (timeUnits options) (floor seconds) [] in
    if (List.length units =? 0)%nat
    then Return (if compact options then "0s" else "0 seconds")
    else Return (join " " units).

(** The same loop, recording each pushed term as the pair of its count and
    unit instead of the rendered text. *)
Fixpoint duration_terms (o : duration_options) (tus : list time_unit)
    (remaining : number) (terms : list (number * time_unit))
  : list (number * time_unit) :=
  match tus with
  | [] => terms
  | u :: rest =>
      if negb (enabled u) || lt remaining (unit_seconds u)
      then duration_terms o rest remaining terms
      else
        let count := floor (div remaining (unit_seconds u)) in
        let remaining' := rem remaining (unit_seconds u) in
        let terms' :=
          if gt count (Int 0) then (terms ++ [(count, u)])%list else terms in
        if ge (Int (Z.of_nat (List.length terms'))) (maxUnits o) then terms'
        else duration_terms o rest remaining' terms'
  end.

End WithHost.

End DateHelper.

(* ================================================================== *)
(** * Regular expressions *)
(* ================================================================== *)

Module Regex.

(** The patterns of the validation tables use character classes,
    sequencing, alternation, options and bounded repetition.  A character
    class is a list of inclusive ranges. *)
Inductive regex : Type :=
| Void                                   (* matches nothing *)
| Eps                                    (* the empty string *)
| Class (ranges : list (ascii * ascii))
| Seq (r1 r2 : regex)
| Alt (r1 r2 : regex)
| Star (r : regex).

Definition in_range (c : ascii) (rg : ascii * ascii) : bool :=
  let n := nat_of_ascii c in
  (nat_of_ascii (fst rg) <=? n)%nat && (n <=? nat_of_ascii (snd rg))%nat.

Definition in_class (ranges : list (ascii * ascii)) (c : ascii) : bool :=
  existsb (in_range c) ranges.

Fixpoint nullable (r : regex) : bool :=
  match r with
  | Void => false
  | Eps => true
  | Class _ => false
  | Seq r1 r2 => nullable r1 && nullable r2
  | Alt r1 r2 => nullable r1 || nullable r2
  | Star _ => true
  end.

(** Sequencing and alternation that drop the dead branches derivatives
    leave behind. *)
Definition seq (r1 r2 : regex) : regex :=
  match r1, r2 with
  | Void, _ | _, Void => Void
  | Eps, _ => r2
  | _, _ => Seq r1 r2
  end.

Definition alt (r1 r2 : regex) : regex :=
  match r1, r2 with
  | Void, _ => r2
  | _, Void => r1
  | _, _ => Alt r1 r2
  end.

(** The derivative of [r] by the character [c]. *)
Fixpoint deriv (c : ascii) (r : regex) : regex :=
  match r with
  | Void | Eps => Void
  | Class ranges => if in_class ranges c then Eps else Void
  | Seq r1 r2 =>
      if nullable r1 then alt (seq (deriv c r1) r2) (deriv c r2)
      else seq (deriv c r1) r2
  | Alt r1 r2 => alt (deriv c r1) (deriv c r2)
  | Star r1 => seq (deriv c r1) (Star r1)
  end.

(** Does the whole of [s] match [r]? *)
Fixpoint matches (r : regex) (s : string) : bool :=
  match s with
  | EmptyString => nullable r
  | String c rest => matches (deriv c r) rest
  end.

(** Surface syntax. *)
Definition chr (c : ascii) : regex := Class [(c, c)].
Definition range (lo hi : ascii) : regex := Class [(lo, hi)].
Definition digit : regex := range "0" "9".               (* \d *)
Definition any : regex := Class [("000"%char, "255"%char)].
Definition opt (r : regex) : regex := Alt Eps r.         (* r? *)

Fixpoint lit (s : string) : regex :=
  match s with
  | EmptyString => Eps
  | String c EmptyString => chr c
  | String c rest => Seq (chr c) (lit rest)
  end.

Fixpoint times (n : nat) (r : regex) : regex :=          (* r{n} *)
  match n with
  | O => Eps
  | S O => r
  | S n' => Seq r (times n' r)
  end.

Fixpoint upto (n : nat) (r : regex) : regex :=           (* r{0,n} *)
  match n with
  | O => Eps
  | S n' => opt (Seq r (upto n' r))
  end.

Definition between (lo hi : nat) (r : regex) : regex :=  (* r{lo,hi} *)
  Seq (times lo r) (upto (hi - lo) r).

Fixpoint seqs (rs : list regex) : regex :=
  match rs with
  | [] => Eps
  | [r] => r
  | r :: rest => Seq r (seqs rest)
  end.

(** A [RegExp] of the sources: anchored at both ends ([/^r$/]) or at the
    start only ([/^r/]). *)
Inductive pattern : Type :=
| Whole (r : regex)
| Prefix (r : regex).

(** [pattern.test(s)]. *)
Definition test (p : pattern) (s : string) : bool :=
  match p with
  | Whole r => matches r s
  | Prefix r => matches (Seq r (Star any)) s
  end.

End Regex.

(* ================================================================== *)
(** * src/validationHelper.js *)
(* ================================================================== *)

Module ValidationHelper.
Import JS Regex.
Local Open Scope string_scope.
Local Open Scope char_scope.

(** ** Phone numbers *)

Definition phone_patterns : object pattern :=
  [ ("US"%string, Whole (seqs [opt (chr "1"); range "2" "9"; times 2 digit;
                        range "2" "9"; times 2 digit; times 4 digit]));
    ("UK"%string, Whole (seqs [Alt (lit "+44") (chr "0"); range "1" "9";
                        between 8 9 digit]));
    ("IN"%string, Whole (seqs [opt (Alt (lit "+91") (chr "0")); range "6" "9";
                        times 9 digit]));
    ("CA"%string, Whole (seqs [opt (Alt (lit "+1") (chr "1")); range "2" "9";
                        times 2 digit; range "2" "9"; times 2 digit;
                        times 4 digit]));
    ("AU"%string, Whole (seqs [Alt (lit "+61") (chr "0");
                        Class [("2", "4"); ("7", "7"); ("8", "8")];
                        times 8 digit]));
    ("DE"%string, Whole (seqs [Alt (lit "+49") (chr "0"); range "1" "9";
                        between 1 4 digit; between 1 4 digit;
                        between 1 4 digit]));
    ("FR"%string, Whole (seqs [Alt (lit "+33") (chr "0"); range "1" "9";
                        times 8 digit]));
    ("JP"%string, Whole (seqs [Alt (lit "+81") (chr "0");
                        Class [("7", "7"); ("8", "8"); ("9", "9")];
                        chr "0"; times 8 digit]));
    ("CN"%string, Whole (seqs [opt (Alt (lit "+86") (chr "0")); chr "1";
                        range "3" "9"; times 9 digit]));
    ("BR"%string, Whole (seqs [opt (Alt (lit "+55") (chr "0"));
                        times 2 (range "1" "9"); range "2" "9";
                        times 8 digit])) ].

(** [/^\d{7,15}$/], the generic international pattern. *)
Definition generic_phone : pattern := Whole (between 7 15 digit).

(** A string is truthy when it is not empty. *)
Definition truthy (s : wide_string) : bool :=
  match s with
  | [] => false
  | _ :: _ => true
  end.

Section WithUpperCase.
(** [s.toUpperCase()], the host's.  It is the upper-casing of Unicode, not
    of ASCII alone: the country code is a string with any characters, and
    some characters outside ASCII have an ASCII capital (U+017F, the long
    s, has S). *)
Variable toUpperCase : wide_string -> wide_string.

(** [isValidPhone(phone, country = null)]; [None] is [null].  The table
    is used when [country && patterns[country.toUpperCase()]] holds, the
    generic pattern otherwise. *)
Definition isValidPhone (phone : string) (country : option wide_string)
    : bool :=
  let digits := str_filter is_digit phone in
  let pattern :=
    match country with
    | Some c =>
        if truthy c then get phone_patterns (toUpperCase c) else None
    | None => None
    end in
  match pattern with
  | Some pattern => test pattern digits
  | None => test generic_phone digits
  end.

End WithUpperCase.

(** ** Postal codes *)

Definition letter : regex := Class [("A", "Z"); ("a", "z")].
Definition upper : regex := range "A" "Z".

Definition postal_patterns : object pattern :=
  [ ("US"%string, Whole (seqs [times 5 digit;
                        opt (Seq (chr "-") (times 4 digit))]));
    ("CA"%string, Whole (seqs [letter; digit; letter; chr " "; digit; letter;
                        digit]));
    ("UK"%string, Whole (seqs [between 1 2 upper; digit;
                        opt (Class [("A", "Z"); ("0", "9")]); chr " "; digit;
                        times 2 upper]));
    ("DE"%string, Whole (times 5 digit));
    ("FR"%string, Whole (times 5 digit));
    ("JP"%string, Whole (seqs [times 3 digit; chr "-"; times 4 digit]));
    ("IN"%string, Whole (times 6 digit));
    ("AU"%string, Whole (times 4 digit));
    ("BR"%string, Whole (seqs [times 5 digit; opt (chr "-"); times 3 digit])) ].

Definition default_country : wide_string := widen "US".

(** [isValidPostalCode(postalCode, country = 'US')], with the host's
    [toUpperCase]. *)
Definition isValidPostalCode (toUpperCase : wide_string -> wide_string)
    (postalCode : string) (country : wide_string) : bool :=
  let pattern := get postal_patterns (toUpperCase country) in
  match pattern with
  | Some pattern => test pattern postalCode
  | None => false
  end.

(** ** IP addresses *)

(** [25[0-5]|2[0-4][0-9]|[01]?[0-9][0-9]?]. *)
Definition octet : regex :=
  Alt (Seq (lit "25") (range "0" "5"))
      (Alt (Seq (chr "2") (Seq (range "0" "4") (range "0" "9")))
           (Seq (opt (range "0" "1"))
                (Seq (range "0" "9") (opt (range "0" "9"))))).

Definition ipv4Regex : pattern :=
  Whole (Seq (times 3 (Seq octet (chr "."))) octet).

(** [[0-9a-fA-F]]. *)
Definition hex_digit : regex := Class [("0", "9"); ("a", "f"); ("A", "F")].

Definition ipv6Regex : pattern :=
  Whole (Seq (times 7 (Seq (between 1 4 hex_digit) (chr ":")))
             (between 1 4 hex_digit)).

Definition default_version : string := "v4".

(** [isValidIP(ip, version = 'v4')]. *)
Definition isValidIP (ip version : string) : bool :=
  if String.eqb version "v4" then test ipv4Regex ip
  else if String.eqb version "v6" then test ipv6Regex ip
  else false.

(** ** Hex colours *)

(** [[A-Fa-f0-9]]. *)
Definition hex_colour_digit : regex :=
  Class [("A", "F"); ("a", "f"); ("0", "9")].

Definition hexRegex : pattern :=
  Whole (Seq (chr "#")
             (Alt (times 6 hex_colour_digit) (times 3 hex_colour_digit))).

(** [isValidHexColor(color)]. *)
Definition isValidHexColor (color : string) : bool := test hexRegex color.

(** ** Social security numbers *)

(** [.]: any character but a line terminator. *)
Definition dot : regex :=
  Class [("000", "009"); ("011", "012"); ("014", "255")].

(** The list [invalidPatterns]. *)
Definition invalidPatterns : list pattern :=
  [ Prefix (lit "000");
    Prefix (lit "666");
    Prefix (chr "9");
    Prefix (Seq (times 3 dot) (lit "00"));
    Prefix (Seq (times 5 dot) (lit "0000")) ].

(** [isValidSSN(ssn)]. *)
Definition isValidSSN (ssn : string) : bool :=
  let cleaned := str_filter is_digit ssn in
  if negb (String.length cleaned =? 9)%nat then false
  else negb (existsb (fun pattern => test pattern cleaned) invalidPatterns).

(** ** Credit cards *)

(** The object [{ valid, type }] both checksum validators return. *)
Record checked : Type := { valid : bool; type : option string }.

(** The Luhn loop [for (let i = digits.length - 1; i >= 0; i--)]: [k] is
    [i + 1], so the body runs for [i = k - 1] down to [0]. *)
Fixpoint luhn_loop (digits : string) (k : nat) (sum : number) (isEven : bool)
  : number :=
  match k with
  | O => sum
  | S i =>
      let digit := parseInt_char (char_at digits i) in
      let digit :=
        if isEven then
          let digit := mul digit (Int 2) in
          if gt digit (Int 9) then sub digit (Int 9) else digit
        else digit in
      luhn_loop digits i (add sum digit) (negb isEven)
  end.

(** The table [patterns] of card types, in the order of the literal. *)
Definition card_patterns : object pattern :=
  [ ("visa"%string,       Prefix (chr "4"));
    ("mastercard"%string, Prefix (Seq (chr "5") (range "1" "5")));
    ("amex"%string,       Prefix (Seq (chr "3")
                                      (Class [("4", "4"); ("7", "7")])));
    ("discover"%string,   Prefix (Seq (chr "6") (Alt (lit "011") (chr "5"))));
    ("diners"%string,     Prefix (Seq (chr "3")
                                      (Class [("0", "0"); ("6", "6");
                                              ("8", "8"); ("9", "9")])));
    ("jcb"%string,        Prefix (lit "35")) ].

(** [for (const [cardType, pattern] of Object.entries(patterns))]: the
    first type whose pattern matches, [null] when none does. *)
Fixpoint detect_type (entries : object pattern) (digits : string)
  : option string :=
  match entries with
  | [] => None
  | (cardType, pattern) :: rest =>
      if test pattern digits then Some cardType else detect_type rest digits
  end.

(** [isValidCreditCard(cardNumber)]. *)
Definition isValidCreditCard (cardNumber : string) : checked :=
  let digits := str_filter is_digit cardNumber in
  if (String.length digits <? 13)%nat || (19 <? String.length digits)%nat
  then {| valid := false; type := None |}
  else
    let sum := luhn_loop digits (String.length digits) (Int 0) false in
    let valid := strict_eq (rem sum (Int 10)) (Int 0) in
    let type := detect_type card_patterns digits in
    {| valid := valid; type := type |}.

(** ** ISBN *)

(** The characters [isbn.replace(/[-\s]/g, '')] keeps. *)
Definition isbn_keep (c : ascii) : bool :=
  negb ((c =? "-") || is_space c).

(** [for (let i = 0; i < n; i++) sum += parseInt(cleaned[i]) * weight(i)],
    from [sum = 0]. *)
Fixpoint weighted_sum (weight : nat -> number) (cleaned : string) (n : nat)
  : number :=
  match n with
  | O => Int 0
  | S i =>
      add (weighted_sum weight cleaned i)
          (mul (parseInt_char (char_at cleaned i)) (weight i))
  end.

Definition isbn10_weight (i : nat) : number :=
  sub (Int 10) (Int (Z.of_nat i)).

Definition isbn13_weight (i : nat) : number :=
  if strict_eq (rem (Int (Z.of_nat i)) (Int 2)) (Int 0) then Int 1 else Int 3.

(** [isValidISBN(isbn)]. *)
Definition isValidISBN (isbn : string) : checked :=
  let cleaned := str_filter isbn_keep isbn in
  if (String.length cleaned =? 10)%nat then
    let sum := weighted_sum isbn10_weight cleaned 9 in
    let checkDigit :=
      if char_is (char_at cleaned 9) "X" then Int 10
      else parseInt_char (char_at cleaned 9) in
    let valid := strict_eq (rem (add sum checkDigit) (Int 11)) (Int 0) in
    {| valid := valid; type := Some "ISBN-10"%string |}
  else if (String.length cleaned =? 13)%nat then
    let sum := weighted_sum isbn13_weight cleaned 12 in
    let checkDigit := rem (sub (Int 10) (rem sum (Int 10))) (Int 10) in
    let valid := strict_eq checkDigit (parseInt_char (char_at cleaned 12)) in
    {| valid := valid; type := Some "ISBN-13"%string |}
  else {| valid := false; type := None |}.

(** ** E-mail addresses *)

(** [[^\s@]]: any character but white space and [@]. *)
Definition not_space_or_at : regex :=
  Class [("000", "008"); ("014", "031"); ("033", "063"); ("065", "159");
         ("161", "255")].

(** [r+]. *)
Definition plus (r : regex) : regex := Seq r (Star r).

(** [/^[^\s@]+@[^\s@]+\.[^\s@]+$/]. *)
Definition emailRegex : pattern :=
  Whole (Seq (plus not_space_or_at)
             (Seq (chr "@")
                  (Seq (plus not_space_or_at)
                       (Seq (chr ".") (plus not_space_or_at))))).

(** [isValidEmail(email)]. *)
Definition isValidEmail (email : string) : bool := test emailRegex email.

(** ** Passwords *)

Module Password.

(** The options of [validatePassword], each with its default filled in. *)
Record options : Type := {
  minLength : number;
  requireUppercase : bool;
  requireLowercase : bool;
  requireNumbers : bool;
  requireSymbols : bool;
  maxLength : number
}.

Definition default_options : options :=
  {| minLength := Int 8;
     requireUppercase := true;
     requireLowercase := true;
     requireNumbers := true;
     requireSymbols := false;
     maxLength := Int 128 |}.

(** The object [{ valid, score, strength, feedback }]. *)
Record result : Type := {
  valid : bool;
  score : Z;
  strength : string;
  feedback : list string
}.

(** A pattern with no anchor, [/r/]: some part of the string matches. *)
Definition search (r : regex) : pattern :=
  Whole (Seq (Star any) (Seq r (Star any))).

(** The class of special characters of the source, thirty punctuation
    marks from the exclamation mark to the question mark. *)
Definition symbol : regex :=
  Class [("!", "!"); ("@", "@"); ("#", "#"); ("$", "$"); ("%", "%");
         ("^", "^"); ("&", "&"); ("*", "*"); ("(", "("); (")", ")");
         ("_", "_"); ("+", "+"); ("-", "-"); ("=", "="); ("[", "[");
         ("]", "]"); ("{", "{"); ("}", "}"); (";", ";"); ("'", "'");
         (":", ":"); ("034", "034"); ("\", "\"); ("|", "|"); (",", ",");
         (".", "."); ("<", "<"); (">", ">"); ("/", "/"); ("?", "?")].

(** [.] in a pattern: any character but a line terminator. *)
Definition is_dot (c : ascii) : bool := negb ((c =? "010") || (c =? "013")).

(** [/(.)\1{2,}/.test(s)]: some character other than a line terminator
    comes three times in a row. *)
Fixpoint repeated (s : string) : bool :=
  match s with
  | String a ((String b (String c _)) as rest) =>
      (is_dot a && (a =? b) && (b =? c)) || repeated rest
  | _ => false
  end.

(** What the checks build up: the feedback and the score. *)
Definition state : Type := (list string * Z)%type.

(** [feedback.push(message)]. *)
Definition push (st : state) (message : string) : state :=
  ((fst st ++ [message])%list, snd st).

(** [score += 1]. *)
Definition point (st : state) : state := (fst st, (snd st + 1)%Z).

Section WithHost.
Variable host : Host.

(** [validatePassword(password, options = {})]. *)
Definition validatePassword (password : string) (o : options) : result :=
  let length := Int (Z.of_nat (String.length password)) in
  let st : state := ([], 0%Z) in
  let st :=
    if lt length (minLength o)
    then push st ("Password must be at least "
                  ++ ToString host (minLength o) ++ " characters long")
    else point st in
  let st :=
    if gt length (maxLength o)
    then push st ("Password must be no more than "
                  ++ ToString host (maxLength o) ++ " characters long")
    else st in
  let st :=
    if requireUppercase o && negb (test (search (range "A" "Z")) password)
    then push st "Password must contain at least one uppercase letter"
    else if requireUppercase o then point st
    else st in
  let st :=
    if requireLowercase o && negb (test (search (range "a" "z")) password)
    then push st "Password must contain at least one lowercase letter"
    else if requireLowercase o then point st
    else st in
  let st :=
    if requireNumbers o && negb (test (search digit) password)
    then push st "Password must contain at least one number"
    else if requireNumbers o then point st
    else st in
  let st :=
    if requireSymbols o && negb (test (search symbol) password)
    then push st "Password must contain at least one special character"
    else if requireSymbols o then point st
    else st in
  let st := if ge length (Int 12) then point st else st in
  let st :=
    if repeated password
    then push st "Password should not contain repeated characters"
    else point st in
  let feedback := fst st in
  let score := snd st in
  let valid := (List.length feedback =? 0)%nat in
  let strength :=
    if (score <=? 2)%Z then "weak"%string
    else if (score <=? 4)%Z then "medium"%string
    else "strong"%string in
  {| valid := valid; score := score; strength := strength;
     feedback := feedback |}.

End WithHost.

End Password.

End ValidationHelper.

(* ================================================================== *)
(** * The array helper *)
(* ================================================================== *)

Module ArrayHelper.
Import JS.

(** [arr.slice(start, end)]: a negative index counts from the end, and
    both ends are clamped to the array. *)
Definition slice {A : Type} (arr : list A) (start end_ : Z) : list A :=
  let len := Z.of_nat (List.length arr) in
  let k := if start <? 0 then Z.max (len + start) 0 else Z.min start len in
  let final := if end_ <? 0 then Z.max (len + end_) 0 else Z.min end_ len in
  firstn (Z.to_nat (final - k)) (skipn (Z.to_nat k) arr).

(** [for (let i = 0; i < arr.length; i += size) chunks.push(arr.slice(i, i + size))],
    from the current [i] and the chunks pushed so far. *)
Equations? chunk_loop {A : Type} (arr : list A) (size : Z) (Hsize : 0 < size)
    (i : Z) (chunks : list (list A)) : list (list A)
    by wf (Z.to_nat (Z.of_nat (List.length arr) - i)) Nat.lt :=
  chunk_loop arr size Hsize i chunks
    with Z_lt_dec i (Z.of_nat (List.length arr)) => {
    | left _ :=
        chunk_loop arr size Hsize (i + size)
                   (chunks ++ [slice arr i (i + size)]);
    | right _ := chunks }.
Proof. lia. Qed.

(** [chunk(arr, size)] for an array and an integer [size]. *)
Definition chunk {A : Type} (arr : list A) (size : Z)
  : completion (list (list A)) :=
  match Z_lt_dec 0 size with
  | right _ => Throw (Error "Invalid size provided")
  | left Hsize => Return (chunk_loop arr size Hsize 0 [])
  end.

(** ** Sets of array elements

    A [Set] keeps its elements in the order they were first added and
    compares them by SameValueZero; [eqb] stands for that comparison on
    the elements at hand.  The helpers take arrays, so their guards
    [!Array.isArray(arr)] are never taken. *)

Section WithEquality.
Context {A : Type} (eqb : A -> A -> bool).

(** [set.has(x)]. *)
Definition Set_has (set : list A) (x : A) : bool := existsb (eqb x) set.

(** [set.add(x)]. *)
Definition Set_add (set : list A) (x : A) : list A :=
  if Set_has set x then set else set ++ [x].

(** [new Set(arr)], read back with [[...set]]. *)
Definition new_Set (arr : list A) : list A := fold_left Set_add arr [].

(** [intersection(arr1, arr2)]. *)
Definition intersection (arr1 arr2 : list A) : list A :=
  let set2 := new_Set arr2 in
  filter (fun item => Set_has set2 item) arr1.

(** [difference(arr1, arr2)]. *)
Definition difference (arr1 arr2 : list A) : list A :=
  let set2 := new_Set arr2 in
  filter (fun item => negb (Set_has set2 item)) arr1.

End WithEquality.

(** The callback of [arr.filter] in [unique], run over [arr] with the set
    [seen] as it stands. *)
Fixpoint unique_filter {A K : Type} (eqb : K -> K -> bool) (keyFn : A -> K)
    (seen : list K) (arr : list A) : list A :=
  match arr with
  | [] => []
  | item :: rest =>
      let key := keyFn item in
      if Set_has eqb seen key then unique_filter eqb keyFn seen rest
      else item :: unique_filter eqb keyFn (Set_add eqb seen key) rest
  end.

(** [unique(arr, keyFn = null)]; [eqbA] compares elements, [eqbK] keys. *)
Definition unique {A K : Type} (eqbA : A -> A -> bool) (eqbK : K -> K -> bool)
    (arr : list A) (keyFn : option (A -> K)) : list A :=
  match keyFn with
  | Some keyFn => unique_filter eqbK keyFn [] arr
  | None => new_Set eqbA arr
  end.

(** [union(arr1, arr2)]. *)
Definition union {A : Type} (eqb : A -> A -> bool) (arr1 arr2 : list A)
  : list A :=
  unique (K := A) eqb eqb (arr1 ++ arr2) None.

(** ** The ends of an array *)

(** [arr.slice(start)]: the end defaults to the length. *)
Definition slice_from {A : Type} (arr : list A) (start : Z) : list A :=
  slice arr start (Z.of_nat (List.length arr)).

(** [last(arr, n = 1)] for an integer [n]. *)
Definition last {A : Type} (arr : list A) (n : Z) : completion (list A) :=
  if n <? 0 then Throw (Error "Invalid number provided")
  else Return (slice_from arr (- n)).

(** [first(arr, n = 1)] for an integer [n]. *)
Definition first {A : Type} (arr : list A) (n : Z) : completion (list A) :=
  if n <? 0 then Throw (Error "Invalid number provided")
  else Return (slice arr 0 n).

(** ** Arrays of arrays

    Reading an array past its end gives [undefined]. *)

Section WithUndefined.
Context {V : Type} (undefined : V).

(** [arr[i]]. *)
Definition index (arr : list V) (i : nat) : V := nth i arr undefined.

(** [Math.max(...arrays.map(arr => arr.length))] for at least one array. *)
Definition maxLength (arrays : list (list V)) : nat :=
  list_max (map (@List.length V) arrays).

(** [for (let i = 0; i < maxLength; i++) result.push(arrays.map(arr => arr[i]))]
    with [count] rounds left. *)
Fixpoint zip_loop (arrays : list (list V)) (count i : nat)
    (result : list (list V)) : list (list V) :=
  match count with
  | O => result
  | S count' =>
      zip_loop arrays count' (S i)
               (result ++ [map (fun arr => index arr i) arrays])
  end.

(** [zip(...arrays)]. *)
Definition zip (arrays : list (list V)) : list (list V) :=
  match arrays with
  | [] => []
  | _ => zip_loop arrays (maxLength arrays) 0 []
  end.

(** [unzip(zipped)]. *)
Definition unzip (zipped : list (list V)) : list (list V) :=
  match zipped with
  | [] => []
  | _ => zip_loop zipped (maxLength zipped) 0 []
  end.

(** ** Shuffling

    [random] lists the results of the successive calls of [Math.random()];
    a [tick] counts the calls made so far. *)

Variable random : nat -> Q.

(** [arr[j] = v] on the elements: an index past the end extends the array
    with holes, which read as [undefined]; a negative [j] is no index and
    leaves the elements alone. *)
Definition assign (arr : list V) (j : Z) (v : V) : list V :=
  if j <? 0 then arr
  else
    let k := Z.to_nat j in
    if (k <? List.length arr)%nat
    then firstn k arr ++ v :: skipn (S k) arr
    else arr ++ repeat undefined (k - List.length arr) ++ [v].

(** [arr[j]] for an integer [j]. *)
Definition index_Z (arr : list V) (j : Z) : V :=
  if j <? 0 then undefined else index arr (Z.to_nat j).

(** [[result[i], result[j]] = [result[j], result[i]]]: both are read, then
    [result[i]] and [result[j]] are written in this order. *)
Definition swap (result : list V) (i j : Z) : list V :=
  let a := index_Z result j in
  let b := index_Z result i in
  assign (assign result i a) j b.

(** [for (let i = result.length - 1; i > 0; i--)] from the current [i]. *)
Fixpoint shuffle_loop (result : list V) (i : nat) (tick : nat)
  : list V * nat :=
  match i with
  | O => (result, tick)
  | S i' =>
      let j := Qfloor (random tick * inject_Z (Z.of_nat i + 1)) in
      shuffle_loop (swap result (Z.of_nat i) j) i' (S tick)
  end.

(** [shuffle(arr, inPlace = false)]: the array returned, which with
    [inPlace] is [arr] itself, and the calls of [Math.random()] made. *)
Definition shuffle (arr : list V) (tick : nat) : list V * nat :=
  let result := arr in
  shuffle_loop result (List.length result - 1) tick.

(** [sample(arr, size)] for an integer [size]. *)
Definition sample (arr : list V) (size : Z) (tick : nat)
  : completion (list V) * nat :=
  if size <? 0 then (Throw (Error "Invalid size provided"), tick)
  else
    let (shuffled, tick') := shuffle arr tick in
    (Return (slice shuffled 0 (Z.min size (Z.of_nat (List.length arr)))),
     tick').

(** What [randomItem] returns: one item, or an array of items. *)
Inductive picked : Type :=
| Item (item : V)
| Items (items : list V).

(** [randomItem(arr, count = 1)] for an integer [count]. *)
Definition randomItem (arr : list V) (count : Z) (tick : nat)
  : completion picked * nat :=
  if (List.length arr =? 0)%nat
  then (Throw (Error "Cannot pick from empty array"), tick)
  else if count =? 1 then
    let j := Qfloor (random tick * inject_Z (Z.of_nat (List.length arr))) in
    (Return (Item (index_Z arr j)), S tick)
  else
    let (shuffled, tick') := shuffle arr tick in
    (Return
       (Items (slice shuffled 0 (Z.min count (Z.of_nat (List.length arr))))),
     tick').

End WithUndefined.

End ArrayHelper.

(* ================================================================== *)
(** * Vocabulary of the statements *)
(* ================================================================== *)

Module Spec.
Import JS.
Local Open Scope string_scope.

(** ** A reference host

    English phrases for [Intl.RelativeTimeFormat] with [numeric: 'auto'];
    numbers outside the range [ToString] renders itself are not needed by
    the examples and are left blank. *)

Definition english_unit (unit : string) (n : Z) : string :=
  if (Z.abs n =? 1)%Z then unit else unit ++ "s".

Definition english_rtf (n : number) (unit : string) : string :=
  match n with
  | Fin q =>
      let z := Qfloor q in
      let calendar :=
        negb (String.eqb unit "second" || String.eqb unit "minute"
              || String.eqb unit "hour") in
      if (z =? 0)%Z then
        if String.eqb unit "second" then "now"
        else if String.eqb unit "day" then "today"
        else "this " ++ unit
      else if calendar && (z =? 1)%Z then
        if String.eqb unit "day" then "tomorrow" else "next " ++ unit
      else if calendar && (z =? -1)%Z then
        if String.eqb unit "day" then "yesterday" else "last " ++ unit
      else if (z <? 0)%Z then
        decimal_of_nonneg (- z) ++ " " ++ english_unit unit z ++ " ago"
      else "in " ++ decimal_of_nonneg z ++ " " ++ english_unit unit z
  | _ => "NaN"
  end.

Definition reference_host : Host :=
  {| host_ToString := fun _ => "";
     RelativeTimeFormat := fun _ => Return english_rtf |}.

(** The last character of a string: the tier suffix of a shortened
    number. *)
Fixpoint last_char (s : string) : option ascii :=
  match s with
  | EmptyString => None
  | String c EmptyString => Some c
  | String _ rest => last_char rest
  end.

(** ** Option bags *)

Import DateHelper.

(** [{maxUnits: n}] and [{compact: true}] over the defaults. *)
Definition with_maxUnits (n : number) (o : duration_options)
  : duration_options :=
  {| includeSeconds := includeSeconds o; includeMinutes := includeMinutes o;
     includeHours := includeHours o; includeDays := includeDays o;
     includeWeeks := includeWeeks o; includeMonths := includeMonths o;
     includeYears := includeYears o; maxUnits := n; compact := compact o |}.

Definition with_compact (b : bool) (o : duration_options) : duration_options :=
  {| includeSeconds := includeSeconds o; includeMinutes := includeMinutes o;
     includeHours := includeHours o; includeDays := includeDays o;
     includeWeeks := includeWeeks o; includeMonths := includeMonths o;
     includeYears := includeYears o; maxUnits := maxUnits o; compact := b |}.

(** Units in the order of the table: each later one is shorter. *)
Definition shorter (u1 u2 : time_unit) : Prop :=
  lt (unit_seconds u2) (unit_seconds u1) = true.

(** The time values a [Date] can hold. *)
Definition representable (t : Z) : Prop := Z.abs t <= maxTime.

(** Monday 00:00:00.000 and Sunday 23:59:59.999 of the week of the local
    time [t], as local times. *)
Definition week_start_local (t : Z) : Z :=
  (Day t - (WeekDay t + 6) mod 7) * msPerDay.

Definition week_end_local (t : Z) : Z :=
  (Day t + (7 - WeekDay t) mod 7) * msPerDay + MakeTime 23 59 59 999.




(** Strings made of decimal digits only. *)
Fixpoint all_digits (s : string) : bool :=
  match s with
  | EmptyString => true
  | String c rest => is_digit c && all_digits rest
  end.

(** A ten-character ISBN candidate: nine digits [body] and a check
    character that is a digit or [X]. *)
Definition isbn10_form (body : string) (check : ascii) : Prop :=
  String.length body = 9%nat
  /\ all_digits body = true
  /\ (is_digit check = true \/ check = "X"%char).

(** Chunks of an array cut every [size] elements: all of length [size],
    except that the last may be shorter, though not empty. *)
Fixpoint well_chunked {A : Type} (size : Z) (chunks : list (list A)) : Prop :=
  match chunks with
  | [] => True
  | c :: rest =>
      match rest with
      | [] => 1 <= Z.of_nat (List.length c) <= size
      | _ :: _ => Z.of_nat (List.length c) = size /\ well_chunked size rest
      end
  end.

(** The ten digit characters. *)
Definition digit_chars : list ascii :=
  ["0"; "1"; "2"; "3"; "4"; "5"; "6"; "7"; "8"; "9"]%char.

(** A derivative that no further input changes: nothing matches, or
    anything does. *)
Definition settled (r : Regex.regex) : bool :=
  match r with
  | Regex.Void => true
  | Regex.Star (Regex.Class [(lo, hi)]) =>
      (nat_of_ascii lo =? 0)%nat && (nat_of_ascii hi =? 255)%nat
  | _ => false
  end.

Definition accepting (r : Regex.regex) : bool :=
  match r with
  | Regex.Void => false
  | _ => true
  end.

(** The state of a start-anchored pattern after four characters. *)
Definition after_four (p : Regex.pattern) (a b c d : ascii) : Regex.regex :=
  let r :=
    match p with
    | Regex.Prefix r => Regex.Seq r (Regex.Star Regex.any)
    | Regex.Whole r => r
    end in
  Regex.deriv d (Regex.deriv c (Regex.deriv b (Regex.deriv a r))).

(** The first four characters of a string. *)
Definition first_four (s : string) : string := String.substring 0 4 s.

(** A regular expression whose classes are all [\d]. *)
Fixpoint digit_only (r : Regex.regex) : bool :=
  match r with
  | Regex.Void | Regex.Eps => true
  | Regex.Class [(lo, hi)] => Ascii.eqb lo "0" && Ascii.eqb hi "9"
  | Regex.Class _ => false
  | Regex.Seq r1 r2 | Regex.Alt r1 r2 => digit_only r1 && digit_only r2
  | Regex.Star r1 => digit_only r1
  end.

(** The seconds a list of terms stands for, summed in the order the
    terms were pushed. *)
Definition terms_total (terms : list (number * time_unit)) : number :=
  fold_left (fun acc t => add acc (mul (fst t) (unit_seconds (snd t))))
            terms (Int 0).

(** A table of units that ends with an enabled unit of one second. *)
Fixpoint ends_with_second (tus : list time_unit) : Prop :=
  match tus with
  | [] => False
  | u :: rest =>
      match rest with
      | [] => unit_seconds u = Int 1 /\ enabled u = true
      | _ :: _ => ends_with_second rest
      end
  end.

(** The row of [intervals] an elapsed time of [d] whole seconds selects:
    the largest unit that fits at least once. *)
Definition bucket (d : Z) : string * Z :=
  if (31536000 <=? d)%Z then ("year", 31536000%Z)
  else if (2592000 <=? d)%Z then ("month", 2592000%Z)
  else if (604800 <=? d)%Z then ("week", 604800%Z)
  else if (86400 <=? d)%Z then ("day", 86400%Z)
  else if (3600 <=? d)%Z then ("hour", 3600%Z)
  else if (60 <=? d)%Z then ("minute", 60%Z)
  else ("second", 1%Z).

(** The first and the last millisecond of the local day, month and year
    of the local time [t], as local times. *)
Definition day_start_local (t : Z) : Z := Day t * msPerDay.

Definition day_end_local (t : Z) : Z :=
  Day t * msPerDay + MakeTime 23 59 59 999.

Definition month_start_local (t : Z) : Z :=
  MakeDay (YearFromTime t) (MonthFromTime t) 1 * msPerDay.

Definition month_end_local (t : Z) : Z :=
  MakeDay (YearFromTime t) (MonthFromTime t + 1) 0 * msPerDay
  + MakeTime 23 59 59 999.

Definition year_start_local (t : Z) : Z :=
  MakeDay (YearFromTime t) 0 1 * msPerDay.

Definition year_end_local (t : Z) : Z :=
  MakeDay (YearFromTime t) 11 31 * msPerDay + MakeTime 23 59 59 999.

(** 1 in a leap year, 0 otherwise. *)
Definition leap_day (y : Z) : Z := if (DaysInYear y =? 366)%Z then 1%Z else 0%Z.

(** The day of the year on which the month after [m] starts. *)
Definition month_stop (m leap : Z) : Z :=
  (if m <=? 0 then 31
   else if m =? 1 then 59 + leap
   else if m =? 2 then 90 + leap
   else if m =? 3 then 120 + leap
   else if m =? 4 then 151 + leap
   else if m =? 5 then 181 + leap
   else if m =? 6 then 212 + leap
   else if m =? 7 then 243 + leap
   else if m =? 8 then 273 + leap
   else if m =? 9 then 304 + leap
   else if m =? 10 then 334 + leap
   else 365 + leap)%Z.

(** What the Luhn loop adds for a digit [d]: the digit itself, or, at
    every second position from the right, its double with 9 taken off
    when that exceeds 9. *)
Definition luhn_term (doubled : bool) (d : Z) : Z :=
  if doubled then (if (9 <? d * 2)%Z then d * 2 - 9 else d * 2)%Z else d.

(** Whether the loop, run over [k] characters and entered with
    [isEven], doubles the character at index [i]. *)
Definition luhn_flag (k : nat) (isEven : bool) (i : nat) : bool :=
  if Nat.even (k - 1 - i) then isEven else negb isEven.

(** The strings a regular expression denotes. *)
Inductive lang : Regex.regex -> string -> Prop :=
| lang_Eps : lang Regex.Eps EmptyString
| lang_Class (ranges : list (ascii * ascii)) (c : ascii) :
    Regex.in_class ranges c = true ->
    lang (Regex.Class ranges) (String c EmptyString)
| lang_Seq (r1 r2 : Regex.regex) (s1 s2 : string) :
    lang r1 s1 -> lang r2 s2 -> lang (Regex.Seq r1 r2) (s1 ++ s2)
| lang_Alt_l (r1 r2 : Regex.regex) (s : string) :
    lang r1 s -> lang (Regex.Alt r1 r2) s
| lang_Alt_r (r1 r2 : Regex.regex) (s : string) :
    lang r2 s -> lang (Regex.Alt r1 r2) s
| lang_Star_nil (r : Regex.regex) : lang (Regex.Star r) EmptyString
| lang_Star_cons (r : Regex.regex) (s1 s2 : string) :
    lang r s1 -> lang (Regex.Star r) s2 -> lang (Regex.Star r) (s1 ++ s2).

(** All the characters of [s] satisfy [p]. *)
Fixpoint all_chars (p : ascii -> bool) (s : string) : bool :=
  match s with
  | EmptyString => true
  | String c rest => p c && all_chars p rest
  end.

(** One to three decimal digits that read as a number up to 255. *)
Definition decimal_octet (s : string) : Prop :=
  (1 <= String.length s <= 3)%nat
  /\ all_digits s = true
  /\ (digits_value 0 s <= 255)%Z.

(** A hexadecimal digit, in either case. *)
Definition is_hex (c : ascii) : bool :=
  let n := nat_of_ascii c in
  is_digit c || ((97 <=? n)%nat && (n <=? 102)%nat)
             || ((65 <=? n)%nat && (n <=? 70)%nat).

(** One to four hexadecimal digits. *)
Definition hex_group (s : string) : Prop :=
  (1 <= String.length s <= 4)%nat /\ all_chars is_hex s = true.

(** The English ordinal suffix of an integer that is not negative. *)
Definition ordinal_suffix (z : Z) : string :=
  if ((11 <=? z mod 100) && (z mod 100 <=? 13))%Z then "th"
  else if (z mod 10 =? 1)%Z then "st"
  else if (z mod 10 =? 2)%Z then "nd"
  else if (z mod 10 =? 3)%Z then "rd"
  else "th".

(** Some character of [s] satisfies [p]. *)
Definition contains (p : ascii -> bool) (s : string) : bool :=
  negb (all_chars (fun c => negb (p c)) s).

Definition is_upper_letter (c : ascii) : bool :=
  let n := nat_of_ascii c in (65 <=? n)%nat && (n <=? 90)%nat.

Definition is_lower_letter (c : ascii) : bool :=
  let n := nat_of_ascii c in (97 <=? n)%nat && (n <=? 122)%nat.

(** A character that is neither white space nor [@]. *)
Definition is_plain (c : ascii) : bool :=
  negb (is_space c || (c =? "@")%char).

(** What a required kind of character adds to the score. *)
Definition required (flag : bool) : Z := if flag then 1%Z else 0%Z.

(** The names of the own properties of a table, as the keys it is read
    with. *)
Definition keys {V : Type} (o : object V) : list wide_string :=
  map (fun entry => widen (fst entry)) o.

(** Upper-casing as Unicode has it, on the strings made of ASCII
    characters and of the long s (U+017F, code unit 383), whose capital is
    S: the ASCII letters a to z go to A to Z, the long s to S, and the
    other ASCII characters stay. *)
Definition upper_unit (u : N) : N :=
  if ((97 <=? u) && (u <=? 122))%N then (u - 32)%N
  else if (u =? 383)%N then 83%N
  else u.

Definition unicode_upper (s : wide_string) : wide_string := map upper_unit s.

(** A clock that stands still at [now]. *)
Definition fixed_clock (now : Z) : Clock := fun _ => now.

End Spec.

(* ================================================================== *)
(** * Facts about the number model *)
(* ================================================================== *)

Module JSFacts.
Import JS.

Lemma Qred_inject_Z (z : Z) : Qred (inject_Z z) = inject_Z z.
Proof.
  unfold Qred, inject_Z.
  pose proof (Z.ggcd_gcd z 1) as Hg.
  pose proof (Z.ggcd_correct_divisors z 1) as Hd.
  destruct (Z.ggcd z 1) as [g [aa bb]]. simpl in Hg, Hd.
  rewrite Z.gcd_1_r in Hg. subst g. destruct Hd as [Ha Hb].
  replace aa with z by lia. replace bb with 1 by lia. reflexivity.
Qed.

Lemma fin_inject_Z (q : Q) (z : Z) : (q == inject_Z z)%Q -> fin q = Int z.
Proof.
  intros H. unfold fin, Int.
  rewrite (Qred_complete _ _ H). now rewrite Qred_inject_Z.
Qed.

Lemma add_Int (a b : Z) : add (Int a) (Int b) = Int (a + b).
Proof.
  simpl. apply fin_inject_Z. now rewrite inject_Z_plus.
Qed.

Lemma neg_Int (a : Z) : neg (Int a) = Int (- a).
Proof.
  simpl. apply fin_inject_Z. now rewrite inject_Z_opp.
Qed.

Lemma sub_Int (a b : Z) : sub (Int a) (Int b) = Int (a - b).
Proof.
  unfold sub. rewrite neg_Int, add_Int. reflexivity.
Qed.

Lemma mul_Int (a b : Z) : mul (Int a) (Int b) = Int (a * b).
Proof.
  simpl. apply fin_inject_Z. now rewrite inject_Z_mult.
Qed.

Lemma lt_Int (a b : Z) : lt (Int a) (Int b) = (a <? b).
Proof.
  simpl. unfold Qlt_bool, Qle_bool. simpl.
  rewrite !Z.mul_1_r. rewrite Z.ltb_antisym. reflexivity.
Qed.

Lemma le_Int (a b : Z) : le (Int a) (Int b) = (a <=? b).
Proof.
  simpl. unfold Qle_bool. simpl. now rewrite !Z.mul_1_r.
Qed.

Lemma strict_eq_Int (a b : Z) : strict_eq (Int a) (Int b) = (a =? b).
Proof.
  simpl. unfold Qeq_bool. simpl. now rewrite !Z.mul_1_r.
Qed.

Lemma floor_div_Int (a b : Z) :
  0 < b -> floor (div (Int a) (Int b)) = Int (a / b).
Proof.
  intros Hb. unfold div, Int, sgn. simpl Qnum.
  destruct (Z.compare_spec b 0) as [H|H|H]; try lia.
  unfold fin, floor, Int. f_equal. f_equal.
  rewrite (Qfloor_comp _ _ (Qred_correct _)).
  symmetry. apply Zdiv_Qdiv.
Qed.

Lemma rem_Int (a b : Z) : 0 < b -> rem (Int a) (Int b) = Int (Z.rem a b).
Proof.
  intros Hb. unfold rem, Int, sgn. simpl Qnum.
  destruct (Z.compare_spec b 0) as [H|H|H]; try lia.
  apply fin_inject_Z.
  destruct b as [|p|p]; try lia.
  unfold Qtrunc, Qdiv, Qinv, Qmult, inject_Z. simpl Qnum. simpl Qden.
  rewrite Z.mul_1_r, Pos.mul_1_l.
  rewrite (Z.quot_rem' a (Zpos p)) at 1.
  unfold Qeq, Qminus, Qplus, Qopp, Qmult. simpl. ring.
Qed.

End JSFacts.

(* ================================================================== *)
(** * shortenNumber *)
(* ================================================================== *)

Section ShortenNumber.
Import JS NumberHelper Spec.
Local Open Scope string_scope.
Variable host : Host.

Lemma toFixed_default_returns (x : number) :
  exists shortened, toFixed host x default_decimals = Return shortened.
Proof.
  unfold toFixed.
  change (fraction_digits default_decimals) with (Some 1%Z). cbv iota.
  destruct x as [| | |q]; eauto.
  match goal with |- context [if ?c then _ else _] => destruct c end; eauto.
Qed.

(** Whatever [toFixed] throws, it is not an [Error] of the helpers. *)
Lemma toFixed_no_Error (x d : number) (msg : string) :
  toFixed host x d <> Throw (Error msg).
Proof.
  unfold toFixed. destruct (fraction_digits d); [|discriminate].
  destruct x as [| | |q]; try discriminate.
  match goal with |- context [if ?c then _ else _] => destruct c end;
    discriminate.
Qed.

Lemma last_char_app (body : string) (c : ascii) :
  last_char (body ++ String c EmptyString) = Some c.
Proof.
  induction body as [|a body IH]; simpl; [reflexivity|].
  rewrite IH. destruct body; reflexivity.
Qed.

Lemma last_char_app_assoc (a b : string) (c : ascii) :
  last_char (a ++ b ++ String c EmptyString) = Some c.
Proof.
  induction a as [|x a IH]; simpl.
  - apply last_char_app.
  - rewrite IH. destruct (a ++ b ++ String c EmptyString) eqn:E; [|reflexivity].
    destruct a; simpl in E; [destruct b|]; discriminate.
Qed.

(** A value at or above the top tier is not below a thousand. *)
Lemma top_tier_not_small (a : number) :
  ge a (Int (10 ^ 12)) = true -> lt a (Int 1000) = false.
Proof.
  destruct a as [| | |q]; simpl; try discriminate; try reflexivity.
  intros H. unfold Qlt_bool. apply Qle_bool_iff in H.
  apply negb_false_iff. apply Qle_bool_iff.
  eapply Qle_trans; [|exact H]. unfold Qle; simpl. lia.
Qed.

(** C2, as the code has it: the guard rejects [NaN] and nothing else; it
    comes before any formatting, and the infinities pass it and are
    rendered with the top tier's suffix. *)
Theorem shortenNumber_rejects_only_NaN :
  (forall v d, shortenNumber host v d = Throw (Error "Invalid number provided")
               <-> v = NaN)
  /\ shortenNumber host PosInf default_decimals = Return "InfinityT"
  /\ shortenNumber host NegInf default_decimals = Return "-InfinityT".
Proof.
  split; [|split; reflexivity].
  intros v d. split.
  - destruct v as [| | |q]; [reflexivity| | |]; intros H; exfalso;
      unfold shortenNumber in H; simpl isNaN in H; cbv iota in H.
    + simpl in H. destruct (toFixed host PosInf d) eqn:E; [discriminate|].
      inversion H; subst. eapply toFixed_no_Error; eassumption.
    + simpl in H. destruct (toFixed host PosInf d) eqn:E; [discriminate|].
      inversion H; subst. eapply toFixed_no_Error; eassumption.
    + destruct (lt (abs (Fin q)) (Int 1000)); [discriminate|].
      unfold units, shorten_scan in H.
      repeat match type of H with
      | (if ?c then _ else _) = _ => destruct c
      | match toFixed host ?x d with _ => _ end = _ =>
          let E := fresh "E" in
          destruct (toFixed host x d) eqn:E;
          [discriminate | inversion H; subst; eapply toFixed_no_Error; eassumption]
      end; discriminate.
  - intros ->. reflexivity.
Qed.

(** C3: below a thousand the number is returned as [toString] gives it;
    from the top tier's threshold on the result ends in "T". *)
Theorem shortenNumber_tiers (v : number) :
  isFinite v = true ->
  (lt (abs v) (Int 1000) = true ->
     shortenNumber host v default_decimals = Return (ToString host v))
  /\ (ge (abs v) (Int (10 ^ 12)) = true ->
     exists s, shortenNumber host v default_decimals = Return s
               /\ last_char s = Some "T"%char).
Proof.
  intros Hfin. destruct v as [| | |q]; try discriminate. split.
  - intros Hsmall. unfold shortenNumber. simpl isNaN. cbv iota.
    rewrite Hsmall. reflexivity.
  - intros Hbig. unfold shortenNumber. simpl isNaN. cbv iota.
    rewrite (top_tier_not_small _ Hbig).
    unfold units, shorten_scan. cbv [value suffix].
    rewrite Hbig.
    destruct (toFixed_default_returns (div (abs (Fin q)) (Int (10 ^ 12))))
      as [shortened ->].
    eexists. split; [reflexivity|].
    apply last_char_app_assoc.
Qed.

End ShortenNumber.

Lemma shortenNumber_tiers_witness :
  NumberHelper.shortenNumber Spec.reference_host (JS.Int 999)
      NumberHelper.default_decimals = JS.Return "999"%string
  /\ exists s,
       NumberHelper.shortenNumber Spec.reference_host (JS.Int (25 * 10 ^ 11))
           NumberHelper.default_decimals = JS.Return s
       /\ Spec.last_char s = Some "T"%char.
Proof.
  split.
  - exact (proj1 (shortenNumber_tiers Spec.reference_host (JS.Int 999)
                    eq_refl) eq_refl).
  - exact (proj2 (shortenNumber_tiers Spec.reference_host
                    (JS.Int (25 * 10 ^ 11)) eq_refl) eq_refl).
Defined.

(** C2 fails at the infinities: they are not finite, and yet the call
    returns a suffixed string instead of raising. *)
Lemma shortenNumber_accepts_Infinity :
  JS.isFinite JS.PosInf = false
  /\ NumberHelper.shortenNumber Spec.reference_host JS.PosInf
       NumberHelper.default_decimals = JS.Return "InfinityT"%string
  /\ ~ (forall v d, JS.isFinite v = false ->
          JS.throws (NumberHelper.shortenNumber Spec.reference_host v d) = true).
Proof.
  split; [reflexivity|]. split; [reflexivity|].
  intros H. specialize (H JS.PosInf NumberHelper.default_decimals eq_refl).
  discriminate H.
Qed.

(* ================================================================== *)
(** * formatDuration *)
(* ================================================================== *)

Section FormatDuration.
Import JS DateHelper Spec.
Local Open Scope string_scope.
Variable host : Host.

Lemma timeUnits_descending (o : duration_options) :
  StronglySorted shorter (timeUnits o).
Proof.
  unfold timeUnits.
  repeat (constructor; [|repeat constructor; reflexivity]).
  constructor.
Qed.

Lemma StronglySorted_app_inv {A : Type} (R : A -> A -> Prop) (l1 l2 : list A) :
  StronglySorted R (l1 ++ l2) -> StronglySorted R l1 /\ StronglySorted R l2.
Proof.
  induction l1 as [|a l1 IH]; simpl; intros H.
  - split; [constructor | exact H].
  - inversion H as [|? ? Hs Hf]; subst. destruct (IH Hs) as [H1 H2].
    split; [|exact H2]. constructor; [exact H1|].
    rewrite Forall_app in Hf. tauto.
Qed.

Lemma StronglySorted_drop {A : Type} (R : A -> A -> Prop)
    (l1 : list A) (a : A) (l2 : list A) :
  StronglySorted R (l1 ++ a :: l2) -> StronglySorted R (l1 ++ l2).
Proof.
  induction l1 as [|b l1 IH]; simpl; intros H.
  - now inversion H.
  - inversion H as [|? ? Hs Hf]; subst. constructor; [now apply IH|].
    rewrite Forall_app in *. destruct Hf as [Hf1 Hf2].
    inversion Hf2; subst. tauto.
Qed.

(** The rendered loop is the recorded loop, term by term. *)
Lemma duration_loop_renders (o : duration_options) (tus : list time_unit) :
  forall remaining terms,
    duration_loop host o tus remaining
      (map (fun t => render_term host o (fst t) (snd t)) terms)
    = map (fun t => render_term host o (fst t) (snd t))
        (duration_terms o tus remaining terms).
Proof.
  induction tus as [|u rest IH]; intros remaining terms;
    cbn [duration_loop duration_terms]; [reflexivity|].
  destruct (negb (enabled u) || lt remaining (unit_seconds u)); [apply IH|].
  destruct (gt (floor (div remaining (unit_seconds u))) (Int 0)).
  - rewrite !length_app, !length_map. simpl List.length.
    destruct (ge _ (maxUnits o)).
    + now rewrite map_app.
    + rewrite <- IH. now rewrite map_app.
  - rewrite !length_map. destruct (ge _ (maxUnits o)); [reflexivity|apply IH].
Qed.

(** Every recorded term has a positive count, and the units come in the
    order of the table, none twice. *)
Lemma duration_terms_invariant (o : duration_options) (tus : list time_unit) :
  forall remaining terms,
    Forall (fun t => gt (fst t) (Int 0) = true) terms ->
    StronglySorted shorter (map snd terms ++ tus) ->
    let out := duration_terms o tus remaining terms in
    Forall (fun t => gt (fst t) (Int 0) = true) out
    /\ StronglySorted shorter (map snd out).
Proof.
  induction tus as [|u rest IH]; intros remaining terms Hpos Hsorted;
    cbn [duration_terms].
  - rewrite app_nil_r in Hsorted. now split.
  - destruct (negb (enabled u) || lt remaining (unit_seconds u)).
    + apply IH; [exact Hpos|]. eapply StronglySorted_drop; exact Hsorted.
    + destruct (gt (floor (div remaining (unit_seconds u))) (Int 0)) eqn:Hc.
      * assert (Hpos' : Forall (fun t => gt (fst t) (Int 0) = true)
                  (terms ++ [(floor (div remaining (unit_seconds u)), u)])).
        { apply Forall_app. split; [exact Hpos|]. constructor; [exact Hc|constructor]. }
        assert (Hsorted' : StronglySorted shorter
                  (map snd (terms ++ [(floor (div remaining (unit_seconds u)), u)])
                   ++ rest)).
        { rewrite map_app. simpl. rewrite <- app_assoc. exact Hsorted. }
        destruct (ge _ (maxUnits o)).
        -- split; [exact Hpos'|].
           now apply StronglySorted_app_inv in Hsorted'.
        -- now apply IH.
      * destruct (ge _ (maxUnits o)).
        -- split; [exact Hpos|].
           now apply StronglySorted_app_inv in Hsorted.
        -- apply IH; [exact Hpos|]. eapply StronglySorted_drop; exact Hsorted.
Qed.

(** The part of C1 that holds for every input the guard lets through: the
    text is the recorded terms rendered and joined, each term has a
    positive count, and their units strictly descend. *)
Lemma formatDuration_terms (seconds : number) (o : duration_options) :
  isNaN seconds = false -> lt seconds (Int 0) = false ->
  let terms := duration_terms o (timeUnits o) (floor seconds) [] in
  formatDuration host seconds o
    = Return (match terms with
              | [] => if compact o then "0s" else "0 seconds"
              | _ => join " " (map (fun t => render_term host o (fst t) (snd t))
                                   terms)
              end)
  /\ Forall (fun t => gt (fst t) (Int 0) = true) terms
  /\ StronglySorted shorter (map snd terms).
Proof.
  intros Hnan Hneg terms. split.
  - unfold formatDuration. rewrite Hnan, Hneg. simpl orb. cbv iota.
    pose proof (duration_loop_renders o (timeUnits o) (floor seconds) []) as E.
    simpl map in E at 1. rewrite E. fold terms.
    rewrite length_map. destruct terms; reflexivity.
  - apply duration_terms_invariant; [constructor|].
    apply timeUnits_descending.
Qed.

(** C1 at its examples: with the default options the unit names are
    written out in full and stuck to the count; the one-letter form needs
    [compact: true]. *)
Theorem formatDuration_examples :
  formatDuration host (Int 0) default_options = Return "0 seconds"
  /\ formatDuration host (Int 3661) default_options
     = Return "1hour 1minute 1second"
  /\ formatDuration host (Int 3661) (with_maxUnits (Int 2) default_options)
     = Return "1hour 1minute"
  /\ formatDuration host (Int 3661) (with_compact true default_options)
     = Return "1h 1m 1s".
Proof.
  repeat split; reflexivity.
Qed.

(** C4, as the code has it: the call raises exactly for [NaN] and for
    negative seconds (minus infinity among them); every other input,
    plus infinity included, yields a string. *)
Theorem formatDuration_rejects_NaN_and_negative :
  (forall s o, formatDuration host s o = Throw (Error "Invalid duration provided")
               <-> (isNaN s = true \/ lt s (Int 0) = true))
  /\ (forall s o, isNaN s = false -> lt s (Int 0) = false ->
        exists text, formatDuration host s o = Return text)
  /\ formatDuration host NegInf default_options
     = Throw (Error "Invalid duration provided")
  /\ formatDuration host PosInf default_options = Return "Infinityyear".
Proof.
  split; [|split; [|split; reflexivity]].
  - intros s o. unfold formatDuration.
    destruct (isNaN s); [simpl; tauto|].
    destruct (lt s (Int 0)); [simpl; tauto|]. simpl orb. cbv iota.
    split; [|intros [H|H]; discriminate].
    destruct (List.length _ =? 0)%nat; discriminate.
  - intros s o Hnan Hneg.
    destruct (formatDuration_terms s o Hnan Hneg) as [E _].
    rewrite E. eauto.
Qed.

End FormatDuration.

(** C4 fails at plus infinity: it is not finite, and the call returns. *)
Lemma formatDuration_accepts_Infinity :
  JS.isFinite JS.PosInf = false
  /\ DateHelper.formatDuration Spec.reference_host JS.PosInf
       DateHelper.default_options = JS.Return "Infinityyear"%string
  /\ ~ (forall s o, JS.isFinite s = false ->
          JS.throws (DateHelper.formatDuration Spec.reference_host s o) = true).
Proof.
  split; [reflexivity|]. split; [reflexivity|].
  intros H. specialize (H JS.PosInf DateHelper.default_options eq_refl).
  discriminate H.
Qed.

(* ================================================================== *)
(** * timeAgo and timeFromNow *)
(* ================================================================== *)

Section RelativeTime.
Import JS DateHelper Spec JSFacts.
Local Open Scope string_scope.
Local Open Scope Z_scope.
Variable host : Host.

(** One call of [timeAgo] on a valid date, with the difference in whole
    seconds worked out. *)
Lemma timeAgo_step (fuel : nat) (clock : Clock) (tick : nat) (tv : Z)
    (locale : string) :
  timeAgo host (S fuel) clock tick (TimeValue tv) locale
  = if (clock tick - tv) / 1000 <? 0
    then timeFromNow host fuel clock (S tick) (TimeValue tv) locale
    else Some (with_formatter host locale neg (Int ((clock tick - tv) / 1000))).
Proof.
  cbn [timeAgo getTime isNaN Int].
  change (Fin (inject_Z ?z)) with (Int z).
  rewrite sub_Int, floor_div_Int, lt_Int by lia. reflexivity.
Qed.

Lemma timeFromNow_step (fuel : nat) (clock : Clock) (tick : nat) (tv : Z)
    (locale : string) :
  timeFromNow host (S fuel) clock tick (TimeValue tv) locale
  = if (tv - clock tick) / 1000 <? 0
    then timeAgo host fuel clock (S tick) (TimeValue tv) locale
    else Some (with_formatter host locale (fun c => c)
                 (Int ((tv - clock tick) / 1000))).
Proof.
  cbn [timeFromNow getTime isNaN Int].
  change (Fin (inject_Z ?z)) with (Int z).
  rewrite sub_Int, floor_div_Int, lt_Int by lia. reflexivity.
Qed.

Lemma whole_seconds_negative (x : Z) : (x / 1000 <? 0) = (x <? 0).
Proof.
  destruct (Z.ltb_spec x 0) as [H|H].
  - apply Z.ltb_lt. apply Z.div_lt_upper_bound; lia.
  - apply Z.ltb_ge. apply Z.div_pos; lia.
Qed.

(** At a zero difference both scans fall through to the same phrase. *)
Lemma scan_intervals_zero (format : number -> string -> string)
    (signed : number -> number) :
  scan_intervals intervals format signed (Int 0) = format (Int 0) "second".
Proof. reflexivity. Qed.

Lemma with_formatter_zero (locale : string) (signed : number -> number) :
  with_formatter host locale signed (Int 0)
  = with_formatter host locale (fun c => c) (Int 0).
Proof.
  unfold with_formatter. destruct (RelativeTimeFormat host locale);
    [|reflexivity].
  now rewrite !scan_intervals_zero.
Qed.

Lemma with_formatter_returns (locale : string)
    (format : number -> string -> string) (signed : number -> number)
    (diff : number) :
  RelativeTimeFormat host locale = Return format ->
  exists phrase, with_formatter host locale signed diff = Return phrase.
Proof. intros E. unfold with_formatter. rewrite E. eauto. Qed.

(** C7: under a clock that stands still, and with fuel for one delegated
    call, [timeAgo] and [timeFromNow] complete in the same way for every
    valid instant, with the same phrase when the host has a formatter for
    the locale; [timeAgo] hands a future instant over to [timeFromNow],
    and [timeFromNow] a past one to [timeAgo]. *)
Theorem timeAgo_timeFromNow_symmetric
    (clock : Clock) (tick : nat) (tv : Z) (locale : string) (fuel : nat)
    (format : number -> string -> string) :
  (forall i j, clock i = clock j) ->
  RelativeTimeFormat host locale = Return format ->
  (exists phrase,
      timeAgo host (S (S fuel)) clock tick (TimeValue tv) locale
      = Some (Return phrase)
      /\ timeFromNow host (S (S fuel)) clock tick (TimeValue tv) locale
         = Some (Return phrase))
  /\ (clock tick < tv ->
      timeAgo host (S (S fuel)) clock tick (TimeValue tv) locale
      = timeFromNow host (S fuel) clock (S tick) (TimeValue tv) locale)
  /\ (tv < clock tick ->
      timeFromNow host (S (S fuel)) clock tick (TimeValue tv) locale
      = timeAgo host (S fuel) clock (S tick) (TimeValue tv) locale).
Proof.
  intros Hfixed Hlocale.
  pose proof (Hfixed (S tick) tick) as Hnext.
  rewrite (timeAgo_step (S fuel)), (timeFromNow_step (S fuel)).
  rewrite (timeAgo_step fuel), (timeFromNow_step fuel).
  rewrite Hnext, !whole_seconds_negative.
  destruct (Z.ltb_spec (clock tick - tv) 0) as [Ha|Ha];
    destruct (Z.ltb_spec (tv - clock tick) 0) as [Hb|Hb]; try lia.
  - destruct (with_formatter_returns locale format (fun c => c)
                (Int ((tv - clock tick) / 1000)) Hlocale) as [phrase E].
    rewrite E. repeat split; eauto; intros; lia.
  - destruct (with_formatter_returns locale format neg
                (Int ((clock tick - tv) / 1000)) Hlocale) as [phrase E].
    rewrite E. repeat split; eauto; intros; lia.
  - assert (E : tv = clock tick) by lia. rewrite E, Z.sub_diag.
    change (0 / 1000) with 0. rewrite (with_formatter_zero locale neg).
    destruct (with_formatter_returns locale format (fun c => c) (Int 0) Hlocale)
      as [phrase E0].
    rewrite E0. repeat split; eauto; intros; lia.
Qed.

(** Whatever the host does with the locale, the two functions complete
    alike: with the same phrase or the same error. *)
Lemma timeAgo_timeFromNow_agree
    (clock : Clock) (tick : nat) (tv : Z) (locale : string) (fuel : nat) :
  (forall i j, clock i = clock j) ->
  timeAgo host (S (S fuel)) clock tick (TimeValue tv) locale
  = timeFromNow host (S (S fuel)) clock tick (TimeValue tv) locale
  /\ exists outcome,
       timeAgo host (S (S fuel)) clock tick (TimeValue tv) locale
       = Some outcome.
Proof.
  intros Hfixed.
  pose proof (Hfixed (S tick) tick) as Hnext.
  rewrite (timeAgo_step (S fuel)), (timeFromNow_step (S fuel)).
  rewrite (timeAgo_step fuel), (timeFromNow_step fuel).
  rewrite Hnext, !whole_seconds_negative.
  destruct (Z.ltb_spec (clock tick - tv) 0) as [Ha|Ha];
    destruct (Z.ltb_spec (tv - clock tick) 0) as [Hb|Hb]; try lia;
    try (split; [reflexivity|eauto]).
  assert (E : tv = clock tick) by lia. rewrite E, Z.sub_diag.
  change (0 / 1000) with 0. rewrite (with_formatter_zero locale neg).
  split; [reflexivity|eauto].
Qed.

(** An invalid date makes both raise, before the clock matters. *)
Lemma timeAgo_invalid_date (clock : Clock) (tick : nat) (locale : string)
    (fuel : nat) :
  timeAgo host (S fuel) clock tick InvalidDate locale
  = Some (Throw (Error "Invalid date provided"))
  /\ timeFromNow host (S fuel) clock tick InvalidDate locale
     = Some (Throw (Error "Invalid date provided")).
Proof. split; reflexivity. Qed.

End RelativeTime.

Lemma timeAgo_timeFromNow_symmetric_witness :
  exists phrase,
    DateHelper.timeAgo Spec.reference_host 2 (Spec.fixed_clock 10000) 0
        (DateHelper.TimeValue (10000 + 3 * 3600000)) DateHelper.default_locale
    = Some (JS.Return phrase)
    /\ DateHelper.timeFromNow Spec.reference_host 2 (Spec.fixed_clock 10000) 0
        (DateHelper.TimeValue (10000 + 3 * 3600000)) DateHelper.default_locale
       = Some (JS.Return phrase).
Proof.
  exact (proj1 (timeAgo_timeFromNow_symmetric Spec.reference_host
                  (Spec.fixed_clock 10000) 0 (10000 + 3 * 3600000)
                  DateHelper.default_locale 0 Spec.english_rtf
                  (fun _ _ => eq_refl) eq_refl)).
Defined.

(* ================================================================== *)
(** * The calendar of the date model *)
(* ================================================================== *)

Section Calendar.
Import DateHelper.
Local Open Scope Z_scope.

(** Years follow one another without gap, leap years being a day longer. *)
Lemma DayFromYear_next (y : Z) :
  DayFromYear (y + 1) = DayFromYear y + DaysInYear y.
Proof.
  unfold DayFromYear, DaysInYear.
  destruct (Z.eqb_spec (y mod 4) 0) as [H4|H4];
    destruct (Z.eqb_spec (y mod 100) 0) as [H100|H100];
    destruct (Z.eqb_spec (y mod 400) 0) as [H400|H400]; cbn [negb andb orb];
    Z.to_euclidean_division_equations; lia.
Qed.

(** [YearFromTime] is the year the day falls in. *)
Lemma YearFromTime_spec (t : Z) :
  DayFromYear (YearFromTime t) <= Day t < DayFromYear (YearFromTime t + 1).
Proof.
  unfold YearFromTime. set (d := Day t). clearbody d.
  set (y := 1970 + 400 * d / 146097).
  assert (Hy : DayFromYear (y - 1) <= d < DayFromYear (y + 2)).
  { unfold DayFromYear, y. Z.to_euclidean_division_equations. lia. }
  destruct (Z.leb_spec (DayFromYear (y + 1)) d) as [H1|H1].
  - split; [exact H1|]. replace (y + 1 + 1) with (y + 2) by lia. lia.
  - destruct (Z.leb_spec (DayFromYear y) d) as [H2|H2].
    + split; [exact H2|exact H1].
    + replace (y - 1 + 1) with y by lia. lia.
Qed.

(** The day of the month is one of 1 to 31. *)
Lemma DateFromTime_range (t : Z) : 1 <= DateFromTime t <= 31.
Proof.
  pose proof (YearFromTime_spec t) as Hy.
  rewrite DayFromYear_next in Hy.
  unfold DateFromTime, MonthFromTime, InLeapYear, DayWithinYear.
  set (d := Day t - DayFromYear (YearFromTime t)) in *.
  assert (Hd : 0 <= d < DaysInYear (YearFromTime t)) by lia.
  unfold DaysInYear in *.
  destruct (_ && _); cbn [Z.eqb Pos.eqb];
    repeat match goal with
    | |- context [if ?c <? ?x then _ else _] => destruct (Z.ltb_spec c x)
    end;
    unfold month_start; cbn; lia.
Qed.

End Calendar.

(* ================================================================== *)
(** * startOf and endOf *)
(* ================================================================== *)

Section WeekBoundaries.
Import JS DateHelper Spec JSFacts.
Local Open Scope string_scope.
Local Open Scope Z_scope.
Variable tza : Z.

Lemma MonthFromTime_range (t : Z) : 0 <= MonthFromTime t <= 11.
Proof.
  unfold MonthFromTime.
  repeat match goal with |- context [if ?c then _ else _] => destruct c end;
    lia.
Qed.

(** Setting the day of the month relative to the current one moves the
    day number by the same amount, whatever the month and the year. *)
Lemma MakeDay_DateFromTime (t k : Z) :
  MakeDay (YearFromTime t) (MonthFromTime t) (DateFromTime t + k) = Day t + k.
Proof.
  pose proof (MonthFromTime_range t) as Hm.
  unfold MakeDay. rewrite Z.div_small, Z.mod_small, Z.add_0_r by lia.
  unfold DateFromTime, DayWithinYear, InLeapYear. lia.
Qed.

Lemma Day_bounds (t : Z) : Day t * msPerDay <= t < Day t * msPerDay + msPerDay.
Proof.
  unfold Day, msPerDay.
  pose proof (Z.div_mod t 86400000 ltac:(lia)).
  pose proof (Z.mod_pos_bound t 86400000 ltac:(lia)). lia.
Qed.

Lemma MakeDate_TimeWithinDay (t k : Z) :
  MakeDate (Day t + k) (TimeWithinDay t) = t + k * msPerDay.
Proof.
  unfold MakeDate, TimeWithinDay, Day, msPerDay.
  pose proof (Z.div_mod t 86400000 ltac:(lia)). lia.
Qed.

Lemma Day_shift (t k : Z) : Day (t + k * msPerDay) = Day t + k.
Proof. unfold Day, msPerDay. apply Z.div_add. lia. Qed.

Lemma WeekDay_range (t : Z) : 0 <= WeekDay t < 7.
Proof. unfold WeekDay. apply Z.mod_pos_bound. lia. Qed.

Lemma finite_arg_Int (z : Z) : finite_arg (Int z) = Some z.
Proof.
  unfold finite_arg, Int, Qtrunc. simpl. now rewrite Z.quot_1_r.
Qed.

Lemma setDate_relative (tv k : Z) :
  setDate (constant_offset tza) (TimeValue tv) (Int (DateFromTime (LocalTime (constant_offset tza) tv) + k))
  = TimeClip (tv + k * msPerDay).
Proof.
  unfold setDate. rewrite finite_arg_Int.
  rewrite MakeDay_DateFromTime, MakeDate_TimeWithinDay.
  unfold UTC, LocalTime. f_equal. lia.
Qed.

Lemma setHours_valid (tv h m s ms : Z) :
  setHours (constant_offset tza) (TimeValue tv) (Int h) (Int m) (Int s) (Int ms)
  = TimeClip (UTC (constant_offset tza) (MakeDate (Day (LocalTime (constant_offset tza) tv)) (MakeTime h m s ms))).
Proof.
  unfold setHours. now rewrite !finite_arg_Int.
Qed.

(** The week branch of [startOf] in closed form. *)
Lemma startOf_week_closed (tv : Z) :
  representable tv ->
  startOf (constant_offset tza) (TimeValue tv) "week"
  = Return (TimeClip (UTC (constant_offset tza) (week_start_local (LocalTime (constant_offset tza) tv)))).
Proof.
  intros Hrep. unfold startOf.
  cbn [getTime isNaN Int getDay getDate].
  change ("week" =? "day")%string with false.
  change ("week" =? "week")%string with true. cbv iota.
  change (Fin (inject_Z ?z)) with (Int z).
  set (t := LocalTime (constant_offset tza) tv).
  pose proof (WeekDay_range t) as Hw.
  rewrite strict_eq_Int.
  assert (Hk : (if WeekDay t =? 0 then Int 6 else sub (Int (WeekDay t)) (Int 1))
               = Int ((WeekDay t + 6) mod 7)).
  { destruct (Z.eqb_spec (WeekDay t) 0) as [E|E].
    - rewrite E. reflexivity.
    - rewrite sub_Int. f_equal.
      replace (WeekDay t + 6) with ((WeekDay t - 1) + 1 * 7) by lia.
      rewrite Z.mod_add, Z.mod_small; lia. }
  rewrite Hk, sub_Int.
  set (k := (WeekDay t + 6) mod 7).
  assert (Hkr : 0 <= k < 7) by (apply Z.mod_pos_bound; lia).
  replace (DateFromTime t - k) with (DateFromTime t + - k) by lia.
  unfold t at 1. rewrite setDate_relative. fold t.
  pose proof (Day_bounds t) as Hd.
  unfold week_start_local. fold k.
  unfold representable in Hrep.
  unfold TimeClip at 1.
  destruct (Z.ltb_spec maxTime (Z.abs (tv + - k * msPerDay))) as [Hout|Hin].
  - cbn [setHours]. unfold TimeClip, UTC.
    destruct (Z.ltb_spec maxTime (Z.abs ((Day t - k) * msPerDay - tza)));
      [reflexivity|].
    exfalso. unfold t, LocalTime, msPerDay, maxTime in *. lia.
  - rewrite setHours_valid. do 3 f_equal.
    unfold LocalTime. fold (LocalTime (constant_offset tza) tv). fold t.
    replace (tv + - k * msPerDay + tza) with (t + - k * msPerDay)
      by (unfold t, LocalTime; lia).
    rewrite Day_shift. unfold MakeDate, MakeTime. lia.
Qed.

(** The week branch of [endOf] in closed form. *)
Lemma endOf_week_closed (tv : Z) :
  representable tv ->
  endOf (constant_offset tza) (TimeValue tv) "week"
  = Return (TimeClip (UTC (constant_offset tza) (week_end_local (LocalTime (constant_offset tza) tv)))).
Proof.
  intros Hrep. unfold endOf.
  cbn [getTime isNaN Int getDay getDate].
  change ("week" =? "day")%string with false.
  change ("week" =? "week")%string with true. cbv iota.
  change (Fin (inject_Z ?z)) with (Int z).
  set (t := LocalTime (constant_offset tza) tv).
  pose proof (WeekDay_range t) as Hw.
  rewrite strict_eq_Int.
  assert (Hk : (if WeekDay t =? 0 then Int 0 else sub (Int 7) (Int (WeekDay t)))
               = Int ((7 - WeekDay t) mod 7)).
  { destruct (Z.eqb_spec (WeekDay t) 0) as [E|E].
    - rewrite E. reflexivity.
    - rewrite sub_Int. f_equal. rewrite Z.mod_small; lia. }
  rewrite Hk, add_Int.
  set (k := (7 - WeekDay t) mod 7).
  assert (Hkr : 0 <= k < 7) by (apply Z.mod_pos_bound; lia).
  unfold t at 1. rewrite setDate_relative. fold t.
  pose proof (Day_bounds t) as Hd.
  unfold week_end_local. fold k.
  unfold representable in Hrep.
  unfold TimeClip at 1.
  destruct (Z.ltb_spec maxTime (Z.abs (tv + k * msPerDay))) as [Hout|Hin].
  - cbn [setHours]. unfold TimeClip, UTC.
    destruct (Z.ltb_spec maxTime
                (Z.abs ((Day t + k) * msPerDay + MakeTime 23 59 59 999 - tza)));
      [reflexivity|].
    exfalso. unfold t, LocalTime, msPerDay, maxTime, MakeTime in *. lia.
  - rewrite setHours_valid. do 3 f_equal.
    replace (LocalTime (constant_offset tza) (tv + k * msPerDay)) with (t + k * msPerDay)
      by (unfold t, LocalTime; lia).
    rewrite Day_shift. unfold MakeDate. lia.
Qed.

Lemma week_start_local_Monday (t : Z) :
  WeekDay (week_start_local t) = 1
  /\ TimeWithinDay (week_start_local t) = 0
  /\ (WeekDay t = 0 -> Day (week_start_local t) = Day t - 6).
Proof.
  unfold week_start_local.
  pose proof (WeekDay_range t) as Hw.
  set (k := (WeekDay t + 6) mod 7).
  assert (Hday : Day ((Day t - k) * msPerDay) = Day t - k).
  { unfold Day at 1. unfold msPerDay. apply Z.div_mul. lia. }
  split; [|split].
  - unfold WeekDay at 1. rewrite Hday.
    unfold k, WeekDay in *. set (d := Day t) in *.
    pose proof (Z.div_mod (d + 4) 7 ltac:(lia)).
    pose proof (Z.div_mod ((d + 4) mod 7 + 6) 7 ltac:(lia)).
    pose proof (Z.mod_pos_bound ((d + 4) mod 7 + 6) 7 ltac:(lia)).
    set (w := (d + 4) mod 7) in *. set (k' := (w + 6) mod 7) in *.
    assert (Hq : (w + 6) / 7 = 0 \/ (w + 6) / 7 = 1) by lia.
    replace (d - k' + 4) with (1 + ((d + 4) / 7 - 1 + (w + 6) / 7) * 7) by lia.
    rewrite Z.mod_add by lia. reflexivity.
  - unfold TimeWithinDay, msPerDay. apply Z.mod_mul. lia.
  - intros E. rewrite Hday. unfold k. rewrite E. reflexivity.
Qed.

Lemma week_end_local_Sunday (t : Z) :
  WeekDay (week_end_local t) = 0
  /\ TimeWithinDay (week_end_local t) = MakeTime 23 59 59 999
  /\ (WeekDay t = 0 -> Day (week_end_local t) = Day t).
Proof.
  unfold week_end_local.
  pose proof (WeekDay_range t) as Hw.
  set (k := (7 - WeekDay t) mod 7).
  assert (Hday : Day ((Day t + k) * msPerDay + MakeTime 23 59 59 999)
                 = Day t + k).
  { unfold Day at 1. unfold msPerDay, MakeTime.
    rewrite Z.add_comm, Z.div_add by lia. reflexivity. }
  split; [|split].
  - unfold WeekDay at 1. rewrite Hday.
    unfold k, WeekDay in *. set (d := Day t) in *.
    pose proof (Z.div_mod (d + 4) 7 ltac:(lia)).
    pose proof (Z.div_mod (7 - (d + 4) mod 7) 7 ltac:(lia)).
    pose proof (Z.mod_pos_bound (7 - (d + 4) mod 7) 7 ltac:(lia)).
    set (w := (d + 4) mod 7) in *. set (k' := (7 - w) mod 7) in *.
    assert (Hq : (7 - w) / 7 = 0 \/ (7 - w) / 7 = 1) by lia.
    replace (d + k' + 4) with (0 + ((d + 4) / 7 + 1 - (7 - w) / 7) * 7) by lia.
    rewrite Z.mod_add by lia. reflexivity.
  - unfold TimeWithinDay, msPerDay, MakeTime.
    rewrite Z.add_comm, Z.mod_add by lia. reflexivity.
  - intros E. rewrite Hday. unfold k. rewrite E.
    change ((7 - 0) mod 7) with 0. lia.
Qed.

Lemma TimeClip_valid (x u : Z) :
  TimeClip x = TimeValue u -> u = x /\ representable x.
Proof.
  unfold TimeClip, representable.
  destruct (Z.ltb_spec maxTime (Z.abs x)) as [Hout|Hin]; [discriminate|].
  intros E. injection E as <-. split; [reflexivity|exact Hin].
Qed.

Lemma TimeClip_invalid (x : Z) :
  TimeClip x = InvalidDate <-> ~ representable x.
Proof.
  unfold TimeClip, representable.
  destruct (Z.ltb_spec maxTime (Z.abs x)); split; intros; try lia;
    try reflexivity; try discriminate.
Qed.

(** In a zone of constant offset every local time exists, and the first
    step of a week branch stays between the date and the boundary: the
    date returned is invalid exactly when the boundary of the week is not
    a representable instant, and otherwise it is the Monday at
    00:00:00.000 (six days back from a Sunday), respectively the Sunday at
    23:59:59.999 (the same day for a Sunday), in local time. *)
Lemma week_boundaries_constant_offset (tv : Z) :
  representable tv ->
  let t := LocalTime (constant_offset tza) tv in
  (exists r, startOf (constant_offset tza) (TimeValue tv) "week" = Return r
     /\ (r = InvalidDate <-> ~ representable (UTC (constant_offset tza) (week_start_local t)))
     /\ (forall u, r = TimeValue u ->
           WeekDay (LocalTime (constant_offset tza) u) = 1
           /\ TimeWithinDay (LocalTime (constant_offset tza) u) = 0
           /\ (WeekDay t = 0 -> Day (LocalTime (constant_offset tza) u) = Day t - 6)))
  /\ (exists r, endOf (constant_offset tza) (TimeValue tv) "week" = Return r
     /\ (r = InvalidDate <-> ~ representable (UTC (constant_offset tza) (week_end_local t)))
     /\ (forall u, r = TimeValue u ->
           WeekDay (LocalTime (constant_offset tza) u) = 0
           /\ TimeWithinDay (LocalTime (constant_offset tza) u) = MakeTime 23 59 59 999
           /\ (WeekDay t = 0 -> Day (LocalTime (constant_offset tza) u) = Day t))).
Proof.
  intros Hrep t. split.
  - eexists. split; [apply startOf_week_closed; exact Hrep|].
    split; [apply TimeClip_invalid|].
    intros u Hu. apply TimeClip_valid in Hu. destruct Hu as [-> _].
    replace (LocalTime (constant_offset tza) (UTC (constant_offset tza) (week_start_local (LocalTime (constant_offset tza) tv))))
      with (week_start_local t) by (unfold t, LocalTime, UTC; lia).
    apply week_start_local_Monday.
  - eexists. split; [apply endOf_week_closed; exact Hrep|].
    split; [apply TimeClip_invalid|].
    intros u Hu. apply TimeClip_valid in Hu. destruct Hu as [-> _].
    replace (LocalTime (constant_offset tza) (UTC (constant_offset tza) (week_end_local (LocalTime (constant_offset tza) tv))))
      with (week_end_local t) by (unfold t, LocalTime, UTC; lia).
    apply week_end_local_Sunday.
Qed.

End WeekBoundaries.

(** ** The week branches in any zone *)

Section WeekBoundariesInZone.
Import JS DateHelper Spec JSFacts.
Local Open Scope string_scope.
Local Open Scope Z_scope.
Variable LocalTZA : Z -> bool -> Z.














End WeekBoundariesInZone.



(* ================================================================== *)
(** * Validators with a country table *)
(* ================================================================== *)

Section CountryTables.
Import JS Regex ValidationHelper Spec.
Local Open Scope string_scope.

Lemma matches_Void (s : string) : matches Void s = false.
Proof. induction s as [|c s IH]; [reflexivity|exact IH]. Qed.

Lemma all_digits_filter (s : string) : all_digits (str_filter is_digit s) = true.
Proof.
  induction s as [|c s IH]; simpl; [reflexivity|].
  destruct (is_digit c) eqn:E; [simpl; now rewrite E|exact IH].
Qed.

Lemma digit_only_seq (r1 r2 : regex) :
  digit_only r1 = true -> digit_only r2 = true -> digit_only (seq r1 r2) = true.
Proof.
  intros H1 H2. destruct r1, r2; cbn [seq]; try reflexivity; try assumption;
    apply andb_true_intro; split; assumption.
Qed.

Lemma digit_only_alt (r1 r2 : regex) :
  digit_only r1 = true -> digit_only r2 = true -> digit_only (alt r1 r2) = true.
Proof.
  intros H1 H2. destruct r1, r2; cbn [alt]; try reflexivity; try assumption;
    apply andb_true_intro; split; assumption.
Qed.

Lemma digit_only_deriv (c : ascii) (r : regex) :
  digit_only r = true -> digit_only (deriv c r) = true.
Proof.
  induction r as [| |ranges|r1 IH1 r2 IH2|r1 IH1 r2 IH2|r1 IH1];
    cbn [deriv]; intros H; try reflexivity.
  - now destruct (in_class ranges c).
  - cbn [digit_only] in H. apply andb_prop in H. destruct H as [H1 H2].
    destruct (nullable r1);
      [apply digit_only_alt|]; try apply digit_only_seq; auto.
  - cbn [digit_only] in H. apply andb_prop in H. destruct H as [H1 H2].
    apply digit_only_alt; auto.
  - cbn [digit_only] in H. apply digit_only_seq; auto.
Qed.

(** A pattern over [\d] alone cannot tell one digit from another. *)
Lemma deriv_digit_only (c : ascii) (r : regex) :
  is_digit c = true -> digit_only r = true -> deriv c r = deriv "0" r.
Proof.
  intros Hc.
  induction r as [| |ranges|r1 IH1 r2 IH2|r1 IH1 r2 IH2|r1 IH1];
    cbn [deriv digit_only]; intros H; try reflexivity.
  - destruct ranges as [|[lo hi] [|]]; try discriminate.
    apply andb_prop in H. destruct H as [Hlo Hhi].
    apply Ascii.eqb_eq in Hlo, Hhi. subst.
    replace (in_class [("0"%char, "9"%char)] c) with true; [reflexivity|].
    symmetry. unfold in_class, in_range. cbn [existsb fst snd].
    rewrite orb_false_r. exact Hc.
  - apply andb_prop in H. destruct H as [H1 H2].
    now rewrite IH1, IH2.
  - apply andb_prop in H. destruct H as [H1 H2].
    now rewrite IH1, IH2.
  - now rewrite IH1.
Qed.

Lemma matches_digits (s : string) :
  all_digits s = true ->
  forall r, digit_only r = true ->
  matches r s = matches r (zeros (String.length s)).
Proof.
  induction s as [|c s IH]; intros Hs r Hr; [reflexivity|].
  cbn [all_digits] in Hs. apply andb_prop in Hs. destruct Hs as [Hc Hs].
  cbn [matches String.length zeros].
  rewrite (deriv_digit_only c r Hc Hr).
  apply IH; [exact Hs|]. now apply digit_only_deriv.
Qed.

(** The generic pattern accepts the digit strings of 7 to 15 characters. *)
Lemma generic_phone_digits (s : string) :
  all_digits s = true ->
  test generic_phone s
  = ((7 <=? String.length s)%nat && (String.length s <=? 15)%nat).
Proof.
  intros Hs. unfold test, generic_phone.
  rewrite (matches_digits s Hs) by reflexivity.
  generalize (String.length s) as n. intros n.
  do 16 (destruct n as [|n]; [reflexivity|]).
  cbn [zeros matches].
  match goal with |- matches ?r _ = _ =>
    let r' := eval vm_compute in r in change r with r' end.
  rewrite matches_Void. reflexivity.
Qed.

Lemma wide_eqb_eq (s1 s2 : wide_string) : wide_eqb s1 s2 = true <-> s1 = s2.
Proof.
  revert s2. induction s1 as [|u1 rest1 IH]; intros [|u2 rest2];
    cbn [wide_eqb]; try (split; [reflexivity|reflexivity]);
    try (split; discriminate).
  rewrite andb_true_iff, N.eqb_eq, IH. split.
  - intros [-> ->]. reflexivity.
  - intros E. injection E as -> ->. split; reflexivity.
Qed.

(** Reading a table with a key finds nothing exactly when the key is none
    of its property names. *)
Lemma get_None_iff {V : Type} (o : object V) (key : wide_string) :
  get o key = None <-> ~ In key (keys o).
Proof.
  unfold keys. induction o as [|[k v] rest IH]; cbn [get map In fst].
  - tauto.
  - destruct (wide_eqb (widen k) key) eqn:E.
    + apply wide_eqb_eq in E. split; [discriminate|].
      intros H. exfalso. apply H. now left.
    + rewrite IH. split.
      * intros H [H1|H1]; [|exact (H H1)].
        apply wide_eqb_eq in H1. congruence.
      * intros H H1. apply H. now right.
Qed.

(** C9, as the code has it, whatever the host's [toUpperCase] does: with
    a country code whose upper-case form is none of the keys of its table
    [isValidPostalCode] answers [false]; [isValidPhone] answers what it
    answers without a country, the generic check: the number has 7 to 15
    digits. *)
Theorem unknown_country_code (toUpperCase : wide_string -> wide_string) :
  (forall postalCode country,
      ~ In (toUpperCase country) (keys postal_patterns) ->
      isValidPostalCode toUpperCase postalCode country = false)
  /\ (forall phone country,
      ~ In (toUpperCase country) (keys phone_patterns) ->
      isValidPhone toUpperCase phone (Some country)
      = isValidPhone toUpperCase phone None)
  /\ (forall phone,
      let digits := str_filter is_digit phone in
      isValidPhone toUpperCase phone None
      = ((7 <=? String.length digits)%nat && (String.length digits <=? 15)%nat)).
Proof.
  split; [|split].
  - intros postalCode country H. apply get_None_iff in H.
    unfold isValidPostalCode. now rewrite H.
  - intros phone country H. apply get_None_iff in H.
    unfold isValidPhone. rewrite H. now destruct (truthy country).
  - intros phone digits. unfold isValidPhone. fold digits.
    apply generic_phone_digits. apply all_digits_filter.
Qed.

End CountryTables.

(** C9 fails for both validators.  For [isValidPhone], ZZ is in no table
    and a seven-digit number is accepted with it.  For
    [isValidPostalCode], the code made of u and the long s (U+017F) is in
    no table, in either case of its letters, but its upper-case form is
    US: five digits are accepted with it. *)
Lemma unknown_country_accepted :
  (~ In (Spec.unicode_upper (JS.widen "ZZ"))
        (Spec.keys ValidationHelper.phone_patterns)
   /\ ValidationHelper.isValidPhone Spec.unicode_upper "1234567"
        (Some (JS.widen "ZZ")) = true)
  /\ (~ In [117; 383]%N (Spec.keys ValidationHelper.postal_patterns)
      /\ ~ In [85; 383]%N (Spec.keys ValidationHelper.postal_patterns)
      /\ Spec.unicode_upper [117; 383]%N = JS.widen "US"
      /\ ValidationHelper.isValidPostalCode Spec.unicode_upper "12345"
           [117; 383]%N = true).
Proof.
  split.
  - split; [|reflexivity].
    apply get_None_iff. reflexivity.
  - split; [apply get_None_iff; reflexivity|].
    split; [apply get_None_iff; reflexivity|].
    split; reflexivity.
Qed.

Lemma unknown_country_code_witness :
  ValidationHelper.isValidPostalCode Spec.unicode_upper "12345"
    (JS.widen "zz") = false
  /\ ValidationHelper.isValidPhone Spec.unicode_upper "1234567"
       (Some (JS.widen "xx"))
     = ValidationHelper.isValidPhone Spec.unicode_upper "1234567" None.
Proof.
  split.
  - apply (proj1 (unknown_country_code Spec.unicode_upper)
             "12345"%string (JS.widen "zz")).
    apply get_None_iff. reflexivity.
  - apply (proj1 (proj2 (unknown_country_code Spec.unicode_upper))
             "1234567"%string (JS.widen "xx")).
    apply get_None_iff. reflexivity.
Defined.

(* ================================================================== *)
(** * isValidCreditCard *)
(* ================================================================== *)

Section CreditCard.
Import JS Regex ValidationHelper Spec.
Local Open Scope string_scope.

(** [detect_type] returns the first entry whose pattern matches. *)
Lemma detect_type_first (entries : object pattern) (digits cardType : string) :
  detect_type entries digits = Some cardType <->
  exists before pattern after,
    entries = (before ++ (cardType, pattern) :: after)%list
    /\ test pattern digits = true
    /\ Forall (fun e => test (snd e) digits = false) before.
Proof.
  induction entries as [|[k p] rest IH]; simpl.
  - split; [discriminate|]. intros (before & q & after & E & _).
    destruct before; discriminate.
  - destruct (test p digits) eqn:Hp.
    + split.
      * intros E. injection E as <-. exists [], p, rest. auto.
      * intros (before & q & after & E & Hq & Hb).
        destruct before as [|[k' p'] before]; simpl in E.
        -- now injection E as -> _ _.
        -- injection E as -> -> _. inversion Hb; subst. simpl in *. congruence.
    + rewrite IH. split.
      * intros (before & q & after & -> & Hq & Hb).
        exists ((k, p) :: before), q, after. repeat split; auto.
      * intros (before & q & after & E & Hq & Hb).
        destruct before as [|[k' p'] before]; simpl in E.
        -- injection E as -> -> _. congruence.
        -- injection E as -> -> ->. inversion Hb; subst.
           exists before, q, after. auto.
Qed.

Lemma detect_type_none (entries : object pattern) (digits : string) :
  detect_type entries digits = None <->
  Forall (fun e => test (snd e) digits = false) entries.
Proof.
  induction entries as [|[k p] rest IH]; simpl.
  - split; auto.
  - destruct (test p digits) eqn:Hp.
    + split; [discriminate|]. intros H. inversion H; subst. simpl in *.
      congruence.
    + rewrite IH. split; [auto|]. intros H. now inversion H.
Qed.

Lemma matches_Star_any (s : string) : matches (Star any) s = true.
Proof.
  induction s as [|c s IH]; [reflexivity|].
  cbn [matches deriv any]. unfold in_class, in_range. cbn [existsb fst snd].
  pose proof (nat_ascii_bounded c) as Hc.
  assert (E : ((nat_of_ascii "000" <=? nat_of_ascii c)%nat
               && (nat_of_ascii c <=? nat_of_ascii "255")%nat || false) = true).
  { change (nat_of_ascii "000") with 0%nat.
    change (nat_of_ascii "255") with 255%nat.
    rewrite orb_false_r. apply andb_true_intro.
    split; apply Nat.leb_le; lia. }
  rewrite E. exact IH.
Qed.

Lemma settled_matches (r : regex) (s : string) :
  settled r = true -> matches r s = accepting r.
Proof.
  destruct r as [| |ranges|r1 r2|r1 r2|r1]; try discriminate.
  - intros _. apply matches_Void.
  - destruct r1 as [| |[|[lo hi] [|]]| | |]; try discriminate.
    intros H. apply andb_prop in H. destruct H as [Hlo Hhi].
    apply Nat.eqb_eq in Hlo, Hhi.
    assert (Elo : lo = "000"%char)
      by (rewrite <- (ascii_nat_embedding lo), Hlo; reflexivity).
    assert (Ehi : hi = "255"%char)
      by (rewrite <- (ascii_nat_embedding hi), Hhi; reflexivity).
    subst. apply matches_Star_any.
Qed.

Lemma is_digit_chars (c : ascii) : is_digit c = true -> In c digit_chars.
Proof.
  destruct c as [[] [] [] [] [] [] [] []]; intros H; try discriminate H;
    simpl; tauto.
Qed.

(** After four digits every card pattern has settled. *)
Lemma card_patterns_settle :
  forallb (fun e =>
    forallb (fun a => forallb (fun b => forallb (fun c => forallb (fun d =>
      settled (after_four (snd e) a b c d))
      digit_chars) digit_chars) digit_chars) digit_chars)
    card_patterns = true.
Proof. vm_compute. reflexivity. Qed.

Lemma test_after_four (p : pattern) (a b c d : ascii) (rest : string) :
  test p (String a (String b (String c (String d rest))))
  = matches (after_four p a b c d) rest.
Proof. destruct p; reflexivity. Qed.

(** On digit strings of four characters or more, the type found depends
    on the first four only. *)
Lemma detect_type_first_four (d1 d2 : string) :
  all_digits d1 = true -> all_digits d2 = true ->
  (4 <= String.length d1)%nat -> (4 <= String.length d2)%nat ->
  first_four d1 = first_four d2 ->
  detect_type card_patterns d1 = detect_type card_patterns d2.
Proof.
  intros H1 H2 L1 L2 E.
  destruct d1 as [|a1 [|b1 [|c1 [|e1 r1]]]]; simpl in L1; try lia.
  destruct d2 as [|a2 [|b2 [|c2 [|e2 r2]]]]; simpl in L2; try lia.
  unfold first_four in E. simpl in E. injection E as -> -> -> ->.
  cbn [all_digits] in H2.
  apply andb_prop in H2; destruct H2 as [Da H2].
  apply andb_prop in H2; destruct H2 as [Db H2].
  apply andb_prop in H2; destruct H2 as [Dc H2].
  apply andb_prop in H2; destruct H2 as [De H2].
  assert (Hall : forall e, In e card_patterns ->
            test (snd e) (String a2 (String b2 (String c2 (String e2 r1))))
            = test (snd e) (String a2 (String b2 (String c2 (String e2 r2))))).
  { intros e He. rewrite !test_after_four.
    pose proof card_patterns_settle as Hs.
    rewrite forallb_forall in Hs. specialize (Hs e He).
    rewrite forallb_forall in Hs. specialize (Hs a2 (is_digit_chars a2 Da)).
    rewrite forallb_forall in Hs. specialize (Hs b2 (is_digit_chars b2 Db)).
    rewrite forallb_forall in Hs. specialize (Hs c2 (is_digit_chars c2 Dc)).
    rewrite forallb_forall in Hs. specialize (Hs e2 (is_digit_chars e2 De)).
    now rewrite !(settled_matches _ _ Hs). }
  revert Hall. generalize card_patterns as entries.
  induction entries as [|[k p] rest IH]; intros Hall; [reflexivity|].
  cbn [detect_type].
  pose proof (Hall (k, p) (or_introl eq_refl)) as Hk. cbn [snd] in Hk.
  rewrite Hk. clear Hk.
  destruct (test p (String a2 (String b2 (String c2 (String e2 r2)))));
    [reflexivity|].
  apply IH. intros e He. apply Hall. now right.
Qed.

(** C5: the two sample numbers; the answer outside 13 to 19 digits; and,
    inside, the type reported is the first match of the table in its
    order, a function of the digits alone, whatever the checksum says:
    two numbers that start with the same four digits get the same type. *)
Theorem isValidCreditCard_classification :
  isValidCreditCard "4111111111111111"
  = {| valid := true; type := Some "visa" |}
  /\ isValidCreditCard "4111111111111112"
     = {| valid := false; type := Some "visa" |}
  /\ (forall cardNumber,
        let n := String.length (str_filter is_digit cardNumber) in
        (n < 13 \/ 19 < n)%nat ->
        isValidCreditCard cardNumber = {| valid := false; type := None |})
  /\ map fst card_patterns
     = ["visa"; "mastercard"; "amex"; "discover"; "diners"; "jcb"]
  /\ (forall cardNumber,
        let digits := str_filter is_digit cardNumber in
        (13 <= String.length digits <= 19)%nat ->
        type (isValidCreditCard cardNumber) = detect_type card_patterns digits
        /\ (forall cardType,
              type (isValidCreditCard cardNumber) = Some cardType <->
              exists before pattern after,
                card_patterns = (before ++ (cardType, pattern) :: after)%list
                /\ test pattern digits = true
                /\ Forall (fun e => test (snd e) digits = false) before)
        /\ (type (isValidCreditCard cardNumber) = None <->
              Forall (fun e => test (snd e) digits = false) card_patterns))
  /\ (forall number1 number2,
        let digits1 := str_filter is_digit number1 in
        let digits2 := str_filter is_digit number2 in
        (13 <= String.length digits1 <= 19)%nat ->
        (13 <= String.length digits2 <= 19)%nat ->
        first_four digits1 = first_four digits2 ->
        type (isValidCreditCard number1) = type (isValidCreditCard number2)).
Proof.
  assert (Htype : forall cardNumber,
            (13 <= String.length (str_filter is_digit cardNumber) <= 19)%nat ->
            type (isValidCreditCard cardNumber)
            = detect_type card_patterns (str_filter is_digit cardNumber)).
  { intros cardNumber Hlen. unfold isValidCreditCard.
    destruct (Nat.ltb_spec (String.length (str_filter is_digit cardNumber)) 13);
      [lia|].
    destruct (Nat.ltb_spec 19 (String.length (str_filter is_digit cardNumber)));
      [lia|].
    reflexivity. }
  split; [reflexivity|]. split; [reflexivity|].
  split; [|split; [reflexivity|split]].
  - intros cardNumber n Hn. unfold isValidCreditCard. fold n.
    destruct (Nat.ltb_spec n 13); [reflexivity|].
    destruct (Nat.ltb_spec 19 n); [reflexivity|]. lia.
  - intros cardNumber digits Hlen.
    rewrite (Htype cardNumber Hlen). fold digits.
    split; [reflexivity|]. split.
    + intros cardType. apply detect_type_first.
    + apply detect_type_none.
  - intros number1 number2 digits1 digits2 L1 L2 E.
    rewrite (Htype number1 L1), (Htype number2 L2).
    apply detect_type_first_four; try apply all_digits_filter;
      try (fold digits1; lia); try (fold digits2; lia). exact E.
Qed.

End CreditCard.

Lemma isValidCreditCard_classification_witness :
  ValidationHelper.isValidCreditCard "1234"
  = {| ValidationHelper.valid := false; ValidationHelper.type := None |}
  /\ ValidationHelper.type (ValidationHelper.isValidCreditCard "3530111333300001")
     = Some "jcb"%string.
Proof.
  split.
  - apply (proj1 (proj2 (proj2 isValidCreditCard_classification)) "1234"%string).
    left. simpl. lia.
  - exact (proj1 (proj1 (proj2 (proj2 (proj2 (proj2
                    isValidCreditCard_classification))))
                    "3530111333300001"%string
                    ltac:(simpl; lia))).
Defined.

(* ================================================================== *)
(** * isValidISBN *)
(* ================================================================== *)

Section ISBN10.
Import JS ValidationHelper Spec JSFacts.
Local Open Scope string_scope.
Local Open Scope Z_scope.

Lemma is_digit_keep (c : ascii) : is_digit c = true -> isbn_keep c = true.
Proof.
  destruct c as [[] [] [] [] [] [] [] []]; intros H;
    try discriminate H; reflexivity.
Qed.

Lemma is_digit_value (c : ascii) :
  is_digit c = true -> 0 <= digit_value c <= 9.
Proof.
  destruct c as [[] [] [] [] [] [] [] []]; intros H;
    try discriminate H; split; discriminate.
Qed.

Lemma digit_value_inj (c c' : ascii) :
  digit_value c = digit_value c' -> c = c'.
Proof.
  unfold digit_value. intros H.
  assert (E : nat_of_ascii c = nat_of_ascii c') by lia.
  rewrite <- (ascii_nat_embedding c), <- (ascii_nat_embedding c').
  now rewrite E.
Qed.

Lemma str_filter_app (keep : ascii -> bool) (a b : string) :
  str_filter keep (a ++ b) = str_filter keep a ++ str_filter keep b.
Proof.
  induction a as [|c a IH]; simpl; [reflexivity|].
  destruct (keep c); simpl; now rewrite IH.
Qed.

Lemma str_filter_digits (body : string) :
  all_digits body = true -> str_filter isbn_keep body = body.
Proof.
  induction body as [|c body IH]; simpl; [reflexivity|].
  intros H. apply andb_prop in H. destruct H as [Hc Hb].
  rewrite (is_digit_keep c Hc). now rewrite IH.
Qed.

Lemma length_append (a b : string) :
  String.length (a ++ b) = (String.length a + String.length b)%nat.
Proof. induction a as [|c a IH]; simpl; [reflexivity|now rewrite IH]. Qed.

Lemma char_at_digit (body : string) :
  all_digits body = true ->
  forall i : nat, (i < String.length body)%nat ->
  exists c, char_at body i = Some c /\ is_digit c = true.
Proof.
  unfold char_at.
  induction body as [|c body IH]; simpl; intros H i Hi; [lia|].
  apply andb_prop in H. destruct H as [Hc Hb].
  destruct i as [|i]; [eauto|]. apply IH; [exact Hb|lia].
Qed.

Lemma char_at_app (body tail : string) (i : nat) :
  (i < String.length body)%nat -> char_at (body ++ tail) i = char_at body i.
Proof.
  intros Hi. unfold char_at. symmetry. now apply String.append_correct1.
Qed.

Lemma char_at_last (body : string) (c : ascii) :
  char_at (body ++ String c EmptyString) (String.length body) = Some c.
Proof.
  unfold char_at. induction body as [|b body IH]; simpl; [reflexivity|exact IH].
Qed.

(** Over nine digits the weighted sum is an integer, the same whatever
    follows the digits. *)
Lemma weighted_sum_digits (body : string) :
  all_digits body = true ->
  forall n, (n <= String.length body)%nat ->
  exists total, forall tail,
    weighted_sum isbn10_weight (body ++ tail) n = Int total.
Proof.
  intros Hd. induction n as [|i IH]; intros Hn.
  - exists 0. reflexivity.
  - destruct IH as [total Ht]; [lia|].
    destruct (char_at_digit body Hd i ltac:(lia)) as (c & Hc & Hdig).
    exists (total + digit_value c * (10 - Z.of_nat i)).
    intros tail. cbn [weighted_sum].
    rewrite Ht, char_at_app, Hc by lia.
    unfold parseInt_char. rewrite Hdig.
    unfold isbn10_weight. rewrite sub_Int, mul_Int, add_Int. reflexivity.
Qed.

(** [isValidISBN] on nine digits followed by one more character. *)
Lemma isValidISBN_ten (body : string) (x : ascii) :
  String.length body = 9%nat -> all_digits body = true ->
  isbn_keep x = true ->
  isValidISBN (body ++ String x EmptyString)
  = {| valid :=
         strict_eq
           (rem (add (weighted_sum isbn10_weight
                        (body ++ String x EmptyString) 9)
                     (if Ascii.eqb x "X" then Int 10
                      else if is_digit x then Int (digit_value x) else NaN))
                (Int 11))
           (Int 0);
       type := Some "ISBN-10" |}.
Proof.
  intros Hlen Hd Hkeep.
  assert (Hlast : char_at (body ++ String x EmptyString) 9 = Some x)
    by (rewrite <- Hlen; apply char_at_last).
  unfold isValidISBN.
  rewrite str_filter_app, (str_filter_digits body Hd).
  cbn [str_filter]. rewrite Hkeep.
  rewrite length_append, Hlen. cbn [String.length Nat.add Nat.eqb].
  rewrite Hlast. reflexivity.
Qed.

Lemma isValidISBN_nine (body : string) (x : ascii) :
  String.length body = 9%nat -> all_digits body = true ->
  isbn_keep x = false ->
  isValidISBN (body ++ String x EmptyString)
  = {| valid := false; type := None |}.
Proof.
  intros Hlen Hd Hkeep. unfold isValidISBN.
  rewrite str_filter_app, (str_filter_digits body Hd).
  cbn [str_filter]. rewrite Hkeep.
  rewrite length_append, Hlen. reflexivity.
Qed.

(** The value a digit or [X] stands for as a check character. *)
Lemma check_value (c : ascii) :
  is_digit c = true \/ c = "X"%char ->
  exists v, 0 <= v <= 10
    /\ (if Ascii.eqb c "X" then Int 10
        else if is_digit c then Int (digit_value c) else NaN) = Int v
    /\ (c = "X"%char -> v = 10)
    /\ (c <> "X"%char -> v = digit_value c /\ v <= 9).
Proof.
  intros Hc. destruct (Ascii.eqb_spec c "X") as [->|Hx].
  - exists 10. split; [lia|]. split; [reflexivity|].
    split; [reflexivity|]. intros Hne. now contradiction Hne.
  - destruct Hc as [Hc|Hc]; [|contradiction].
    rewrite Hc. pose proof (is_digit_value c Hc) as Hrange.
    exists (digit_value c). split; [lia|]. split; [reflexivity|].
    split; [intros E; contradiction|]. intros _. lia.
Qed.

(** C6: a valid ISBN-10 made of nine digits and a check character stops
    being valid when the check character is replaced by any other
    character. *)
Theorem isbn10_check_digit_detects_change (body : string) (c c' : ascii) :
  isbn10_form body c ->
  c' <> c ->
  valid (isValidISBN (body ++ String c EmptyString)) = true ->
  valid (isValidISBN (body ++ String c' EmptyString)) = false.
Proof.
  intros (Hlen & Hd & Hc) Hneq.
  destruct (weighted_sum_digits body Hd 9 ltac:(lia)) as [total Ht].
  assert (Hkeep : isbn_keep c = true).
  { destruct Hc as [Hc| ->]; [now apply is_digit_keep|reflexivity]. }
  rewrite (isValidISBN_ten body c Hlen Hd Hkeep). cbn [valid]. rewrite Ht.
  destruct (check_value c Hc) as (v & Hv & Ev & HvX & Hvd). rewrite Ev.
  rewrite add_Int, rem_Int, strict_eq_Int by lia.
  intros Hvalid. apply Z.eqb_eq in Hvalid.
  pose proof (Z.quot_rem' (total + v) 11) as Hq.
  destruct (isbn_keep c') eqn:Hkeep';
    [|now rewrite (isValidISBN_nine body c' Hlen Hd Hkeep')].
  rewrite (isValidISBN_ten body c' Hlen Hd Hkeep'). cbn [valid]. rewrite Ht.
  destruct (Ascii.eqb_spec c' "X") as [->|Hx'].
  - rewrite add_Int, rem_Int, strict_eq_Int by lia.
    apply Z.eqb_neq. intros Hr.
    pose proof (Z.quot_rem' (total + 10) 11) as Hq'.
    destruct (Hvd (fun E => Hneq (eq_sym E))). lia.
  - destruct (is_digit c') eqn:Hdig'; [|reflexivity].
    rewrite add_Int, rem_Int, strict_eq_Int by lia.
    apply Z.eqb_neq. intros Hr.
    pose proof (Z.quot_rem' (total + digit_value c') 11) as Hq'.
    pose proof (is_digit_value c' Hdig').
    destruct (Ascii.eqb_spec c "X") as [Hx|Hx].
    + rewrite (HvX Hx) in *. lia.
    + destruct (Hvd Hx) as [Ev' _].
      assert (digit_value c' <> digit_value c)
        by (intros E; apply Hneq; now apply digit_value_inj).
      lia.
Qed.

End ISBN10.

Lemma isbn10_check_digit_detects_change_witness :
  ValidationHelper.valid (ValidationHelper.isValidISBN "0306406153") = false.
Proof.
  exact (isbn10_check_digit_detects_change "030640615" "2" "3"
           (conj eq_refl (conj eq_refl (or_introl eq_refl)))
           ltac:(discriminate) eq_refl).
Defined.

(* ================================================================== *)
(** * chunk *)
(* ================================================================== *)

Section Chunk.
Import JS ArrayHelper Spec.
Local Open Scope Z_scope.
Context {A : Type}.

Lemma chunk_loop_continue (arr : list A) (size : Z) (Hsize : 0 < size)
    (i : Z) (chunks : list (list A)) :
  i < Z.of_nat (List.length arr) ->
  chunk_loop arr size Hsize i chunks
  = chunk_loop arr size Hsize (i + size) (chunks ++ [slice arr i (i + size)]).
Proof.
  intros Hi. rewrite chunk_loop_equation_1.
  destruct (Z_lt_dec i (Z.of_nat (List.length arr))); [|contradiction].
  apply chunk_loop_clause_1_equation_1.
Qed.

Lemma chunk_loop_done (arr : list A) (size : Z) (Hsize : 0 < size)
    (i : Z) (chunks : list (list A)) :
  Z.of_nat (List.length arr) <= i ->
  chunk_loop arr size Hsize i chunks = chunks.
Proof.
  intros Hi. rewrite chunk_loop_equation_1.
  destruct (Z_lt_dec i (Z.of_nat (List.length arr))); [lia|reflexivity].
Qed.

(** A slice taken inside the array, as a cut of what follows [i]. *)
Lemma slice_inside (arr : list A) (i size : Z) :
  0 <= i -> 0 < size ->
  slice arr i (i + size)
  = firstn (Z.to_nat size) (skipn (Z.to_nat i) arr).
Proof.
  intros Hi Hs. unfold slice.
  destruct (Z.ltb_spec i 0); [lia|].
  destruct (Z.ltb_spec (i + size) 0); [lia|].
  set (len := Z.of_nat (List.length arr)).
  destruct (Z.le_ge_cases (i + size) len) as [Hle|Hge].
  - rewrite !Z.min_l by lia. do 2 f_equal. lia.
  - destruct (Z.le_ge_cases i len) as [Hile|Hige].
    + rewrite (Z.min_l i len), (Z.min_r (i + size) len) by lia.
      rewrite !firstn_all2; [reflexivity| |];
        rewrite length_skipn; unfold len in *; lia.
    + rewrite !Z.min_r by lia.
      rewrite !skipn_all2 by (unfold len in *; lia).
      now rewrite !firstn_nil.
Qed.

Lemma slice_then_rest (arr : list A) (i size : Z) :
  0 <= i -> 0 < size ->
  slice arr i (i + size) ++ skipn (Z.to_nat (i + size)) arr
  = skipn (Z.to_nat i) arr.
Proof.
  intros Hi Hs. rewrite slice_inside by lia.
  replace (Z.to_nat (i + size)) with (Z.to_nat size + Z.to_nat i)%nat by lia.
  rewrite <- skipn_skipn. apply firstn_skipn.
Qed.

Lemma slice_length (arr : list A) (i size : Z) :
  0 <= i < Z.of_nat (List.length arr) -> 0 < size ->
  Z.of_nat (List.length (slice arr i (i + size)))
  = Z.min size (Z.of_nat (List.length arr) - i).
Proof.
  intros Hi Hs. rewrite slice_inside by lia.
  rewrite length_firstn, length_skipn. lia.
Qed.

(** The loop appends to [chunks] what is left of the array from [i] on. *)
Lemma chunk_loop_concat (arr : list A) (size : Z) (Hsize : 0 < size)
    (i : Z) (chunks : list (list A)) :
  0 <= i ->
  List.concat (chunk_loop arr size Hsize i chunks)
  = (List.concat chunks ++ skipn (Z.to_nat i) arr)%list.
Proof.
  funelim (chunk_loop arr size Hsize i chunks); intros Hi.
  - match goal with IH : _ -> List.concat _ = _ |- _ => rewrite IH by lia end.
    rewrite concat_app. simpl List.concat. rewrite app_nil_r, <- app_assoc.
    now rewrite slice_then_rest by lia.
  - rewrite skipn_all2 by lia. now rewrite app_nil_r.
Qed.

Lemma well_chunked_full (size : Z) (chunks : list (list A)) :
  0 < size ->
  Forall (fun c => Z.of_nat (List.length c) = size) chunks ->
  well_chunked size chunks.
Proof.
  intros Hs. induction 1 as [|c rest Hc Hrest IH]; simpl; [exact I|].
  destruct rest; [lia|]. split; assumption.
Qed.

Lemma well_chunked_snoc (size : Z) (chunks : list (list A)) (last : list A) :
  Forall (fun c => Z.of_nat (List.length c) = size) chunks ->
  1 <= Z.of_nat (List.length last) <= size ->
  well_chunked size (chunks ++ [last]).
Proof.
  intros Hf Hl. induction Hf as [|c rest Hc Hrest IH]; simpl; [exact Hl|].
  destruct rest; simpl in *; split; assumption.
Qed.

(** Started with full chunks only, the loop ends with full chunks and a
    last one that may be shorter. *)
Lemma chunk_loop_well_chunked (arr : list A) (size : Z) (Hsize : 0 < size)
    (i : Z) (chunks : list (list A)) :
  0 <= i ->
  Forall (fun c => Z.of_nat (List.length c) = size) chunks ->
  well_chunked size (chunk_loop arr size Hsize i chunks).
Proof.
  funelim (chunk_loop arr size Hsize i chunks); intros Hi Hfull.
  - pose proof (slice_length arr i size ltac:(lia) Hsize) as Hlen.
    destruct (Z.le_ge_cases size (Z.of_nat (List.length arr) - i)) as [Hle|Hge].
    + match goal with IH : _ -> _ -> well_chunked _ _ |- _ => apply IH end;
        [lia|].
      apply Forall_app. split; [exact Hfull|].
      constructor; [lia|constructor].
    + rewrite chunk_loop_done by lia.
      apply well_chunked_snoc; [exact Hfull|lia].
  - now apply well_chunked_full.
Qed.

(** C10: for a positive integer size [chunk] returns; the chunks put end
    to end give back the array; all are of length [size] but possibly the
    last, which has between 1 and [size] elements; and the empty array
    has no chunks. *)
Theorem chunk_partitions (arr : list A) (size : Z) :
  0 < size ->
  exists chunks,
    chunk arr size = Return chunks
    /\ List.concat chunks = arr
    /\ well_chunked size chunks
    /\ (arr = [] -> chunks = []).
Proof.
  intros Hsize. unfold chunk.
  destruct (Z_lt_dec 0 size) as [H|H]; [|contradiction].
  eexists. split; [reflexivity|]. split; [|split].
  - now rewrite chunk_loop_concat by lia.
  - apply chunk_loop_well_chunked; [lia|constructor].
  - intros ->. now rewrite chunk_loop_done by (simpl; lia).
Qed.

End Chunk.

Lemma chunk_partitions_witness :
  exists chunks,
    ArrayHelper.chunk [1; 2; 3; 4; 5; 6; 7; 8; 9; 10] 3 = JS.Return chunks
    /\ List.concat chunks = [1; 2; 3; 4; 5; 6; 7; 8; 9; 10]
    /\ Spec.well_chunked 3 chunks
    /\ ([1; 2; 3; 4; 5; 6; 7; 8; 9; 10] = [] -> chunks = []).
Proof.
  exact (chunk_partitions [1; 2; 3; 4; 5; 6; 7; 8; 9; 10] 3 ltac:(lia)).
Defined.

(* ================================================================== *)
(** * More on formatDuration *)
(* ================================================================== *)

Section DurationTotals.
Import JS DateHelper Spec JSFacts.
Local Open Scope string_scope.
Local Open Scope Z_scope.
Variable host : Host.

Lemma terms_total_snoc (terms : list (number * time_unit)) (c : number)
    (u : time_unit) :
  terms_total (terms ++ [(c, u)])
  = add (terms_total terms) (mul c (unit_seconds u)).
Proof. unfold terms_total. now rewrite fold_left_app. Qed.

Lemma timeUnits_positive (o : duration_options) :
  Forall (fun u => exists s, unit_seconds u = Int s /\ 0 < s) (timeUnits o).
Proof.
  unfold timeUnits.
  repeat (constructor; [eexists; split; [reflexivity|cbn [unit_seconds]; lia]|]).
  constructor.
Qed.

Lemma timeUnits_ends_with_second (o : duration_options) :
  includeSeconds o = true -> ends_with_second (timeUnits o).
Proof. intros H. simpl. now split. Qed.

(** One pass of the loop over a whole number of seconds: what the terms
    stand for grows by at most what was remaining. *)
Lemma duration_terms_bounded (o : duration_options) (tus : list time_unit) :
  Forall (fun u => exists s, unit_seconds u = Int s /\ 0 < s) tus ->
  forall r terms total,
    0 <= r -> terms_total terms = Int total ->
    exists T, terms_total (duration_terms o tus (Int r) terms) = Int T
              /\ total <= T <= total + r.
Proof.
  induction 1 as [|u rest (s & Hs & Hpos) Hrest IH];
    intros r terms total Hr Htot; cbn [duration_terms].
  - exists total. split; [exact Htot|lia].
  - rewrite Hs, lt_Int.
    destruct (negb (enabled u)); cbn [orb]; [now apply IH|].
    destruct (Z.ltb_spec r s) as [Hlt|Hge]; [now apply IH|].
    rewrite floor_div_Int, rem_Int by lia.
    unfold gt. rewrite lt_Int.
    assert (Hc : 1 <= r / s) by (apply Z.div_le_lower_bound; lia).
    destruct (Z.ltb_spec 0 (r / s)) as [_|Hbad]; [|lia].
    rewrite Z.rem_mod_nonneg by lia.
    pose proof (Z.div_mod r s ltac:(lia)) as Hdm.
    pose proof (Z.mod_pos_bound r s Hpos) as Hmod.
    assert (Htot' : terms_total (terms ++ [(Int (r / s), u)])
                    = Int (total + r / s * s)).
    { rewrite terms_total_snoc, Htot, Hs, mul_Int, add_Int. reflexivity. }
    destruct (ge _ (maxUnits o)).
    + eexists. split; [exact Htot'|]. nia.
    + destruct (IH (r mod s) _ _ ltac:(lia) Htot') as (T & HT & Hb).
      exists T. split; [exact HT|]. nia.
Qed.

(** The same pass when nothing stops it before the one-second unit: the
    terms stand for all that was remaining. *)
Lemma duration_terms_exact (o : duration_options) (tus : list time_unit) :
  (forall n : nat, Z.of_nat n < 7 -> ge (Int (Z.of_nat n)) (maxUnits o) = false) ->
  Forall (fun u => exists s, unit_seconds u = Int s /\ 0 < s) tus ->
  forall r terms total,
    0 <= r -> terms_total terms = Int total ->
    (List.length terms + List.length tus <= 7)%nat ->
    (tus = [] -> r = 0) -> (tus <> [] -> ends_with_second tus) ->
    terms_total (duration_terms o tus (Int r) terms) = Int (total + r).
Proof.
  intros Hmax.
  induction 1 as [|u rest (s & Hs & Hpos) Hrest IH];
    intros r terms total Hr Htot Hlen Hnil Hend; cbn [duration_terms].
  - rewrite (Hnil eq_refl), Z.add_0_r. exact Htot.
  - specialize (Hend ltac:(discriminate)). cbn [List.length] in Hlen.
    assert (Hlast : rest = [] -> s = 1 /\ enabled u = true).
    { intros ->. cbn in Hend. destruct Hend as [E1 E2]. rewrite Hs in E1.
      split; [|exact E2]. unfold Int in E1. injection E1. lia. }
    assert (Hend' : rest <> [] -> ends_with_second rest).
    { intros Hne. destruct rest; [contradiction|exact Hend]. }
    rewrite Hs, lt_Int.
    destruct (enabled u) eqn:Hen; cbn [negb orb].
    + destruct (Z.ltb_spec r s) as [Hlt|Hge].
      * apply IH; try assumption; [lia|].
        intros E. destruct (Hlast E). lia.
      * rewrite floor_div_Int, rem_Int by lia.
        unfold gt. rewrite lt_Int.
        assert (Hc : 1 <= r / s) by (apply Z.div_le_lower_bound; lia).
        destruct (Z.ltb_spec 0 (r / s)) as [_|Hbad]; [|lia].
        rewrite Z.rem_mod_nonneg by lia.
        pose proof (Z.div_mod r s ltac:(lia)) as Hdm.
        pose proof (Z.mod_pos_bound r s Hpos) as Hmod.
        assert (Htot' : terms_total (terms ++ [(Int (r / s), u)])
                        = Int (total + r / s * s)).
        { rewrite terms_total_snoc, Htot, Hs, mul_Int, add_Int. reflexivity. }
        destruct rest as [|u' rest'].
        -- destruct (Hlast eq_refl) as [-> _].
           rewrite Z.div_1_r, Z.mul_1_r in Htot'. rewrite Z.div_1_r.
           destruct (ge _ (maxUnits o)); cbn [duration_terms]; exact Htot'.
        -- rewrite length_app. cbn [List.length].
           rewrite (Hmax (List.length terms + 1)%nat)
             by (cbn [List.length] in Hlen; lia).
           replace (total + r) with (total + r / s * s + r mod s) by lia.
           apply IH; try assumption.
           ++ lia.
           ++ rewrite length_app. cbn [List.length] in *. lia.
           ++ discriminate.
    + apply IH; try assumption; [lia|].
      intros E. destruct (Hlast E). congruence.
Qed.

Lemma maxUnits_seven (m : number) :
  le (Int 7) m = true ->
  forall n : nat, Z.of_nat n < 7 -> ge (Int (Z.of_nat n)) m = false.
Proof.
  intros H n Hn. unfold ge.
  destruct m as [| | |x]; try reflexivity; try discriminate.
  simpl in H |- *. apply Qle_bool_iff in H.
  destruct (Qle_bool x (inject_Z (Z.of_nat n))) eqn:E; [|reflexivity].
  apply Qle_bool_iff in E. exfalso.
  assert (Hq : (inject_Z 7 <= inject_Z (Z.of_nat n))%Q) by (eapply Qle_trans; eassumption).
  rewrite <- Zle_Qle in Hq. lia.
Qed.

(** X1: for a duration from 0 up to 2^53 seconds, where the arithmetic
    of the loop is exact, the terms never stand for more than the whole
    seconds given, and for exactly that many when seconds are included and
    [maxUnits] is 7 or more. *)
Theorem formatDuration_accounts_for_seconds (q : Q) (o : duration_options) :
  (0 <= q)%Q -> (q < inject_Z (2 ^ 53))%Q ->
  let terms := duration_terms o (timeUnits o) (floor (Fin q)) [] in
  formatDuration host (Fin q) o
    = Return (match terms with
              | [] => if compact o then "0s" else "0 seconds"
              | _ => join " " (map (fun t => render_term host o (fst t) (snd t))
                                   terms)
              end)
  /\ exists total,
       terms_total terms = Int total
       /\ 0 <= total <= Qfloor q
       /\ (includeSeconds o = true -> le (Int 7) (maxUnits o) = true ->
           total = Qfloor q).
Proof.
  intros Hq _ terms.
  assert (Hguard : lt (Fin q) (Int 0) = false).
  { simpl. unfold Qlt_bool. apply negb_false_iff. now apply Qle_bool_iff. }
  split; [apply (formatDuration_terms host (Fin q) o eq_refl Hguard)|].
  assert (Hr : 0 <= Qfloor q).
  { change 0 with (Qfloor 0). now apply Qfloor_resp_le. }
  unfold terms. cbn [floor].
  destruct (duration_terms_bounded o (timeUnits o) (timeUnits_positive o)
              (Qfloor q) [] 0 Hr eq_refl) as (T & HT & Hb).
  exists T. split; [exact HT|]. split; [lia|].
  intros Hsec Hmax.
  pose proof (duration_terms_exact o (timeUnits o) (maxUnits_seven _ Hmax)
                (timeUnits_positive o) (Qfloor q) [] 0 Hr eq_refl
                ltac:(cbn; lia) ltac:(discriminate)
                (fun _ => timeUnits_ends_with_second o Hsec)) as E.
  rewrite E in HT. unfold Int in HT. injection HT. lia.
Qed.

End DurationTotals.

Section DurationLength.
Import JS DateHelper Spec JSFacts.
Local Open Scope string_scope.
Local Open Scope Z_scope.
Variable host : Host.

Lemma duration_terms_length (o : duration_options) (m : Z)
    (tus : list time_unit) :
  maxUnits o = Int m ->
  forall remaining terms,
    (Z.of_nat (List.length terms) < m \/ terms = []) ->
    Z.of_nat (List.length (duration_terms o tus remaining terms)) <= Z.max 1 m.
Proof.
  intros Hm. induction tus as [|u rest IH]; intros remaining terms Hinv;
    cbn [duration_terms].
  - destruct Hinv as [H| ->]; cbn [List.length]; lia.
  - destruct (negb (enabled u) || lt remaining (unit_seconds u));
      [now apply IH|].
    rewrite Hm. unfold ge. rewrite le_Int.
    destruct (gt (floor (div remaining (unit_seconds u))) (Int 0)).
    + rewrite length_app. cbn [List.length].
      destruct (Z.leb_spec m (Z.of_nat (List.length terms + 1))) as [Hstop|Hgo].
      * rewrite length_app. cbn [List.length].
        destruct Hinv as [H| ->]; cbn [List.length]; lia.
      * apply IH. left. rewrite length_app. cbn [List.length]. lia.
    + destruct (Z.leb_spec m (Z.of_nat (List.length terms))) as [Hstop|Hgo].
      * destruct Hinv as [H| ->]; cbn [List.length]; lia.
      * apply IH. now left.
Qed.

(** The loop only adds terms. *)
Lemma duration_terms_keeps (o : duration_options) (tus : list time_unit) :
  forall remaining terms,
    (List.length terms
     <= List.length (duration_terms o tus remaining terms))%nat.
Proof.
  induction tus as [|u rest IH]; intros remaining terms;
    cbn [duration_terms]; [lia|].
  destruct (negb (enabled u) || lt remaining (unit_seconds u));
    [apply IH|].
  destruct (gt (floor (div remaining (unit_seconds u))) (Int 0)).
  - destruct (ge _ (maxUnits o)).
    + rewrite length_app. cbn [List.length]. lia.
    + eapply Nat.le_trans; [|apply IH].
      rewrite length_app. cbn [List.length]. lia.
  - destruct (ge _ (maxUnits o)); [lia|apply IH].
Qed.

(** When some enabled unit fits the whole seconds, the first such unit
    pushes a term, whatever [maxUnits] is. *)
Lemma duration_terms_first_fit (o : duration_options) (tus : list time_unit) :
  Forall (fun u => exists s, unit_seconds u = Int s /\ 0 < s) tus ->
  forall r terms,
    0 <= r ->
    (exists u, In u tus /\ enabled u = true
               /\ le (unit_seconds u) (Int r) = true) ->
    (1 <= List.length (duration_terms o tus (Int r) terms))%nat.
Proof.
  induction 1 as [|u rest (s & Hs & Hpos) Hrest IH];
    intros r terms Hr (u0 & Hin & Hen & Hfit); cbn [duration_terms].
  - destruct Hin.
  - rewrite Hs, lt_Int.
    assert (Hskip : negb (enabled u) || (r <? s) = true ->
                    exists u1, In u1 rest /\ enabled u1 = true
                               /\ le (unit_seconds u1) (Int r) = true).
    { intros Hsk. exists u0. split; [|split; assumption].
      destruct Hin as [<-|Hin]; [|exact Hin]. exfalso.
      rewrite Hen, Hs, le_Int in *. cbn [negb orb] in Hsk.
      apply Z.ltb_lt in Hsk. apply Z.leb_le in Hfit. lia. }
    destruct (negb (enabled u) || (r <? s)) eqn:Hsk.
    + apply IH; [exact Hr|]. now apply Hskip.
    + apply orb_false_elim in Hsk. destruct Hsk as [_ Hge].
      apply Z.ltb_ge in Hge.
      rewrite floor_div_Int, rem_Int by lia.
      unfold gt. rewrite lt_Int.
      assert (Hc : 1 <= r / s) by (apply Z.div_le_lower_bound; lia).
      destruct (Z.ltb_spec 0 (r / s)) as [_|Hbad]; [|lia].
      destruct (ge _ (maxUnits o)).
      * rewrite length_app. cbn [List.length]. lia.
      * eapply Nat.le_trans; [|apply duration_terms_keeps].
        rewrite length_app. cbn [List.length]. lia.
Qed.

(** X2: for a duration from 0 up to 2^53 seconds and an integer
    [maxUnits], at most [maxUnits] terms are written but never fewer than
    one when some enabled unit fits the whole seconds: the limit is only
    looked at after a term was pushed, so a [maxUnits] of 0 or a negative
    one gives exactly one term. *)
Theorem formatDuration_term_count (q : Q) (o : duration_options) (m : Z) :
  (0 <= q)%Q -> (q < inject_Z (2 ^ 53))%Q ->
  maxUnits o = Int m ->
  let terms := duration_terms o (timeUnits o) (floor (Fin q)) [] in
  formatDuration host (Fin q) o
    = Return (match terms with
              | [] => if compact o then "0s" else "0 seconds"
              | _ => join " " (map (fun t => render_term host o (fst t) (snd t))
                                   terms)
              end)
  /\ Z.of_nat (List.length terms) <= Z.max 1 m
  /\ ((exists u, In u (timeUnits o) /\ enabled u = true
                 /\ le (unit_seconds u) (floor (Fin q)) = true) ->
      1 <= Z.of_nat (List.length terms)
      /\ (m <= 1 -> List.length terms = 1%nat)).
Proof.
  intros Hq _ Hm terms.
  assert (Hguard : lt (Fin q) (Int 0) = false).
  { simpl. unfold Qlt_bool. apply negb_false_iff. now apply Qle_bool_iff. }
  assert (Hr : 0 <= Qfloor q).
  { change 0 with (Qfloor 0). now apply Qfloor_resp_le. }
  assert (Hup : Z.of_nat (List.length terms) <= Z.max 1 m)
    by (apply duration_terms_length; [exact Hm|now right]).
  split; [|split].
  - apply (formatDuration_terms host (Fin q) o eq_refl Hguard).
  - exact Hup.
  - intros Hfit.
    pose proof (duration_terms_first_fit o (timeUnits o) (timeUnits_positive o)
                  (Qfloor q) [] Hr Hfit) as Hlow.
    fold (Int (Qfloor q)) in terms. change (floor (Fin q)) with (Int (Qfloor q)) in terms.
    fold terms in Hlow. split; lia.
Qed.

End DurationLength.

Section Buckets.
Import JS DateHelper Spec JSFacts.
Local Open Scope string_scope.
Local Open Scope Z_scope.
Variable host : Host.

Lemma fits_once (d u : Z) : 0 <= d -> 0 < u -> (1 <=? d / u) = (u <=? d).
Proof.
  intros Hd Hu. destruct (Z.leb_spec u d) as [H|H].
  - apply Z.leb_le. apply Z.div_le_lower_bound; lia.
  - apply Z.leb_gt. rewrite Z.div_small; lia.
Qed.

(** The scan of [intervals] in closed form. *)
Lemma scan_intervals_bucket (format : number -> string -> string)
    (signed : number -> number) (d : Z) :
  0 <= d ->
  scan_intervals intervals format signed (Int d)
  = if d =? 0 then format (Int 0) "second"
    else format (signed (Int (d / snd (bucket d)))) (fst (bucket d)).
Proof.
  intros Hd. unfold intervals, bucket. cbn [scan_intervals seconds unit].
  unfold ge. rewrite !floor_div_Int by lia. rewrite !le_Int.
  rewrite (fits_once d 31536000 Hd ltac:(lia)).
  rewrite (fits_once d 2592000 Hd ltac:(lia)), (fits_once d 604800 Hd ltac:(lia)),
    (fits_once d 86400 Hd ltac:(lia)), (fits_once d 3600 Hd ltac:(lia)),
    (fits_once d 60 Hd ltac:(lia)), (fits_once d 1 Hd ltac:(lia)).
  repeat match goal with
  | |- context [?a <=? d] => destruct (Z.leb_spec a d)
  end; cbn [fst snd]; destruct (Z.eqb_spec d 0); try lia; reflexivity.
Qed.

(** X3: for an instant less than 2^53 milliseconds away from now, where
    the difference of the two time values is exact: when the instant is
    not in the future [timeAgo] formats the negated count of the largest
    unit that fits the elapsed whole seconds, and the zero-second phrase
    when less than a second has passed; [timeFromNow] does the same, with
    the count as it is, for an instant not in the past.  Neither needs a
    delegated call. *)
Theorem relative_time_buckets (clock : Clock) (tick : nat) (tv : Z)
    (locale : string) (fuel : nat) (format : number -> string -> string) :
  RelativeTimeFormat host locale = Return format ->
  Z.abs (clock tick - tv) < 2 ^ 53 ->
  (tv <= clock tick ->
   let d := (clock tick - tv) / 1000 in
   timeAgo host (S fuel) clock tick (TimeValue tv) locale
   = Some (Return (if d =? 0 then format (Int 0) "second"
                   else format (Int (- (d / snd (bucket d)))) (fst (bucket d)))))
  /\ (clock tick <= tv ->
   let d := (tv - clock tick) / 1000 in
   timeFromNow host (S fuel) clock tick (TimeValue tv) locale
   = Some (Return (if d =? 0 then format (Int 0) "second"
                   else format (Int (d / snd (bucket d))) (fst (bucket d))))).
Proof.
  intros Hlocale _. split; intros Hpast d.
  - rewrite timeAgo_step, whole_seconds_negative.
    destruct (Z.ltb_spec (clock tick - tv) 0); [lia|].
    unfold with_formatter. rewrite Hlocale.
    assert (Hd : 0 <= d) by (apply Z.div_pos; lia).
    fold d. rewrite (scan_intervals_bucket format neg d Hd).
    now rewrite neg_Int.
  - rewrite timeFromNow_step, whole_seconds_negative.
    destruct (Z.ltb_spec (tv - clock tick) 0); [lia|].
    unfold with_formatter. rewrite Hlocale.
    assert (Hd : 0 <= d) by (apply Z.div_pos; lia).
    fold d. now rewrite (scan_intervals_bucket format (fun c => c) d Hd).
Qed.

End Buckets.

Lemma formatDuration_accounts_for_seconds_witness :
  DateHelper.formatDuration Spec.reference_host (JS.Fin (7323 # 2))
      DateHelper.default_options
  = JS.Return "1hour 1minute 1second"%string
  /\ exists total,
       Spec.terms_total
         (DateHelper.duration_terms DateHelper.default_options
            (DateHelper.timeUnits DateHelper.default_options)
            (JS.floor (JS.Fin (7323 # 2))) [])
       = JS.Int total
       /\ 0 <= total <= 3661
       /\ (DateHelper.includeSeconds DateHelper.default_options = true ->
           JS.le (JS.Int 7) (DateHelper.maxUnits DateHelper.default_options)
           = true ->
           total = 3661).
Proof.
  exact (formatDuration_accounts_for_seconds Spec.reference_host (7323 # 2)
           DateHelper.default_options ltac:(unfold Qle; simpl; lia)
           ltac:(reflexivity)).
Defined.

Lemma formatDuration_term_count_witness :
  (DateHelper.formatDuration Spec.reference_host (JS.Fin (inject_Z 100000000))
       (Spec.with_maxUnits (JS.Int 2) DateHelper.default_options)
   = JS.Return "3year 2month"%string)
  /\ (DateHelper.formatDuration Spec.reference_host (JS.Fin (inject_Z 3661))
        (Spec.with_maxUnits (JS.Int 0) DateHelper.default_options)
      = JS.Return "1hour"%string
      /\ List.length
           (DateHelper.duration_terms
              (Spec.with_maxUnits (JS.Int 0) DateHelper.default_options)
              (DateHelper.timeUnits
                 (Spec.with_maxUnits (JS.Int 0) DateHelper.default_options))
              (JS.floor (JS.Fin (inject_Z 3661))) []) = 1%nat)
  /\ (DateHelper.formatDuration Spec.reference_host (JS.Fin (inject_Z 3661))
        (Spec.with_maxUnits (JS.Int (-5)) DateHelper.default_options)
      = JS.Return "1hour"%string
      /\ List.length
           (DateHelper.duration_terms
              (Spec.with_maxUnits (JS.Int (-5)) DateHelper.default_options)
              (DateHelper.timeUnits
                 (Spec.with_maxUnits (JS.Int (-5)) DateHelper.default_options))
              (JS.floor (JS.Fin (inject_Z 3661))) []) = 1%nat).
Proof.
  assert (Hfit : forall o,
            exists u, In u (DateHelper.timeUnits o)
                      /\ DateHelper.enabled u = true
                      /\ JS.le (DateHelper.unit_seconds u)
                               (JS.floor (JS.Fin (inject_Z 3661))) = true
            \/ DateHelper.includeHours o = false).
  { intros o. eexists {| DateHelper.name := "hour";
                         DateHelper.unit_seconds := JS.Int 3600;
                         DateHelper.enabled := DateHelper.includeHours o |}.
    destruct (DateHelper.includeHours o) eqn:E; [left|now right].
    split; [|split; [reflexivity|reflexivity]].
    unfold DateHelper.timeUnits. rewrite E. simpl. tauto. }
  split; [|split].
  - exact (proj1 (formatDuration_term_count Spec.reference_host
                    (inject_Z 100000000)
                    (Spec.with_maxUnits (JS.Int 2) DateHelper.default_options) 2
                    ltac:(unfold Qle; simpl; lia) ltac:(reflexivity) eq_refl)).
  - pose proof (formatDuration_term_count Spec.reference_host (inject_Z 3661)
                  (Spec.with_maxUnits (JS.Int 0) DateHelper.default_options) 0
                  ltac:(unfold Qle; simpl; lia) ltac:(reflexivity) eq_refl)
      as (Hout & _ & Hone).
    split; [exact Hout|].
    destruct (Hfit (Spec.with_maxUnits (JS.Int 0) DateHelper.default_options))
      as (u & [H|H]); [|discriminate H].
    apply (proj2 (Hone (ex_intro _ u H))). lia.
  - pose proof (formatDuration_term_count Spec.reference_host (inject_Z 3661)
                  (Spec.with_maxUnits (JS.Int (-5)) DateHelper.default_options)
                  (-5)
                  ltac:(unfold Qle; simpl; lia) ltac:(reflexivity) eq_refl)
      as (Hout & _ & Hone).
    split; [exact Hout|].
    destruct (Hfit (Spec.with_maxUnits (JS.Int (-5)) DateHelper.default_options))
      as (u & [H|H]); [|discriminate H].
    apply (proj2 (Hone (ex_intro _ u H))). lia.
Defined.

Lemma relative_time_buckets_witness :
  DateHelper.timeAgo Spec.reference_host 1 (Spec.fixed_clock 100000000000) 0
      (DateHelper.TimeValue (100000000000 - 360 * 86400000))
      DateHelper.default_locale
  = Some (JS.Return "12 months ago"%string).
Proof.
  exact (proj1 (relative_time_buckets Spec.reference_host
                  (Spec.fixed_clock 100000000000) 0
                  (100000000000 - 360 * 86400000) DateHelper.default_locale 0
                  Spec.english_rtf eq_refl
                  ltac:(unfold Spec.fixed_clock; lia))
               ltac:(unfold Spec.fixed_clock; lia)).
Defined.

(* ================================================================== *)
(** * More on startOf and endOf *)
(* ================================================================== *)

Section PeriodBoundaries.
Import JS DateHelper Spec JSFacts.
Local Open Scope string_scope.
Local Open Scope Z_scope.
Variable tza : Z.

Ltac split_ifs_in H :=
  repeat match type of H with
  | context [if (?a =? ?b) then _ else _] => destruct (Z.eqb_spec a b)
  | context [if (?a <=? ?b) then _ else _] => destruct (Z.leb_spec a b)
  | context [if (?a <? ?b) then _ else _] => destruct (Z.ltb_spec a b)
  end.

Ltac split_ifs :=
  repeat match goal with
  | |- context [if (?a =? ?b) then _ else _] => destruct (Z.eqb_spec a b)
  | |- context [if (?a <=? ?b) then _ else _] => destruct (Z.leb_spec a b)
  | |- context [if (?a <? ?b) then _ else _] => destruct (Z.ltb_spec a b)
  end.

Ltac month_cases m :=
  let H := fresh "Hcases" in
  assert (H : m = 0 \/ m = 1 \/ m = 2 \/ m = 3 \/ m = 4 \/ m = 5 \/ m = 6
              \/ m = 7 \/ m = 8 \/ m = 9 \/ m = 10 \/ m = 11) by lia;
  repeat (destruct H as [H|H]); rewrite H in *;
  cbv [month_stop month_start Z.eqb Z.leb Z.compare Pos.eqb Pos.compare
       Pos.compare_cont CompOpp] in *.

Lemma DayFromYear_mono (y1 y2 : Z) :
  y1 <= y2 -> DayFromYear y1 <= DayFromYear y2.
Proof. unfold DayFromYear. intros H. Z.to_euclidean_division_equations. lia. Qed.

Lemma YearFromTime_unique (t y : Z) :
  DayFromYear y <= Day t < DayFromYear (y + 1) -> YearFromTime t = y.
Proof.
  intros Hy. pose proof (YearFromTime_spec t) as Hs.
  destruct (Z.lt_trichotomy (YearFromTime t) y) as [Hlt|[E|Hgt]]; [|exact E|].
  - pose proof (DayFromYear_mono (YearFromTime t + 1) y ltac:(lia)). lia.
  - pose proof (DayFromYear_mono (y + 1) (YearFromTime t) ltac:(lia)). lia.
Qed.

Lemma leap_day_range (y : Z) :
  (leap_day y = 0 \/ leap_day y = 1) /\ DaysInYear y = 365 + leap_day y.
Proof.
  unfold leap_day, DaysInYear. destruct (_ && _); cbn; lia.
Qed.

Lemma Day_of_day (d x : Z) : 0 <= x < msPerDay -> Day (d * msPerDay + x) = d.
Proof.
  intros Hx. unfold Day. unfold msPerDay in *.
  rewrite Z.add_comm, Z.div_add by lia. rewrite Z.div_small; lia.
Qed.

Lemma TimeWithinDay_of_day (d x : Z) :
  0 <= x < msPerDay -> TimeWithinDay (d * msPerDay + x) = x.
Proof.
  intros Hx. unfold TimeWithinDay. unfold msPerDay in *.
  rewrite Z.add_comm, Z.mod_add by lia. rewrite Z.mod_small; lia.
Qed.

(** The date of the day numbered [d] within the month [m] of year [y]. *)
Lemma date_of_day (t y m d : Z) :
  0 <= m <= 11 ->
  Day t = DayFromYear y + d ->
  month_start m (leap_day y) <= d < month_stop m (leap_day y) ->
  YearFromTime t = y /\ MonthFromTime t = m
  /\ DateFromTime t = d - month_start m (leap_day y) + 1.
Proof.
  intros Hm Hday Hd.
  destruct (leap_day_range y) as [Hleap Hdays].
  assert (Hyear : YearFromTime t = y).
  { apply YearFromTime_unique. rewrite DayFromYear_next, Hday, Hdays.
    month_cases m; lia. }
  assert (Hmonth : MonthFromTime t = m).
  { unfold MonthFromTime, InLeapYear, DayWithinYear. rewrite Hyear, Hday.
    fold (leap_day y).
    replace (DayFromYear y + d - DayFromYear y) with d by lia.
    month_cases m; split_ifs; lia. }
  split; [exact Hyear|]. split; [exact Hmonth|].
  unfold DateFromTime, InLeapYear, DayWithinYear.
  rewrite Hmonth, Hyear, Hday. fold (leap_day y). lia.
Qed.

(** The day of [t] within its own month. *)
Lemma own_month (t : Z) :
  let y := YearFromTime t in
  let m := MonthFromTime t in
  0 <= m <= 11
  /\ month_start m (leap_day y) <= Day t - DayFromYear y
     < month_stop m (leap_day y).
Proof.
  intros y m. split; [apply MonthFromTime_range|].
  pose proof (YearFromTime_spec t) as Hs. rewrite DayFromYear_next in Hs.
  destruct (leap_day_range (YearFromTime t)) as [Hleap Hdays].
  unfold m, y, MonthFromTime, InLeapYear, DayWithinYear.
  fold (leap_day (YearFromTime t)).
  set (d := Day t - DayFromYear (YearFromTime t)).
  assert (Hd : 0 <= d < 365 + leap_day (YearFromTime t)) by (unfold d; lia).
  split_ifs; unfold month_stop, month_start; split_ifs; lia.
Qed.

(** Moving to an earlier or the same day, then to the start of the day,
    in closed form. *)
Lemma to_start_of_day (tv day : Z) :
  representable tv -> day <= Day (LocalTime (constant_offset tza) tv) ->
  setHours (constant_offset tza)
    (TimeClip (UTC (constant_offset tza) (MakeDate day (TimeWithinDay (LocalTime (constant_offset tza) tv)))))
    (Int 0) (Int 0) (Int 0) (Int 0)
  = TimeClip (UTC (constant_offset tza) (day * msPerDay)).
Proof.
  intros Hrep Hday. set (t := LocalTime (constant_offset tza) tv) in *.
  pose proof (Day_bounds t) as Hd.
  assert (Hw : 0 <= TimeWithinDay t < msPerDay)
    by (unfold TimeWithinDay, msPerDay; apply Z.mod_pos_bound; lia).
  assert (Hsplit : t = Day t * msPerDay + TimeWithinDay t).
  { unfold Day, TimeWithinDay, msPerDay.
    pose proof (Z.div_mod t 86400000 ltac:(lia)). lia. }
  destruct (TimeClip (UTC (constant_offset tza) (MakeDate day (TimeWithinDay t))))
    as [|u] eqn:E.
  - apply TimeClip_invalid in E. cbn [setHours]. symmetry.
    apply TimeClip_invalid. intros Hok. apply E.
    clear Hd. unfold representable, UTC, MakeDate, msPerDay, maxTime in *.
    assert (Ht : t = tv + tza) by reflexivity. lia.
  - apply TimeClip_valid in E. destruct E as [-> Hin].
    rewrite setHours_valid. do 2 f_equal.
    replace (LocalTime (constant_offset tza) (UTC (constant_offset tza) (MakeDate day (TimeWithinDay t))))
      with (day * msPerDay + TimeWithinDay t)
      by (unfold LocalTime, UTC, MakeDate; lia).
    rewrite Day_of_day by exact Hw. unfold MakeDate, MakeTime. lia.
Qed.

(** Moving to a later or the same day, then to the end of the day. *)
Lemma to_end_of_day (tv day : Z) :
  representable tv -> Day (LocalTime (constant_offset tza) tv) <= day ->
  setHours (constant_offset tza)
    (TimeClip (UTC (constant_offset tza) (MakeDate day (TimeWithinDay (LocalTime (constant_offset tza) tv)))))
    (Int 23) (Int 59) (Int 59) (Int 999)
  = TimeClip (UTC (constant_offset tza) (day * msPerDay + MakeTime 23 59 59 999)).
Proof.
  intros Hrep Hday. set (t := LocalTime (constant_offset tza) tv) in *.
  pose proof (Day_bounds t) as Hd.
  assert (Hw : 0 <= TimeWithinDay t < msPerDay)
    by (unfold TimeWithinDay, msPerDay; apply Z.mod_pos_bound; lia).
  assert (Hsplit : t = Day t * msPerDay + TimeWithinDay t).
  { unfold Day, TimeWithinDay, msPerDay.
    pose proof (Z.div_mod t 86400000 ltac:(lia)). lia. }
  destruct (TimeClip (UTC (constant_offset tza) (MakeDate day (TimeWithinDay t))))
    as [|u] eqn:E.
  - apply TimeClip_invalid in E. cbn [setHours]. symmetry.
    apply TimeClip_invalid. intros Hok. apply E.
    clear Hd.
    unfold representable, UTC, MakeDate, MakeTime, msPerDay, maxTime in *.
    assert (Ht : t = tv + tza) by reflexivity. lia.
  - apply TimeClip_valid in E. destruct E as [-> Hin].
    rewrite setHours_valid. do 2 f_equal.
    replace (LocalTime (constant_offset tza) (UTC (constant_offset tza) (MakeDate day (TimeWithinDay t))))
      with (day * msPerDay + TimeWithinDay t)
      by (unfold LocalTime, UTC, MakeDate; lia).
    rewrite Day_of_day by exact Hw. unfold MakeDate. lia.
Qed.

Lemma startOf_day_closed (tv : Z) :
  startOf (constant_offset tza) (TimeValue tv) "day"
  = Return (TimeClip (UTC (constant_offset tza) (day_start_local (LocalTime (constant_offset tza) tv)))).
Proof.
  unfold startOf. cbn [getTime isNaN Int].
  change ("day" =? "day")%string with true. cbv iota.
  rewrite setHours_valid. unfold day_start_local, MakeDate, MakeTime.
  do 3 f_equal. lia.
Qed.

Lemma endOf_day_closed (tv : Z) :
  endOf (constant_offset tza) (TimeValue tv) "day"
  = Return (TimeClip (UTC (constant_offset tza) (day_end_local (LocalTime (constant_offset tza) tv)))).
Proof.
  unfold endOf. cbn [getTime isNaN Int].
  change ("day" =? "day")%string with true. cbv iota.
  rewrite setHours_valid. reflexivity.
Qed.

Lemma end_of_day_range : 0 <= MakeTime 23 59 59 999 < msPerDay.
Proof. unfold MakeTime, msPerDay. lia. Qed.

(** X4: the day boundaries of a valid date lie on its own local day, at
    00:00:00.000 and 23:59:59.999, with the date between them; each is
    invalid exactly when it is not representable; and taking the boundary
    of a boundary changes nothing. *)
Theorem startOf_endOf_day (tv : Z) :
  representable tv ->
  let t := LocalTime (constant_offset tza) tv in
  (exists r, startOf (constant_offset tza) (TimeValue tv) "day" = Return r
     /\ (r = InvalidDate <-> ~ representable (UTC (constant_offset tza) (day_start_local t)))
     /\ (forall u, r = TimeValue u ->
           u <= tv
           /\ Day (LocalTime (constant_offset tza) u) = Day t
           /\ TimeWithinDay (LocalTime (constant_offset tza) u) = 0
           /\ startOf (constant_offset tza) (TimeValue u) "day" = Return (TimeValue u)))
  /\ (exists r, endOf (constant_offset tza) (TimeValue tv) "day" = Return r
     /\ (r = InvalidDate <-> ~ representable (UTC (constant_offset tza) (day_end_local t)))
     /\ (forall u, r = TimeValue u ->
           tv <= u
           /\ Day (LocalTime (constant_offset tza) u) = Day t
           /\ TimeWithinDay (LocalTime (constant_offset tza) u) = MakeTime 23 59 59 999
           /\ endOf (constant_offset tza) (TimeValue u) "day" = Return (TimeValue u))).
Proof.
  intros Hrep t. pose proof (Day_bounds t) as Hd.
  pose proof end_of_day_range as He.
  split.
  - eexists. split; [apply startOf_day_closed|].
    split; [apply TimeClip_invalid|].
    intros u Hu. pose proof Hu as Hclip.
    apply TimeClip_valid in Hu. destruct Hu as [-> Hok].
    assert (El : LocalTime (constant_offset tza) (UTC (constant_offset tza) (day_start_local (LocalTime (constant_offset tza) tv)))
                 = Day t * msPerDay + 0)
      by (unfold t, day_start_local, LocalTime, UTC; lia).
    assert (H0 : 0 <= 0 < msPerDay) by (unfold msPerDay; lia).
    rewrite El, (Day_of_day (Day t) 0 H0), (TimeWithinDay_of_day (Day t) 0 H0).
    split; [unfold UTC, day_start_local; fold t; unfold t, LocalTime in *; lia|].
    split; [reflexivity|]. split; [reflexivity|].
    rewrite startOf_day_closed. unfold day_start_local at 1.
    rewrite El, (Day_of_day (Day t) 0 H0).
    fold (day_start_local t). f_equal. exact Hclip.
  - eexists. split; [apply endOf_day_closed|].
    split; [apply TimeClip_invalid|].
    intros u Hu. pose proof Hu as Hclip.
    apply TimeClip_valid in Hu. destruct Hu as [-> Hok].
    assert (El : LocalTime (constant_offset tza) (UTC (constant_offset tza) (day_end_local (LocalTime (constant_offset tza) tv)))
                 = Day t * msPerDay + MakeTime 23 59 59 999)
      by (unfold t, day_end_local, LocalTime, UTC; lia).
    rewrite El, (Day_of_day (Day t) _ He), (TimeWithinDay_of_day (Day t) _ He).
    split; [unfold UTC, day_end_local; fold t; unfold t, LocalTime, msPerDay,
            MakeTime in *; lia|].
    split; [reflexivity|]. split; [reflexivity|].
    rewrite endOf_day_closed. unfold day_end_local at 1.
    rewrite El, (Day_of_day (Day t) _ He).
    fold (day_end_local t). f_equal. exact Hclip.
Qed.

(** X5: when both boundaries of the week are representable, they bracket
    the date, lie 7 days less a millisecond apart, and the start of the
    week is the same when taken from either boundary. *)
Theorem week_brackets_date (tv : Z) :
  representable tv ->
  let t := LocalTime (constant_offset tza) tv in
  representable (UTC (constant_offset tza) (week_start_local t)) ->
  representable (UTC (constant_offset tza) (week_end_local t)) ->
  exists a b,
    startOf (constant_offset tza) (TimeValue tv) "week" = Return (TimeValue a)
    /\ endOf (constant_offset tza) (TimeValue tv) "week" = Return (TimeValue b)
    /\ a <= tv <= b
    /\ b - a = 7 * msPerDay - 1
    /\ startOf (constant_offset tza) (TimeValue a) "week" = Return (TimeValue a)
    /\ startOf (constant_offset tza) (TimeValue b) "week" = Return (TimeValue a)
    /\ endOf (constant_offset tza) (TimeValue a) "week" = Return (TimeValue b).
Proof.
  intros Hrep t Hs He.
  pose proof (Day_bounds t) as Hd. pose proof (WeekDay_range t) as Hw.
  pose proof end_of_day_range as Hr.
  assert (Hclip : forall x, representable x -> TimeClip x = TimeValue x).
  { intros x Hx. unfold TimeClip. unfold representable in Hx.
    destruct (Z.ltb_spec maxTime (Z.abs x)); [lia|reflexivity]. }
  exists (UTC (constant_offset tza) (week_start_local t)), (UTC (constant_offset tza) (week_end_local t)).
  assert (Hks : 0 <= (WeekDay t + 6) mod 7 < 7) by (apply Z.mod_pos_bound; lia).
  assert (Hke : 0 <= (7 - WeekDay t) mod 7 < 7) by (apply Z.mod_pos_bound; lia).
  assert (Hsum : (WeekDay t + 6) mod 7 + (7 - WeekDay t) mod 7 = 6).
  { destruct (Z.eq_dec (WeekDay t) 0) as [E|E].
    - rewrite E. reflexivity.
    - replace (WeekDay t + 6) with ((WeekDay t - 1) + 1 * 7) by lia.
      rewrite Z.mod_add, !Z.mod_small by lia. lia. }
  assert (Els : LocalTime (constant_offset tza) (UTC (constant_offset tza) (week_start_local t)) = week_start_local t)
    by (unfold LocalTime, UTC; lia).
  assert (Ele : LocalTime (constant_offset tza) (UTC (constant_offset tza) (week_end_local t)) = week_end_local t)
    by (unfold LocalTime, UTC; lia).
  destruct (week_start_local_Monday t) as (Hmon & _ & _).
  destruct (week_end_local_Sunday t) as (Hsun & _ & _).
  assert (Hds : Day (week_start_local t) = Day t - (WeekDay t + 6) mod 7).
  { unfold week_start_local.
    replace ((Day t - (WeekDay t + 6) mod 7) * msPerDay)
      with ((Day t - (WeekDay t + 6) mod 7) * msPerDay + 0) by lia.
    apply Day_of_day. unfold msPerDay. lia. }
  assert (Hde : Day (week_end_local t) = Day t + (7 - WeekDay t) mod 7).
  { unfold week_end_local. now apply Day_of_day. }
  split; [rewrite startOf_week_closed by exact Hrep; fold t; now rewrite Hclip|].
  split; [rewrite endOf_week_closed by exact Hrep; fold t; now rewrite Hclip|].
  split.
  { unfold UTC, week_start_local, week_end_local, MakeTime, msPerDay in *.
    unfold t, LocalTime in *. lia. }
  split.
  { unfold UTC, week_start_local, week_end_local, MakeTime, msPerDay. lia. }
  split; [|split].
  - rewrite startOf_week_closed by exact Hs. rewrite Els.
    unfold week_start_local at 1. rewrite Hds, Hmon.
    change ((1 + 6) mod 7) with 0. rewrite Z.sub_0_r.
    fold (week_start_local t). now rewrite Hclip.
  - rewrite startOf_week_closed by exact He. rewrite Ele.
    unfold week_start_local at 1. rewrite Hde, Hsun.
    change ((0 + 6) mod 7) with 6.
    replace (Day t + (7 - WeekDay t) mod 7 - 6)
      with (Day t - (WeekDay t + 6) mod 7) by lia.
    fold (week_start_local t). now rewrite Hclip.
  - rewrite endOf_week_closed by exact Hs. rewrite Els.
    unfold week_end_local at 1. rewrite Hds, Hmon.
    change ((7 - 1) mod 7) with 6.
    replace (Day t - (WeekDay t + 6) mod 7 + 6)
      with (Day t + (7 - WeekDay t) mod 7) by lia.
    fold (week_end_local t). now rewrite Hclip.
Qed.

Lemma MakeDay_in_year (y m date : Z) :
  0 <= m <= 11 ->
  MakeDay y m date = DayFromYear y + month_start m (leap_day y) + date - 1.
Proof.
  intros Hm. unfold MakeDay. rewrite Z.div_small, Z.mod_small, Z.add_0_r by lia.
  reflexivity.
Qed.

Lemma MakeDay_next_month (y m : Z) :
  0 <= m <= 11 ->
  MakeDay y (m + 1) 0 = DayFromYear y + month_stop m (leap_day y) - 1.
Proof.
  intros Hm. destruct (Z.eq_dec m 11) as [->|Hne].
  - unfold MakeDay. change ((11 + 1) / 12) with 1. change ((11 + 1) mod 12) with 0.
    rewrite DayFromYear_next.
    destruct (leap_day_range y) as [_ ->].
    unfold month_stop, month_start. cbn [Z.leb Z.eqb Z.compare Pos.eqb]. lia.
  - rewrite MakeDay_in_year by lia.
    month_cases m; try lia; change (?a + 1 <=? 0) with false; cbv iota;
      cbn [Z.add Pos.add Pos.succ Z.eqb Pos.eqb]; lia.
Qed.

Lemma startOf_month_closed (tv : Z) :
  representable tv ->
  startOf (constant_offset tza) (TimeValue tv) "month"
  = Return (TimeClip (UTC (constant_offset tza) (month_start_local (LocalTime (constant_offset tza) tv)))).
Proof.
  intros Hrep. unfold startOf. cbn [getTime isNaN Int].
  change ("month" =? "day")%string with false.
  change ("month" =? "week")%string with false.
  change ("month" =? "month")%string with true. cbv iota.
  change (Fin (inject_Z ?z)) with (Int z).
  unfold setDate. rewrite finite_arg_Int. f_equal.
  apply to_start_of_day; [exact Hrep|].
  pose proof (DateFromTime_range (LocalTime (constant_offset tza) tv)) as Hdate.
  pose proof (MakeDay_DateFromTime (LocalTime (constant_offset tza) tv)
                (1 - DateFromTime (LocalTime (constant_offset tza) tv))) as E.
  replace (DateFromTime (LocalTime (constant_offset tza) tv)
           + (1 - DateFromTime (LocalTime (constant_offset tza) tv))) with 1 in E by lia.
  rewrite E. lia.
Qed.

Lemma endOf_month_closed (tv : Z) :
  representable tv ->
  endOf (constant_offset tza) (TimeValue tv) "month"
  = Return (TimeClip (UTC (constant_offset tza) (month_end_local (LocalTime (constant_offset tza) tv)))).
Proof.
  intros Hrep. unfold endOf. cbn [getTime isNaN Int getMonth].
  change ("month" =? "day")%string with false.
  change ("month" =? "week")%string with false.
  change ("month" =? "month")%string with true. cbv iota.
  change (Fin (inject_Z ?z)) with (Int z).
  rewrite add_Int. unfold setMonth. rewrite !finite_arg_Int. f_equal.
  apply to_end_of_day; [exact Hrep|].
  destruct (own_month (LocalTime (constant_offset tza) tv)) as [Hm Hd].
  rewrite MakeDay_next_month by exact Hm. lia.
Qed.

(** X6: the start of the month of a valid date is the first day of the
    same month and year at 00:00:00.000 and is not after the date; the
    end of the month is in the same month at 23:59:59.999, not before
    the date, and one millisecond before the first day of the following
    month.  Each is invalid exactly when it is not representable. *)
Theorem startOf_endOf_month (tv : Z) :
  representable tv ->
  let t := LocalTime (constant_offset tza) tv in
  (exists r, startOf (constant_offset tza) (TimeValue tv) "month" = Return r
     /\ (r = InvalidDate <-> ~ representable (UTC (constant_offset tza) (month_start_local t)))
     /\ (forall u, r = TimeValue u ->
           u <= tv
           /\ YearFromTime (LocalTime (constant_offset tza) u) = YearFromTime t
           /\ MonthFromTime (LocalTime (constant_offset tza) u) = MonthFromTime t
           /\ DateFromTime (LocalTime (constant_offset tza) u) = 1
           /\ TimeWithinDay (LocalTime (constant_offset tza) u) = 0))
  /\ (exists r, endOf (constant_offset tza) (TimeValue tv) "month" = Return r
     /\ (r = InvalidDate <-> ~ representable (UTC (constant_offset tza) (month_end_local t)))
     /\ (forall u, r = TimeValue u ->
           tv <= u
           /\ YearFromTime (LocalTime (constant_offset tza) u) = YearFromTime t
           /\ MonthFromTime (LocalTime (constant_offset tza) u) = MonthFromTime t
           /\ TimeWithinDay (LocalTime (constant_offset tza) u) = MakeTime 23 59 59 999
           /\ YearFromTime (LocalTime (constant_offset tza) u + 1)
              = YearFromTime t + (MonthFromTime t + 1) / 12
           /\ MonthFromTime (LocalTime (constant_offset tza) u + 1) = (MonthFromTime t + 1) mod 12
           /\ DateFromTime (LocalTime (constant_offset tza) u + 1) = 1
           /\ TimeWithinDay (LocalTime (constant_offset tza) u + 1) = 0)).
Proof.
  intros Hrep t.
  pose proof (Day_bounds t) as Hd. pose proof end_of_day_range as He.
  destruct (own_month t) as [Hm Hown].
  destruct (leap_day_range (YearFromTime t)) as [Hleap Hdays].
  remember (YearFromTime t) as y eqn:Hy.
  remember (MonthFromTime t) as m eqn:Hmm.
  assert (H0 : 0 <= 0 < msPerDay) by (unfold msPerDay; lia).
  assert (Hss : month_start m (leap_day y) < month_stop m (leap_day y)) by lia.
  split.
  - eexists. split; [apply startOf_month_closed; exact Hrep|].
    split; [apply TimeClip_invalid|].
    intros u Hu. apply TimeClip_valid in Hu. destruct Hu as [-> _].
    replace (LocalTime (constant_offset tza) (UTC (constant_offset tza) (month_start_local (LocalTime (constant_offset tza) tv))))
      with (MakeDay y m 1 * msPerDay + 0)
      by (unfold month_start_local; fold t; rewrite <- Hy, <- Hmm;
          unfold LocalTime, UTC; lia).
    rewrite (TimeWithinDay_of_day _ 0 H0).
    rewrite MakeDay_in_year by exact Hm.
    destruct (date_of_day
                ((DayFromYear y + month_start m (leap_day y) + 1 - 1) * msPerDay + 0)
                y m (month_start m (leap_day y)) Hm) as (Ey & Em & Ed).
    { rewrite (Day_of_day _ 0 H0). lia. }
    { lia. }
    split.
    { unfold UTC, month_start_local. fold t. rewrite <- Hy, <- Hmm.
      rewrite MakeDay_in_year by exact Hm.
      unfold t, LocalTime, msPerDay in *. lia. }
    repeat split; try assumption. lia.
  - eexists. split; [apply endOf_month_closed; exact Hrep|].
    split; [apply TimeClip_invalid|].
    intros u Hu. apply TimeClip_valid in Hu. destruct Hu as [-> _].
    replace (LocalTime (constant_offset tza) (UTC (constant_offset tza) (month_end_local (LocalTime (constant_offset tza) tv))))
      with (MakeDay y (m + 1) 0 * msPerDay + MakeTime 23 59 59 999)
      by (unfold month_end_local; fold t; rewrite <- Hy, <- Hmm;
          unfold LocalTime, UTC; lia).
    rewrite (TimeWithinDay_of_day _ _ He).
    rewrite MakeDay_next_month by exact Hm.
    remember (DayFromYear y + month_stop m (leap_day y) - 1) as last eqn:Hlast.
    destruct (date_of_day (last * msPerDay + MakeTime 23 59 59 999)
                y m (month_stop m (leap_day y) - 1) Hm) as (Ey & Em & _).
    { rewrite (Day_of_day _ _ He). lia. }
    { lia. }
    replace (last * msPerDay + MakeTime 23 59 59 999 + 1)
      with ((last + 1) * msPerDay + 0)
      by (unfold MakeTime, msPerDay; lia).
    rewrite (TimeWithinDay_of_day _ 0 H0).
    assert (Hnext : YearFromTime ((last + 1) * msPerDay + 0) = y + (m + 1) / 12
                    /\ MonthFromTime ((last + 1) * msPerDay + 0) = (m + 1) mod 12
                    /\ DateFromTime ((last + 1) * msPerDay + 0) = 1).
    { destruct (Z.eq_dec m 11) as [E11|Hne].
      - rewrite E11 in *. change ((11 + 1) / 12) with 1.
        change ((11 + 1) mod 12) with 0.
        destruct (date_of_day ((last + 1) * msPerDay + 0) (y + 1) 0 0
                    ltac:(lia)) as (A & B & C).
        + rewrite (Day_of_day _ 0 H0).
          rewrite DayFromYear_next, Hdays.
          unfold month_stop in Hlast.
          cbn [Z.leb Z.eqb Z.compare Pos.eqb Pos.compare Pos.compare_cont]
            in Hlast.
          lia.
        + unfold month_start, month_stop. cbn [Z.leb Z.compare]. lia.
        + rewrite A, B, C. unfold month_start. cbn [Z.leb Z.compare]. lia.
      - rewrite Z.div_small, Z.mod_small, (Z.add_0_r y) by lia.
        assert (Estop : month_stop m (leap_day y) = month_start (m + 1) (leap_day y)).
        { month_cases m; try lia; reflexivity. }
        assert (Hnn : month_start (m + 1) (leap_day y)
                      < month_stop (m + 1) (leap_day y)).
        { assert (Hall : forall k, 0 <= k <= 11 ->
                    month_start k (leap_day y) < month_stop k (leap_day y)).
          { intros k Hk. month_cases k; lia. }
          apply Hall. lia. }
        destruct (date_of_day ((last + 1) * msPerDay + 0) y (m + 1)
                    (month_start (m + 1) (leap_day y)) ltac:(lia))
          as (A & B & C).
        + rewrite (Day_of_day _ 0 H0). lia.
        + lia.
        + rewrite A, B, C. lia. }
    destruct Hnext as (A & B & C).
    split.
    { unfold UTC, month_end_local. fold t. rewrite <- Hy, <- Hmm.
      rewrite MakeDay_next_month by exact Hm. rewrite <- Hlast.
      assert (Day t <= last) by lia.
      unfold t, LocalTime, MakeTime, msPerDay in *. lia. }
    repeat split; assumption.
Qed.

Lemma startOf_year_closed (tv : Z) :
  representable tv ->
  startOf (constant_offset tza) (TimeValue tv) "year"
  = Return (TimeClip (UTC (constant_offset tza) (year_start_local (LocalTime (constant_offset tza) tv)))).
Proof.
  intros Hrep. unfold startOf. cbn [getTime isNaN Int].
  change ("year" =? "day")%string with false.
  change ("year" =? "week")%string with false.
  change ("year" =? "month")%string with false.
  change ("year" =? "year")%string with true. cbv iota.
  change (Fin (inject_Z ?z)) with (Int z).
  unfold setMonth. rewrite !finite_arg_Int. f_equal.
  apply to_start_of_day; [exact Hrep|].
  rewrite MakeDay_in_year by lia.
  pose proof (YearFromTime_spec (LocalTime (constant_offset tza) tv)) as Hs.
  unfold month_start. cbn [Z.leb Z.compare]. lia.
Qed.

Lemma endOf_year_closed (tv : Z) :
  representable tv ->
  endOf (constant_offset tza) (TimeValue tv) "year"
  = Return (TimeClip (UTC (constant_offset tza) (year_end_local (LocalTime (constant_offset tza) tv)))).
Proof.
  intros Hrep. unfold endOf. cbn [getTime isNaN Int].
  change ("year" =? "day")%string with false.
  change ("year" =? "week")%string with false.
  change ("year" =? "month")%string with false.
  change ("year" =? "year")%string with true. cbv iota.
  change (Fin (inject_Z ?z)) with (Int z).
  unfold setMonth. rewrite !finite_arg_Int. f_equal.
  apply to_end_of_day; [exact Hrep|].
  rewrite MakeDay_in_year by lia.
  pose proof (YearFromTime_spec (LocalTime (constant_offset tza) tv)) as Hs.
  rewrite DayFromYear_next in Hs.
  destruct (leap_day_range (YearFromTime (LocalTime (constant_offset tza) tv))) as [Hleap Hdays].
  change (month_start 11 ?l) with (334 + l). lia.
Qed.

(** X7: the start of the year of a valid date is 1 January of the same
    year at 00:00:00.000 and is not after the date; the end of the year is
    31 December of the same year at 23:59:59.999, not before the date, and
    one millisecond before 1 January of the next year.  Each is invalid
    exactly when it is not representable. *)
Theorem startOf_endOf_year (tv : Z) :
  representable tv ->
  let t := LocalTime (constant_offset tza) tv in
  (exists r, startOf (constant_offset tza) (TimeValue tv) "year" = Return r
     /\ (r = InvalidDate <-> ~ representable (UTC (constant_offset tza) (year_start_local t)))
     /\ (forall u, r = TimeValue u ->
           u <= tv
           /\ YearFromTime (LocalTime (constant_offset tza) u) = YearFromTime t
           /\ MonthFromTime (LocalTime (constant_offset tza) u) = 0
           /\ DateFromTime (LocalTime (constant_offset tza) u) = 1
           /\ TimeWithinDay (LocalTime (constant_offset tza) u) = 0))
  /\ (exists r, endOf (constant_offset tza) (TimeValue tv) "year" = Return r
     /\ (r = InvalidDate <-> ~ representable (UTC (constant_offset tza) (year_end_local t)))
     /\ (forall u, r = TimeValue u ->
           tv <= u
           /\ YearFromTime (LocalTime (constant_offset tza) u) = YearFromTime t
           /\ MonthFromTime (LocalTime (constant_offset tza) u) = 11
           /\ DateFromTime (LocalTime (constant_offset tza) u) = 31
           /\ TimeWithinDay (LocalTime (constant_offset tza) u) = MakeTime 23 59 59 999
           /\ YearFromTime (LocalTime (constant_offset tza) u + 1) = YearFromTime t + 1
           /\ MonthFromTime (LocalTime (constant_offset tza) u + 1) = 0
           /\ DateFromTime (LocalTime (constant_offset tza) u + 1) = 1
           /\ TimeWithinDay (LocalTime (constant_offset tza) u + 1) = 0)).
Proof.
  intros Hrep t.
  pose proof (Day_bounds t) as Hd. pose proof end_of_day_range as He.
  pose proof (YearFromTime_spec t) as Hs. rewrite DayFromYear_next in Hs.
  destruct (leap_day_range (YearFromTime t)) as [Hleap Hdays].
  remember (YearFromTime t) as y eqn:Hy.
  assert (H0 : 0 <= 0 < msPerDay) by (unfold msPerDay; lia).
  assert (Hjan : month_start 0 (leap_day y) = 0) by reflexivity.
  assert (Hjan' : month_stop 0 (leap_day y) = 31) by reflexivity.
  assert (Hdec : month_start 11 (leap_day y) = 334 + leap_day y) by reflexivity.
  assert (Hdec' : month_stop 11 (leap_day y) = 365 + leap_day y) by reflexivity.
  split.
  - eexists. split; [apply startOf_year_closed; exact Hrep|].
    split; [apply TimeClip_invalid|].
    intros u Hu. apply TimeClip_valid in Hu. destruct Hu as [-> _].
    replace (LocalTime (constant_offset tza) (UTC (constant_offset tza) (year_start_local (LocalTime (constant_offset tza) tv))))
      with (DayFromYear y * msPerDay + 0)
      by (unfold year_start_local; fold t; rewrite <- Hy;
          rewrite MakeDay_in_year by lia; unfold LocalTime, UTC; lia).
    rewrite (TimeWithinDay_of_day _ 0 H0).
    destruct (date_of_day (DayFromYear y * msPerDay + 0) y 0 0 ltac:(lia))
      as (Ey & Em & Ed).
    { rewrite (Day_of_day _ 0 H0). lia. }
    { lia. }
    split.
    { unfold UTC, year_start_local. fold t. rewrite <- Hy.
      rewrite MakeDay_in_year by lia.
      unfold t, LocalTime, msPerDay in *. lia. }
    repeat split; try assumption; try lia.
  - eexists. split; [apply endOf_year_closed; exact Hrep|].
    split; [apply TimeClip_invalid|].
    intros u Hu. apply TimeClip_valid in Hu. destruct Hu as [-> _].
    remember (DayFromYear y + 364 + leap_day y) as last eqn:Hlast.
    replace (LocalTime (constant_offset tza) (UTC (constant_offset tza) (year_end_local (LocalTime (constant_offset tza) tv))))
      with (last * msPerDay + MakeTime 23 59 59 999)
      by (unfold year_end_local; fold t; rewrite <- Hy;
          rewrite MakeDay_in_year by lia; unfold LocalTime, UTC; lia).
    rewrite (TimeWithinDay_of_day _ _ He).
    destruct (date_of_day (last * msPerDay + MakeTime 23 59 59 999)
                y 11 (364 + leap_day y) ltac:(lia)) as (Ey & Em & Ed).
    { rewrite (Day_of_day _ _ He). lia. }
    { lia. }
    replace (last * msPerDay + MakeTime 23 59 59 999 + 1)
      with ((last + 1) * msPerDay + 0)
      by (unfold MakeTime, msPerDay; lia).
    rewrite (TimeWithinDay_of_day _ 0 H0).
    destruct (date_of_day ((last + 1) * msPerDay + 0) (y + 1) 0 0 ltac:(lia))
      as (A & B & C).
    { rewrite (Day_of_day _ 0 H0). rewrite DayFromYear_next, Hdays. lia. }
    { change (month_start 0 ?l) with 0. change (month_stop 0 ?l) with 31. lia. }
    split.
    { unfold UTC, year_end_local. fold t. rewrite <- Hy.
      rewrite MakeDay_in_year by lia. rewrite Hdec.
      unfold t, LocalTime, MakeTime, msPerDay in *. lia. }
    repeat split; try assumption; try lia.
Qed.

End PeriodBoundaries.

Section PeriodWitnesses.
Import JS DateHelper Spec.
Local Open Scope string_scope.
Local Open Scope Z_scope.

Lemma startOf_endOf_day_witness :
  representable 1762156800000
  /\ (
  let t := LocalTime (constant_offset 0) 1762156800000 in
  (exists r, startOf (constant_offset 0) (TimeValue 1762156800000) "day" = Return r
     /\ (r = InvalidDate <-> ~ representable (UTC (constant_offset 0) (day_start_local t)))
     /\ (forall u, r = TimeValue u ->
           u <= 1762156800000
           /\ Day (LocalTime (constant_offset 0) u) = Day t
           /\ TimeWithinDay (LocalTime (constant_offset 0) u) = 0
           /\ startOf (constant_offset 0) (TimeValue u) "day" = Return (TimeValue u)))
  /\ (exists r, endOf (constant_offset 0) (TimeValue 1762156800000) "day" = Return r
     /\ (r = InvalidDate <-> ~ representable (UTC (constant_offset 0) (day_end_local t)))
     /\ (forall u, r = TimeValue u ->
           1762156800000 <= u
           /\ Day (LocalTime (constant_offset 0) u) = Day t
           /\ TimeWithinDay (LocalTime (constant_offset 0) u) = MakeTime 23 59 59 999
           /\ endOf (constant_offset 0) (TimeValue u) "day" = Return (TimeValue u)))).
Proof.
  assert (H : representable 1762156800000)
    by (unfold representable, maxTime; lia).
  split; [exact H|].
  exact (startOf_endOf_day 0 1762156800000 H).
Defined.

Lemma startOf_endOf_month_witness :
  representable 1762156800000
  /\ (
  let t := LocalTime (constant_offset 0) 1762156800000 in
  (exists r, startOf (constant_offset 0) (TimeValue 1762156800000) "month" = Return r
     /\ (r = InvalidDate <-> ~ representable (UTC (constant_offset 0) (month_start_local t)))
     /\ (forall u, r = TimeValue u ->
           u <= 1762156800000
           /\ YearFromTime (LocalTime (constant_offset 0) u) = YearFromTime t
           /\ MonthFromTime (LocalTime (constant_offset 0) u) = MonthFromTime t
           /\ DateFromTime (LocalTime (constant_offset 0) u) = 1
           /\ TimeWithinDay (LocalTime (constant_offset 0) u) = 0))
  /\ (exists r, endOf (constant_offset 0) (TimeValue 1762156800000) "month" = Return r
     /\ (r = InvalidDate <-> ~ representable (UTC (constant_offset 0) (month_end_local t)))
     /\ (forall u, r = TimeValue u ->
           1762156800000 <= u
           /\ YearFromTime (LocalTime (constant_offset 0) u) = YearFromTime t
           /\ MonthFromTime (LocalTime (constant_offset 0) u) = MonthFromTime t
           /\ TimeWithinDay (LocalTime (constant_offset 0) u) = MakeTime 23 59 59 999
           /\ YearFromTime (LocalTime (constant_offset 0) u + 1)
              = YearFromTime t + (MonthFromTime t + 1) / 12
           /\ MonthFromTime (LocalTime (constant_offset 0) u + 1) = (MonthFromTime t + 1) mod 12
           /\ DateFromTime (LocalTime (constant_offset 0) u + 1) = 1
           /\ TimeWithinDay (LocalTime (constant_offset 0) u + 1) = 0))).
Proof.
  assert (H : representable 1762156800000)
    by (unfold representable, maxTime; lia).
  split; [exact H|].
  exact (startOf_endOf_month 0 1762156800000 H).
Defined.

Lemma startOf_endOf_year_witness :
  representable 1762156800000
  /\ (
  let t := LocalTime (constant_offset 0) 1762156800000 in
  (exists r, startOf (constant_offset 0) (TimeValue 1762156800000) "year" = Return r
     /\ (r = InvalidDate <-> ~ representable (UTC (constant_offset 0) (year_start_local t)))
     /\ (forall u, r = TimeValue u ->
           u <= 1762156800000
           /\ YearFromTime (LocalTime (constant_offset 0) u) = YearFromTime t
           /\ MonthFromTime (LocalTime (constant_offset 0) u) = 0
           /\ DateFromTime (LocalTime (constant_offset 0) u) = 1
           /\ TimeWithinDay (LocalTime (constant_offset 0) u) = 0))
  /\ (exists r, endOf (constant_offset 0) (TimeValue 1762156800000) "year" = Return r
     /\ (r = InvalidDate <-> ~ representable (UTC (constant_offset 0) (year_end_local t)))
     /\ (forall u, r = TimeValue u ->
           1762156800000 <= u
           /\ YearFromTime (LocalTime (constant_offset 0) u) = YearFromTime t
           /\ MonthFromTime (LocalTime (constant_offset 0) u) = 11
           /\ DateFromTime (LocalTime (constant_offset 0) u) = 31
           /\ TimeWithinDay (LocalTime (constant_offset 0) u) = MakeTime 23 59 59 999
           /\ YearFromTime (LocalTime (constant_offset 0) u + 1) = YearFromTime t + 1
           /\ MonthFromTime (LocalTime (constant_offset 0) u + 1) = 0
           /\ DateFromTime (LocalTime (constant_offset 0) u + 1) = 1
           /\ TimeWithinDay (LocalTime (constant_offset 0) u + 1) = 0))).
Proof.
  assert (H : representable 1762156800000)
    by (unfold representable, maxTime; lia).
  split; [exact H|].
  exact (startOf_endOf_year 0 1762156800000 H).
Defined.

Lemma week_brackets_date_witness :
  representable 1762156800000
  /\ (
  let t := LocalTime (constant_offset 0) 1762156800000 in
  representable (UTC (constant_offset 0) (week_start_local t))
  /\ representable (UTC (constant_offset 0) (week_end_local t))
  /\
  exists a b,
    startOf (constant_offset 0) (TimeValue 1762156800000) "week" = Return (TimeValue a)
    /\ endOf (constant_offset 0) (TimeValue 1762156800000) "week" = Return (TimeValue b)
    /\ a <= 1762156800000 <= b
    /\ b - a = 7 * msPerDay - 1
    /\ startOf (constant_offset 0) (TimeValue a) "week" = Return (TimeValue a)
    /\ startOf (constant_offset 0) (TimeValue b) "week" = Return (TimeValue a)
    /\ endOf (constant_offset 0) (TimeValue a) "week" = Return (TimeValue b)).
Proof.
  assert (H : representable 1762156800000)
    by (unfold representable, maxTime; lia).
  assert (Hs : representable
                 (UTC (constant_offset 0) (week_start_local (LocalTime (constant_offset 0) 1762156800000))))
    by (apply Z.leb_le; vm_compute; reflexivity).
  assert (He : representable
                 (UTC (constant_offset 0) (week_end_local (LocalTime (constant_offset 0) 1762156800000))))
    by (apply Z.leb_le; vm_compute; reflexivity).
  split; [exact H|]. split; [exact Hs|]. split; [exact He|].
  exact (week_brackets_date 0 1762156800000 H Hs He).
Defined.


End PeriodWitnesses.

(* ================================================================== *)
(** * More on isValidCreditCard and isValidISBN *)
(* ================================================================== *)

Section Checksums.
Import JS ValidationHelper Spec JSFacts.
Local Open Scope string_scope.
Local Open Scope Z_scope.

Lemma char_at_middle (a b : string) (c : ascii) :
  char_at (a ++ String c b) (String.length a) = Some c.
Proof.
  unfold char_at. induction a as [|x a IH]; simpl; [reflexivity|exact IH].
Qed.

Lemma char_at_after (a b : string) (c c' : ascii) (i : nat) :
  i <> String.length a ->
  char_at (a ++ String c b) i = char_at (a ++ String c' b) i.
Proof.
  unfold char_at. revert i. induction a as [|x a IH]; simpl; intros i Hi.
  - destruct i; [contradiction|reflexivity].
  - destruct i; [reflexivity|]. apply IH. lia.
Qed.

Lemma all_digits_app (a b : string) :
  all_digits (a ++ b) = all_digits a && all_digits b.
Proof.
  induction a as [|x a IH]; simpl; [reflexivity|].
  now rewrite IH, andb_assoc.
Qed.

Lemma append_middle (a b : string) (c : ascii) :
  (a ++ String c EmptyString) ++ b = a ++ String c b.
Proof. induction a as [|x a IH]; simpl; [reflexivity|now rewrite IH]. Qed.

Lemma append_assoc (a b c : string) : (a ++ b) ++ c = a ++ b ++ c.
Proof. induction a as [|x a IH]; simpl; [reflexivity|now rewrite IH]. Qed.

(** ** The Luhn checksum of [isValidCreditCard] *)

(** What a digit adds to the Luhn sum, doubled or not. *)
Lemma luhn_digit (isEven : bool) (c : ascii) :
  is_digit c = true ->
  (let digit := parseInt_char (Some c) in
   if isEven then
     let digit := mul digit (Int 2) in
     if gt digit (Int 9) then sub digit (Int 9) else digit
   else digit)
  = Int (luhn_term isEven (digit_value c)).
Proof.
  intros Hc. cbn [parseInt_char]. rewrite Hc. cbv zeta.
  destruct isEven; [|reflexivity].
  rewrite mul_Int. unfold gt. rewrite lt_Int, sub_Int. unfold luhn_term.
  destruct (Z.ltb_spec 9 (digit_value c * 2)); reflexivity.
Qed.

Lemma luhn_loop_step (digits : string) (i : nat) (sum : Z) (isEven : bool)
    (c : ascii) :
  char_at digits i = Some c -> is_digit c = true ->
  luhn_loop digits (S i) (Int sum) isEven
  = luhn_loop digits i (Int (sum + luhn_term isEven (digit_value c)))
              (negb isEven).
Proof.
  intros Hi Hc. cbn [luhn_loop]. rewrite Hi.
  pose proof (luhn_digit isEven c Hc) as E. cbv zeta in E. rewrite E.
  now rewrite add_Int.
Qed.

(** The Luhn sum with one digit singled out: the rest of the sum does not
    depend on that digit. *)
Lemma luhn_loop_split (a b : string) :
  all_digits a = true -> all_digits b = true ->
  forall (k : nat) (isEven : bool),
  (k <= String.length (a ++ String "0" b))%nat ->
  exists total, forall (c : ascii) (sum : Z),
    is_digit c = true ->
    luhn_loop (a ++ String c b) k (Int sum) isEven
    = Int (sum + total
           + if (String.length a <? k)%nat
             then luhn_term (luhn_flag k isEven (String.length a))
                            (digit_value c)
             else 0).
Proof.
  intros Ha Hb. induction k as [|i IH]; intros isEven Hk.
  - exists 0. intros c sum _. cbn [luhn_loop]. f_equal. cbn. lia.
  - destruct (IH (negb isEven) ltac:(lia)) as [total Ht].
    destruct (Nat.eq_dec i (String.length a)) as [->|Hne].
    + exists total. intros c sum Hc.
      rewrite (luhn_loop_step _ _ _ _ c (char_at_middle a b c) Hc), (Ht c _ Hc).
      rewrite Nat.ltb_irrefl.
      replace (String.length a <? S (String.length a))%nat with true
        by (symmetry; apply Nat.ltb_lt; lia).
      unfold luhn_flag.
      replace (S (String.length a) - 1 - String.length a)%nat with 0%nat by lia.
      cbn [Nat.even]. f_equal. lia.
    + assert (Hall : all_digits (a ++ String "0" b) = true).
      { rewrite all_digits_app, Ha. cbn [all_digits]. now rewrite Hb. }
      destruct (char_at_digit _ Hall i ltac:(lia)) as (d & Hd & Hdig).
      exists (luhn_term isEven (digit_value d) + total).
      intros c sum Hc.
      rewrite <- (char_at_after a b c "0" i Hne) in Hd.
      rewrite (luhn_loop_step _ _ _ _ d Hd Hdig), (Ht c _ Hc).
      destruct (Nat.ltb_spec (String.length a) i) as [Hlt|Hge].
      * replace (String.length a <? S i)%nat with true
          by (symmetry; apply Nat.ltb_lt; lia).
        unfold luhn_flag.
        replace (S i - 1 - String.length a)%nat
          with (S (i - 1 - String.length a))%nat by lia.
        rewrite Nat.even_succ, <- Nat.negb_even.
        destruct (Nat.even (i - 1 - String.length a)), isEven; cbn [negb];
          f_equal; lia.
      * replace (String.length a <? S i)%nat with false
          by (symmetry; apply Nat.ltb_ge; lia).
        f_equal. lia.
Qed.

Lemma luhn_term_zero (doubled : bool) : luhn_term doubled 0 = 0.
Proof. now destruct doubled. Qed.

(** The Luhn sum of the whole string with two neighbouring digits singled
    out: one of them is doubled, the other is not. *)
Lemma luhn_loop_pair (a b : string) :
  all_digits a = true -> all_digits b = true ->
  exists total doubled, forall (c d : ascii),
    is_digit c = true -> is_digit d = true ->
    luhn_loop (a ++ String c (String d b))
              (String.length (a ++ String c (String d b))) (Int 0) false
    = Int (total + luhn_term doubled (digit_value c)
                 + luhn_term (negb doubled) (digit_value d)).
Proof.
  intros Ha Hb.
  set (n := String.length (a ++ String "0" (String "0" b))).
  assert (Hn : forall c d, String.length (a ++ String c (String d b)) = n).
  { intros c d. unfold n. rewrite !length_append. reflexivity. }
  assert (Hlen : n = (String.length a + 2 + String.length b)%nat).
  { unfold n. rewrite length_append. cbn [String.length]. lia. }
  (* the sum as a function of the second digit, the first being 0 *)
  destruct (luhn_loop_split (a ++ String "0" EmptyString) b) with
    (k := n) (isEven := false) as [total Ht]; [| exact Hb | |].
  { rewrite all_digits_app, Ha. reflexivity. }
  { rewrite append_middle. unfold n. lia. }
  exists total, (luhn_flag n false (String.length a)).
  intros c d Hc Hd. rewrite Hn.
  (* the sum as a function of the first digit *)
  destruct (luhn_loop_split a (String d b)) with
    (k := n) (isEven := false) as [total' Ht'];
    [exact Ha | cbn [all_digits]; now rewrite Hd, Hb | |].
  { rewrite <- (Hn "0"%char d). lia. }
  rewrite (Ht' c 0 Hc).
  pose proof (Ht' "0"%char 0 eq_refl) as E0.
  rewrite <- append_middle, (Ht d 0 Hd) in E0.
  rewrite length_append in E0. cbn [String.length] in E0.
  replace (String.length a <? n)%nat with true in *
    by (symmetry; apply Nat.ltb_lt; lia).
  replace (String.length a + 1 <? n)%nat with true in *
    by (symmetry; apply Nat.ltb_lt; lia).
  change (digit_value "0") with 0 in E0. rewrite luhn_term_zero in E0.
  injection E0 as E0.
  assert (Hflag : luhn_flag n false (String.length a + 1)
                  = negb (luhn_flag n false (String.length a))).
  { unfold luhn_flag.
    replace (n - 1 - String.length a)%nat
      with (S (n - 1 - (String.length a + 1)))%nat by lia.
    rewrite Nat.even_succ, <- Nat.negb_even.
    now destruct (Nat.even _). }
  rewrite Hflag in E0. f_equal. lia.
Qed.

(** The result of [isValidCreditCard] on a string whose digits are known. *)
Lemma isValidCreditCard_valid (cardNumber digits : string) :
  str_filter is_digit cardNumber = digits ->
  valid (isValidCreditCard cardNumber)
  = if (String.length digits <? 13)%nat || (19 <? String.length digits)%nat
    then false
    else strict_eq
           (rem (luhn_loop digits (String.length digits) (Int 0) false)
                (Int 10))
           (Int 0).
Proof.
  intros <-. unfold isValidCreditCard.
  now destruct (_ || _).
Qed.

Lemma filter_around (a b : string) (c : ascii) :
  is_digit c = true ->
  str_filter is_digit (a ++ String c b)
  = str_filter is_digit a ++ String c (str_filter is_digit b).
Proof.
  intros Hc. rewrite str_filter_app. cbn [str_filter]. now rewrite Hc.
Qed.

Lemma luhn_term_range (doubled : bool) (d : Z) :
  0 <= d <= 9 -> 0 <= luhn_term doubled d <= 9.
Proof.
  intros Hd. unfold luhn_term. destruct doubled; [|lia].
  destruct (Z.ltb_spec 9 (d * 2)); lia.
Qed.

Lemma luhn_term_inj (doubled : bool) (d d' : Z) :
  0 <= d <= 9 -> 0 <= d' <= 9 ->
  luhn_term doubled d = luhn_term doubled d' -> d = d'.
Proof.
  intros Hd Hd'. unfold luhn_term. destruct doubled; [|lia].
  destruct (Z.ltb_spec 9 (d * 2)), (Z.ltb_spec 9 (d' * 2)); lia.
Qed.

Lemma rem10_zero (x : Z) :
  strict_eq (rem (Int x) (Int 10)) (Int 0) = true <-> (10 | x).
Proof.
  rewrite rem_Int, strict_eq_Int by lia. rewrite Z.eqb_eq.
  apply Z.rem_divide. lia.
Qed.

(** X8: the Luhn checksum catches every single wrong digit: when a card
    number is valid, replacing one of its digits by a different digit,
    at any position and whatever separators the number is written with,
    gives a number that is not valid. *)
Theorem luhn_detects_wrong_digit (a b : string) (c c' : ascii) :
  is_digit c = true -> is_digit c' = true -> c' <> c ->
  valid (isValidCreditCard (a ++ String c b)) = true ->
  valid (isValidCreditCard (a ++ String c' b)) = false.
Proof.
  intros Hc Hc' Hne.
  rewrite (isValidCreditCard_valid _ _ (filter_around a b c Hc)).
  rewrite (isValidCreditCard_valid _ _ (filter_around a b c' Hc')).
  set (fa := str_filter is_digit a). set (fb := str_filter is_digit b).
  assert (Hl : String.length (fa ++ String c' fb)
               = String.length (fa ++ String c fb))
    by (rewrite !length_append; reflexivity).
  rewrite Hl.
  destruct (_ || _); [discriminate|].
  destruct (luhn_loop_split fa fb (all_digits_filter a) (all_digits_filter b)
              (String.length (fa ++ String c fb)) false) as [total Ht].
  { rewrite !length_append. cbn [String.length]. lia. }
  rewrite <- Hl at 1. rewrite Hl.
  rewrite (Ht c 0 Hc), (Ht c' 0 Hc').
  intros Hv. apply rem10_zero in Hv.
  apply not_true_is_false. intros Hv'. apply rem10_zero in Hv'.
  destruct (String.length fa <? String.length (fa ++ String c fb))%nat eqn:E.
  - set (f := luhn_flag _ _ _) in *.
    pose proof (is_digit_value c Hc) as Rc.
    pose proof (is_digit_value c' Hc') as Rc'.
    pose proof (luhn_term_range f _ Rc) as Tc.
    pose proof (luhn_term_range f _ Rc') as Tc'.
    destruct Hv as [k Hk], Hv' as [k' Hk'].
    assert (Et : luhn_term f (digit_value c) = luhn_term f (digit_value c'))
      by lia.
    apply luhn_term_inj in Et; [|assumption..].
    apply Hne. symmetry. now apply digit_value_inj.
  - apply Nat.ltb_ge in E. rewrite length_append in E.
    cbn [String.length] in E. lia.
Qed.

(** X9: swapping two neighbouring digits of a valid card number leaves it
    valid in two cases only: the digits are equal, or they are 0 and 9.
    Every other swap is caught. *)
Theorem luhn_neighbour_swap (a b : string) (c d : ascii) :
  is_digit c = true -> is_digit d = true ->
  valid (isValidCreditCard (a ++ String c (String d b))) = true ->
  (valid (isValidCreditCard (a ++ String d (String c b))) = true
   <-> c = d \/ (c = "0"%char /\ d = "9"%char)
       \/ (c = "9"%char /\ d = "0"%char)).
Proof.
  intros Hc Hd.
  assert (Hf : forall x y, is_digit x = true -> is_digit y = true ->
            str_filter is_digit (a ++ String x (String y b))
            = str_filter is_digit a
              ++ String x (String y (str_filter is_digit b))).
  { intros x y Hx Hy. rewrite str_filter_app. cbn [str_filter].
    now rewrite Hx, Hy. }
  rewrite (isValidCreditCard_valid _ _ (Hf c d Hc Hd)).
  rewrite (isValidCreditCard_valid _ _ (Hf d c Hd Hc)).
  set (fa := str_filter is_digit a). set (fb := str_filter is_digit b).
  assert (Hl : String.length (fa ++ String d (String c fb))
               = String.length (fa ++ String c (String d fb)))
    by (rewrite !length_append; reflexivity).
  destruct (luhn_loop_pair fa fb (all_digits_filter a) (all_digits_filter b))
    as (total & f & Ht).
  rewrite (Ht c d Hc Hd), (Ht d c Hd Hc), Hl.
  destruct (_ || _); [discriminate|].
  pose proof (is_digit_value c Hc) as Rc.
  pose proof (is_digit_value d Hd) as Rd.
  intros Hv. apply rem10_zero in Hv. rewrite rem10_zero.
  destruct Hv as [k Hk].
  assert (Hzero : forall x, digit_value x = 0 -> x = "0"%char)
    by (intros x Hx; now apply digit_value_inj).
  assert (Hnine : forall x, digit_value x = 9 -> x = "9"%char)
    by (intros x Hx; now apply digit_value_inj).
  split.
  - intros [k' Hk'].
    assert (H : digit_value c = digit_value d
                \/ (digit_value c = 0 /\ digit_value d = 9)
                \/ (digit_value c = 9 /\ digit_value d = 0)).
    { unfold luhn_term in Hk, Hk'. destruct f; cbn [negb] in Hk, Hk';
        destruct (Z.ltb_spec 9 (digit_value c * 2)),
                 (Z.ltb_spec 9 (digit_value d * 2)); lia. }
    destruct H as [H|[[H1 H2]|[H1 H2]]].
    + left. now apply digit_value_inj.
    + right. left. split; [now apply Hzero|now apply Hnine].
    + right. right. split; [now apply Hnine|now apply Hzero].
  - intros [->|[[-> ->]|[-> ->]]].
    + now exists k.
    + exists k. rewrite <- Hk.
      change (digit_value "0") with 0. change (digit_value "9") with 9.
      destruct f; cbn [negb]; change (luhn_term true 9) with 9;
        change (luhn_term true 0) with 0; unfold luhn_term; lia.
    + exists k. rewrite <- Hk.
      change (digit_value "0") with 0. change (digit_value "9") with 9.
      destruct f; cbn [negb]; change (luhn_term true 9) with 9;
        change (luhn_term true 0) with 0; unfold luhn_term; lia.
Qed.

(** ** The weighted sums of [isValidISBN] *)

Section Weights.
Variable weight : nat -> number.
Variable wz : nat -> Z.
Hypothesis weight_Int : forall i, weight i = Int (wz i).

(** A weighted sum over digits with one digit singled out: the rest of
    the sum does not depend on that digit, nor on what follows the
    digits read. *)
Lemma weighted_sum_split (a b : string) :
  all_digits a = true -> all_digits b = true ->
  forall n : nat, (n <= String.length a + 1 + String.length b)%nat ->
  exists total,
    ((forall i, (i < n)%nat -> 0 <= wz i) -> 0 <= total)
    /\ forall (c : ascii) (tail : string), is_digit c = true ->
       weighted_sum weight (a ++ String c (b ++ tail)) n
       = Int (total + if (String.length a <? n)%nat
                      then digit_value c * wz (String.length a) else 0).
Proof.
  intros Ha Hb. induction n as [|i IH]; intros Hn.
  - exists 0. split; [lia|]. intros c tail _. reflexivity.
  - destruct IH as (total & Hpos & Ht); [lia|].
    destruct (Nat.eq_dec i (String.length a)) as [->|Hne].
    + exists total. split; [intros H; apply Hpos; intros j Hj; apply H; lia|].
      intros c tail Hc. cbn [weighted_sum].
      rewrite (Ht c tail Hc), char_at_middle. cbn [parseInt_char]. rewrite Hc.
      rewrite weight_Int, mul_Int, add_Int, Nat.ltb_irrefl.
      replace (String.length a <? S (String.length a))%nat with true
        by (symmetry; apply Nat.ltb_lt; lia).
      f_equal. lia.
    + assert (Hall : all_digits (a ++ String "0" b) = true).
      { rewrite all_digits_app, Ha. cbn [all_digits]. now rewrite Hb. }
      destruct (char_at_digit _ Hall i) as (d & Hd & Hdig).
      { rewrite length_append. cbn [String.length]. lia. }
      exists (total + digit_value d * wz i). split.
      { intros H. pose proof (is_digit_value d Hdig).
        assert (0 <= total) by (apply Hpos; intros j Hj; apply H; lia).
        assert (0 <= wz i) by (apply H; lia). nia. }
      intros c tail Hc. cbn [weighted_sum].
      rewrite (Ht c tail Hc), (char_at_after a _ c "0" i Hne).
      replace (a ++ String "0" (b ++ tail)) with ((a ++ String "0" b) ++ tail)
        by (rewrite append_assoc; reflexivity).
      rewrite char_at_app, Hd
        by (rewrite length_append; cbn [String.length]; lia).
      cbn [parseInt_char]. rewrite Hdig.
      rewrite weight_Int, mul_Int, add_Int.
      destruct (Nat.ltb_spec (String.length a) i).
      * replace (String.length a <? S i)%nat with true
          by (symmetry; apply Nat.ltb_lt; lia).
        f_equal. lia.
      * replace (String.length a <? S i)%nat with false
          by (symmetry; apply Nat.ltb_ge; lia).
        f_equal. lia.
Qed.

(** The same with two neighbouring digits singled out. *)
Lemma weighted_sum_pair (a b : string) (n : nat) :
  all_digits a = true -> all_digits b = true ->
  (String.length a + 2 <= n <= String.length a + 2 + String.length b)%nat ->
  exists total, forall (c d : ascii) (tail : string),
    is_digit c = true -> is_digit d = true ->
    weighted_sum weight (a ++ String c (String d (b ++ tail))) n
    = Int (total + digit_value c * wz (String.length a)
                 + digit_value d * wz (String.length a + 1)).
Proof.
  intros Ha Hb Hn.
  destruct (weighted_sum_split (a ++ String "0" EmptyString) b)
    with (n := n) as (total & _ & Ht); [| exact Hb | |].
  { rewrite all_digits_app, Ha. reflexivity. }
  { rewrite length_append. cbn [String.length]. lia. }
  exists total. intros c d tail Hc Hd.
  destruct (weighted_sum_split a (String d b)) with (n := n)
    as (total' & _ & Ht');
    [exact Ha | cbn [all_digits]; now rewrite Hd, Hb
     | cbn [String.length]; lia |].
  pose proof (Ht' c tail Hc) as Ec. cbn [append] in Ec. rewrite Ec.
  pose proof (Ht' "0"%char tail eq_refl) as E0. cbn [append] in E0.
  rewrite <- append_middle, (Ht d tail Hd) in E0.
  rewrite length_append in E0. cbn [String.length] in E0.
  replace (String.length a <? n)%nat with true in *
    by (symmetry; apply Nat.ltb_lt; lia).
  replace (String.length a + 1 <? n)%nat with true in *
    by (symmetry; apply Nat.ltb_lt; lia).
  change (digit_value "0") with 0 in E0.
  injection E0 as E0. f_equal. lia.
Qed.

End Weights.

Lemma isbn10_weight_Int (i : nat) :
  isbn10_weight i = Int (10 - Z.of_nat i).
Proof. unfold isbn10_weight. now rewrite sub_Int. Qed.

Lemma isbn13_weight_Int (i : nat) :
  isbn13_weight i = Int (if Nat.even i then 1 else 3).
Proof.
  unfold isbn13_weight. rewrite rem_Int, strict_eq_Int by lia.
  replace (Z.rem (Z.of_nat i) 2 =? 0) with (Nat.even i); [now destruct (Nat.even i)|].
  rewrite Z.rem_mod_nonneg by lia.
  destruct (Nat.even i) eqn:E; symmetry.
  - apply Z.eqb_eq. apply Nat.even_spec in E. destruct E as [k ->].
    rewrite Nat2Z.inj_mul, Z.mul_comm. apply Z.mod_mul. lia.
  - apply Z.eqb_neq. intros H.
    apply Z.mod_divide in H; [|lia]. destruct H as [k Hk].
    assert (Ei : i = (2 * Z.to_nat k)%nat) by lia.
    rewrite Ei in E. rewrite Nat.even_mul in E. discriminate E.
Qed.

Lemma rem11_zero (x : Z) :
  strict_eq (rem (Int x) (Int 11)) (Int 0) = true <-> (11 | x).
Proof.
  rewrite rem_Int, strict_eq_Int by lia. rewrite Z.eqb_eq.
  apply Z.rem_divide. lia.
Qed.

Lemma isbn10_body_keep (body : string) (x : ascii) :
  isbn10_form body x -> isbn_keep x = true.
Proof.
  intros (_ & _ & [Hx| ->]); [now apply is_digit_keep|reflexivity].
Qed.

(** X10: ISBN-10 catches every single wrong digit among the first nine:
    when a ten-character ISBN is valid, replacing one of its first nine
    digits by a different digit gives one that is not valid. *)
Theorem isbn10_detects_wrong_digit (a b : string) (c c' x : ascii) :
  isbn10_form (a ++ String c b) x ->
  is_digit c' = true -> c' <> c ->
  valid (isValidISBN ((a ++ String c b) ++ String x EmptyString)) = true ->
  valid (isValidISBN ((a ++ String c' b) ++ String x EmptyString)) = false.
Proof.
  intros Hform Hc' Hne.
  pose proof (isbn10_body_keep _ _ Hform) as Hkeep.
  destruct Hform as (Hlen & Hd & Hx).
  rewrite all_digits_app in Hd. cbn [all_digits] in Hd.
  apply andb_prop in Hd. destruct Hd as [Ha Hd].
  apply andb_prop in Hd. destruct Hd as [Hc Hb].
  rewrite length_append in Hlen. cbn [String.length] in Hlen.
  assert (Hd1 : all_digits (a ++ String c b) = true)
    by (rewrite all_digits_app, Ha; cbn [all_digits]; now rewrite Hc, Hb).
  assert (Hd2 : all_digits (a ++ String c' b) = true)
    by (rewrite all_digits_app, Ha; cbn [all_digits]; now rewrite Hc', Hb).
  rewrite isValidISBN_ten
    by (try assumption; rewrite length_append; cbn [String.length]; lia).
  rewrite (isValidISBN_ten (a ++ String c' b))
    by (try assumption; rewrite length_append; cbn [String.length]; lia).
  cbn [valid].
  destruct (weighted_sum_split isbn10_weight _ isbn10_weight_Int
              a b Ha Hb 9 ltac:(lia))
    as (total & _ & Ht).
  rewrite !append_assoc. cbn [append].
  rewrite (Ht c _ Hc), (Ht c' _ Hc').
  replace (String.length a <? 9)%nat with true
    by (symmetry; apply Nat.ltb_lt; lia).
  destruct (check_value x Hx) as (v & Hv & -> & _).
  rewrite !add_Int. intros Hv1. apply rem11_zero in Hv1.
  apply not_true_is_false. intros Hv2. apply rem11_zero in Hv2.
  pose proof (is_digit_value c Hc). pose proof (is_digit_value c' Hc').
  assert (digit_value c' <> digit_value c)
    by (intros E; apply Hne; now apply digit_value_inj).
  destruct Hv1 as [k1 Hk1], Hv2 as [k2 Hk2].
  remember (10 - Z.of_nat (String.length a)) as w eqn:Ew.
  assert (Hw : w = 1 \/ w = 2 \/ w = 3 \/ w = 4 \/ w = 5 \/ w = 6 \/ w = 7
               \/ w = 8 \/ w = 9 \/ w = 10) by lia.
  clear Ew. repeat (destruct Hw as [Hw|Hw]); subst w; lia.
Qed.

(** X11: ISBN-10 catches every swap of two neighbouring digits among the
    first nine: a valid ISBN stays valid under the swap only when the two
    digits are equal. *)
Theorem isbn10_detects_neighbour_swap (a b : string) (c d x : ascii) :
  isbn10_form (a ++ String c (String d b)) x ->
  c <> d ->
  valid (isValidISBN ((a ++ String c (String d b)) ++ String x EmptyString))
  = true ->
  valid (isValidISBN ((a ++ String d (String c b)) ++ String x EmptyString))
  = false.
Proof.
  intros Hform Hne.
  pose proof (isbn10_body_keep _ _ Hform) as Hkeep.
  destruct Hform as (Hlen & Hd & Hx).
  rewrite all_digits_app in Hd. cbn [all_digits] in Hd.
  apply andb_prop in Hd. destruct Hd as [Ha Hd].
  apply andb_prop in Hd. destruct Hd as [Hc Hd].
  apply andb_prop in Hd. destruct Hd as [Hd Hb].
  rewrite length_append in Hlen. cbn [String.length] in Hlen.
  assert (Hd1 : all_digits (a ++ String c (String d b)) = true)
    by (rewrite all_digits_app, Ha; cbn [all_digits]; now rewrite Hc, Hd, Hb).
  assert (Hd2 : all_digits (a ++ String d (String c b)) = true)
    by (rewrite all_digits_app, Ha; cbn [all_digits]; now rewrite Hc, Hd, Hb).
  rewrite isValidISBN_ten
    by (try assumption; rewrite length_append; cbn [String.length]; lia).
  rewrite (isValidISBN_ten (a ++ String d (String c b)))
    by (try assumption; rewrite length_append; cbn [String.length]; lia).
  cbn [valid].
  destruct (weighted_sum_pair isbn10_weight _ isbn10_weight_Int
              a b 9 Ha Hb ltac:(lia))
    as (total & Ht).
  rewrite !append_assoc. cbn [append].
  rewrite (Ht c d _ Hc Hd), (Ht d c _ Hd Hc).
  destruct (check_value x Hx) as (v & Hv & -> & _).
  rewrite !add_Int. intros Hv1. apply rem11_zero in Hv1.
  apply not_true_is_false. intros Hv2. apply rem11_zero in Hv2.
  pose proof (is_digit_value c Hc). pose proof (is_digit_value d Hd).
  assert (digit_value c <> digit_value d)
    by (intros E; apply Hne; now apply digit_value_inj).
  destruct Hv1 as [k1 Hk1], Hv2 as [k2 Hk2]. lia.
Qed.

(** [isValidISBN] on twelve digits followed by one more character. *)
Lemma isValidISBN_thirteen (body : string) (x : ascii) :
  String.length body = 12%nat -> all_digits body = true ->
  isbn_keep x = true ->
  isValidISBN (body ++ String x EmptyString)
  = {| valid :=
         strict_eq
           (rem (sub (Int 10)
                     (rem (weighted_sum isbn13_weight
                             (body ++ String x EmptyString) 12) (Int 10)))
                (Int 10))
           (parseInt_char (Some x));
       type := Some "ISBN-13" |}.
Proof.
  intros Hlen Hd Hkeep.
  assert (Hlast : char_at (body ++ String x EmptyString) 12 = Some x)
    by (rewrite <- Hlen; apply char_at_last).
  unfold isValidISBN.
  rewrite str_filter_app, (str_filter_digits body Hd).
  cbn [str_filter]. rewrite Hkeep.
  rewrite length_append, Hlen. cbn [String.length Nat.add Nat.eqb].
  rewrite Hlast. reflexivity.
Qed.

Lemma isValidISBN_twelve (body : string) (x : ascii) :
  String.length body = 12%nat -> all_digits body = true ->
  isbn_keep x = false ->
  isValidISBN (body ++ String x EmptyString)
  = {| valid := false; type := None |}.
Proof.
  intros Hlen Hd Hkeep. unfold isValidISBN.
  rewrite str_filter_app, (str_filter_digits body Hd).
  cbn [str_filter]. rewrite Hkeep.
  rewrite length_append, Hlen. reflexivity.
Qed.

(** The check digit the code computes from the sum [s], in terms of
    divisibility. *)
Lemma isbn13_check_spec (s v : Z) :
  0 <= s -> 0 <= v <= 9 ->
  (strict_eq (rem (sub (Int 10) (rem (Int s) (Int 10))) (Int 10)) (Int v) = true
   <-> (10 | s + v)).
Proof.
  intros Hs Hv.
  rewrite rem_Int, sub_Int, rem_Int, strict_eq_Int by lia.
  rewrite Z.eqb_eq.
  rewrite (Z.rem_mod_nonneg s 10) by lia.
  pose proof (Z.mod_pos_bound s 10 ltac:(lia)) as Hr.
  rewrite Z.rem_mod_nonneg by lia.
  pose proof (Z.div_mod s 10 ltac:(lia)) as Hs'.
  split.
  - intros H. exists (s / 10 + 1 - (10 - s mod 10) / 10).
    pose proof (Z.div_mod (10 - s mod 10) 10 ltac:(lia)). lia.
  - intros [k Hk].
    destruct (Z.eq_dec (s mod 10) 0) as [E|E].
    + rewrite E. change ((10 - 0) mod 10) with 0. lia.
    + rewrite Z.mod_small by lia. lia.
Qed.

Lemma digit_char (v : Z) :
  0 <= v <= 9 -> exists x, is_digit x = true /\ digit_value x = v.
Proof.
  intros Hv. exists (ascii_of_nat (Z.to_nat v + 48)).
  assert (H : v = 0 \/ v = 1 \/ v = 2 \/ v = 3 \/ v = 4 \/ v = 5 \/ v = 6
              \/ v = 7 \/ v = 8 \/ v = 9) by lia.
  repeat (destruct H as [H|H]); subst v; split; reflexivity.
Qed.

Lemma isbn13_sum (body : string) :
  String.length body = 12%nat -> all_digits body = true ->
  exists s, 0 <= s /\ forall tail,
    weighted_sum isbn13_weight (body ++ tail) 12 = Int s.
Proof.
  intros Hlen Hd. destruct body as [|c b]; [discriminate|].
  cbn [all_digits] in Hd. apply andb_prop in Hd. destruct Hd as [Hc Hb].
  cbn [String.length] in Hlen.
  pose proof (is_digit_value c Hc) as Rc.
  destruct (weighted_sum_split isbn13_weight _ isbn13_weight_Int
              EmptyString b eq_refl Hb 12 ltac:(cbn [String.length]; lia))
    as (total & Hpos & Ht).
  assert (Htotal : 0 <= total)
    by (apply Hpos; intros i _; destruct (Nat.even i); lia).
  exists (total + digit_value c * 1). split; [lia|].
  intros tail. exact (Ht c tail Hc).
Qed.

(** X12: every twelve digits have exactly one ISBN-13 check character: a
    digit [x] such that the thirteen characters are valid with [x] in the
    last place and with no other character there. *)
Theorem isbn13_check_digit_unique (body : string) :
  String.length body = 12%nat -> all_digits body = true ->
  exists x, is_digit x = true
    /\ forall y, valid (isValidISBN (body ++ String y EmptyString)) = true
                 <-> y = x.
Proof.
  intros Hlen Hd. destruct (isbn13_sum body Hlen Hd) as (s & Hs & Hsum).
  assert (Hv : 0 <= (- s) mod 10 <= 9)
    by (pose proof (Z.mod_pos_bound (- s) 10 ltac:(lia)); lia).
  destruct (digit_char ((- s) mod 10) Hv) as (x & Hx & Ex).
  exists x. split; [exact Hx|]. intros y.
  destruct (isbn_keep y) eqn:Hkeep.
  - rewrite (isValidISBN_thirteen body y Hlen Hd Hkeep). cbn [valid].
    rewrite Hsum. cbn [parseInt_char].
    destruct (is_digit y) eqn:Hy.
    + pose proof (is_digit_value y Hy) as Ry.
      rewrite (isbn13_check_spec s (digit_value y) Hs Ry).
      pose proof (Z.div_mod (- s) 10 ltac:(lia)) as Hdm.
      split.
      * intros [k Hk]. apply digit_value_inj. lia.
      * intros ->. rewrite Ex. exists (- (- s / 10)). lia.
    + split; [|intros ->; congruence].
      destruct (rem _ _); discriminate.
  - rewrite (isValidISBN_twelve body y Hlen Hd Hkeep). cbn [valid].
    split; [discriminate|]. intros ->.
    rewrite (is_digit_keep x Hx) in Hkeep. discriminate.
Qed.

(** X13: ISBN-13 catches every single wrong digit among the first twelve:
    when a thirteen-character ISBN is valid, replacing one of its first
    twelve digits by a different digit gives one that is not valid. *)
Theorem isbn13_detects_wrong_digit (a b : string) (c c' x : ascii) :
  String.length (a ++ String c b) = 12%nat ->
  all_digits (a ++ String c b) = true ->
  is_digit c' = true -> c' <> c ->
  valid (isValidISBN ((a ++ String c b) ++ String x EmptyString)) = true ->
  valid (isValidISBN ((a ++ String c' b) ++ String x EmptyString)) = false.
Proof.
  intros Hlen Hd Hc' Hne.
  assert (Hlen' : String.length (a ++ String c' b) = 12%nat)
    by (rewrite length_append in *; exact Hlen).
  pose proof Hd as Hd1.
  rewrite all_digits_app in Hd. cbn [all_digits] in Hd.
  apply andb_prop in Hd. destruct Hd as [Ha Hd].
  apply andb_prop in Hd. destruct Hd as [Hc Hb].
  assert (Hd2 : all_digits (a ++ String c' b) = true)
    by (rewrite all_digits_app, Ha; cbn [all_digits]; now rewrite Hc', Hb).
  rewrite length_append in Hlen. cbn [String.length] in Hlen.
  destruct (isbn_keep x) eqn:Hkeep;
    [|rewrite (isValidISBN_twelve _ x Hlen' Hd2 Hkeep); reflexivity].
  rewrite isValidISBN_thirteen
    by (try assumption; rewrite length_append; cbn [String.length]; lia).
  rewrite (isValidISBN_thirteen (a ++ String c' b)) by assumption.
  cbn [valid parseInt_char].
  destruct (weighted_sum_split isbn13_weight _ isbn13_weight_Int
              a b Ha Hb 12 ltac:(lia))
    as (total & Hpos & Ht).
  assert (Htotal : 0 <= total)
    by (apply Hpos; intros i _; destruct (Nat.even i); lia).
  rewrite !append_assoc. cbn [append].
  rewrite (Ht c _ Hc), (Ht c' _ Hc').
  replace (String.length a <? 12)%nat with true
    by (symmetry; apply Nat.ltb_lt; lia).
  destruct (is_digit x) eqn:Hx;
    [|intros _; destruct (rem _ _); reflexivity].
  pose proof (is_digit_value c Hc). pose proof (is_digit_value c' Hc').
  pose proof (is_digit_value x Hx).
  assert (digit_value c' <> digit_value c)
    by (intros E; apply Hne; now apply digit_value_inj).
  intros Hv1.
  apply isbn13_check_spec in Hv1; [|destruct (Nat.even _); lia|lia].
  apply not_true_is_false. intros Hv2.
  apply isbn13_check_spec in Hv2; [|destruct (Nat.even _); lia|lia].
  destruct Hv1 as [k1 Hk1], Hv2 as [k2 Hk2].
  destruct (Nat.even _); lia.
Qed.

End Checksums.

Lemma luhn_detects_wrong_digit_witness :
  ValidationHelper.valid
    (ValidationHelper.isValidCreditCard "4111 1111 1111 1112") = false.
Proof.
  exact (luhn_detects_wrong_digit "4111 1111 1111 111" "" "1" "2"
           eq_refl eq_refl ltac:(discriminate) eq_refl).
Defined.

Lemma luhn_neighbour_swap_witness :
  ValidationHelper.valid
    (ValidationHelper.isValidCreditCard "1411111111111111") = true
  <-> "4"%char = "1"%char \/ ("4"%char = "0"%char /\ "1"%char = "9"%char)
      \/ ("4"%char = "9"%char /\ "1"%char = "0"%char).
Proof.
  exact (luhn_neighbour_swap "" "11111111111111" "4" "1"
           eq_refl eq_refl eq_refl).
Defined.

Lemma isbn10_detects_wrong_digit_witness :
  ValidationHelper.valid (ValidationHelper.isValidISBN "0306506152") = false.
Proof.
  exact (isbn10_detects_wrong_digit "0306" "0615" "4" "5" "2"
           (conj eq_refl (conj eq_refl (or_introl eq_refl)))
           eq_refl ltac:(discriminate) eq_refl).
Defined.

Lemma isbn10_detects_neighbour_swap_witness :
  ValidationHelper.valid (ValidationHelper.isValidISBN "0360406152") = false.
Proof.
  exact (isbn10_detects_neighbour_swap "03" "40615" "0" "6" "2"
           (conj eq_refl (conj eq_refl (or_introl eq_refl)))
           ltac:(discriminate) eq_refl).
Defined.

Lemma isbn13_check_digit_unique_witness :
  exists x, JS.is_digit x = true
    /\ forall y,
         ValidationHelper.valid
           (ValidationHelper.isValidISBN
              ("978030640615" ++ String y EmptyString)) = true
         <-> y = x.
Proof.
  exact (isbn13_check_digit_unique "978030640615" eq_refl eq_refl).
Defined.

Lemma isbn13_detects_wrong_digit_witness :
  ValidationHelper.valid (ValidationHelper.isValidISBN "9780306406167") = false.
Proof.
  exact (isbn13_detects_wrong_digit "97803064061" "" "5" "6" "7"
           eq_refl eq_refl eq_refl ltac:(discriminate) eq_refl).
Defined.

(* ================================================================== *)
(** * More on the array helper *)
(* ================================================================== *)

Section ArraySets.
Import JS ArrayHelper Spec.
Context {A K : Type} (eqbA : A -> A -> bool) (eqbK : K -> K -> bool).
Hypothesis eqbA_eq : forall x y, eqbA x y = true <-> x = y.
Hypothesis eqbK_eq : forall x y, eqbK x y = true <-> x = y.

Lemma filter_all {T : Type} (p : T -> bool) (l : list T) :
  (forall x, In x l -> p x = true) -> filter p l = l.
Proof.
  induction l as [|x l IH]; intros H; cbn [filter]; [reflexivity|].
  rewrite (H x (or_introl eq_refl)). f_equal. apply IH.
  intros y Hy. apply H. now right.
Qed.

Lemma filter_twice {T : Type} (p q : T -> bool) (l : list T) :
  filter p (filter q l) = filter (fun x => q x && p x) l.
Proof.
  induction l as [|x l IH]; cbn [filter]; [reflexivity|].
  destruct (q x); cbn [filter andb]; [destruct (p x)|]; now rewrite IH.
Qed.

Section OneEquality.
Context {T : Type} (eqb : T -> T -> bool).
Hypothesis eqb_eq : forall x y, eqb x y = true <-> x = y.

Lemma Set_has_In (set : list T) (x : T) : Set_has eqb set x = true <-> In x set.
Proof.
  unfold Set_has. rewrite existsb_exists. split.
  - intros (y & Hy & E). apply eqb_eq in E. now subst.
  - intros H. exists x. split; [exact H|]. now apply eqb_eq.
Qed.

Lemma Set_has_add (set : list T) (k x : T) :
  Set_has eqb (Set_add eqb set k) x = Set_has eqb set x || eqb x k.
Proof.
  unfold Set_add. destruct (Set_has eqb set k) eqn:Hk.
  - destruct (eqb x k) eqn:E; [|now rewrite orb_false_r].
    apply eqb_eq in E. subst. now rewrite Hk.
  - unfold Set_has. rewrite existsb_app. cbn [existsb].
    now rewrite orb_false_r.
Qed.

Lemma Set_has_fold (ks set : list T) (x : T) :
  Set_has eqb (fold_left (Set_add eqb) ks set) x
  = Set_has eqb set x || Set_has eqb ks x.
Proof.
  revert set. induction ks as [|k ks IH]; intros set; cbn [fold_left].
  - unfold Set_has at 3. cbn. now rewrite orb_false_r.
  - rewrite IH, Set_has_add. unfold Set_has at 4. cbn [existsb].
    fold (Set_has eqb ks x). now rewrite orb_assoc.
Qed.

Lemma Set_has_new (arr : list T) (x : T) :
  Set_has eqb (new_Set eqb arr) x = Set_has eqb arr x.
Proof. unfold new_Set. now rewrite Set_has_fold. Qed.

Context {I : Type} (keyFn : I -> T).

(** The filter of [unique] depends on the set [seen] through its members
    only. *)
Lemma unique_filter_ext (arr : list I) (seen seen' : list T) :
  (forall k, Set_has eqb seen k = Set_has eqb seen' k) ->
  unique_filter eqb keyFn seen arr = unique_filter eqb keyFn seen' arr.
Proof.
  revert seen seen'. induction arr as [|x rest IH]; intros seen seen' H;
    cbn [unique_filter]; [reflexivity|].
  rewrite <- H. destruct (Set_has eqb seen (keyFn x)); [now apply IH|].
  f_equal. apply IH. intros k. now rewrite !Set_has_add, H.
Qed.

(** A key seen before the filter starts removes the items of that key. *)
Lemma unique_filter_add (arr : list I) (seen : list T) (k : T) :
  unique_filter eqb keyFn (Set_add eqb seen k) arr
  = filter (fun y => negb (eqb (keyFn y) k)) (unique_filter eqb keyFn seen arr).
Proof.
  revert seen. induction arr as [|y rest IH]; intros seen;
    cbn [unique_filter]; [reflexivity|].
  rewrite Set_has_add.
  destruct (Set_has eqb seen (keyFn y)) eqn:Hs; cbn [orb].
  - apply IH.
  - destruct (eqb (keyFn y) k) eqn:E; cbn [filter]; rewrite E; cbn [negb].
    + apply eqb_eq in E. rewrite E, <- IH.
      apply unique_filter_ext. intros k'. rewrite !Set_has_add.
      now destruct (Set_has eqb seen k'), (eqb k' k).
    + f_equal. rewrite <- IH. apply unique_filter_ext. intros k'.
      rewrite !Set_has_add.
      now destruct (Set_has eqb seen k'), (eqb k' k), (eqb k' (keyFn y)).
Qed.

Lemma unique_filter_fold (arr : list I) (ks seen : list T) :
  unique_filter eqb keyFn (fold_left (Set_add eqb) ks seen) arr
  = filter (fun y => negb (Set_has eqb ks (keyFn y)))
           (unique_filter eqb keyFn seen arr).
Proof.
  revert seen. induction ks as [|k ks IH]; intros seen; cbn [fold_left].
  - symmetry. apply filter_all. intros y _. reflexivity.
  - rewrite IH, unique_filter_add, filter_twice.
    apply filter_ext. intros y. unfold Set_has at 2. cbn [existsb].
    fold (Set_has eqb ks (keyFn y)).
    now destruct (eqb (keyFn y) k), (Set_has eqb ks (keyFn y)).
Qed.

Lemma unique_filter_keys (arr : list I) (seen : list T) (k : T) :
  In k (map keyFn (unique_filter eqb keyFn seen arr))
  <-> In k (map keyFn arr) /\ ~ In k seen.
Proof.
  revert seen. induction arr as [|y rest IH]; intros seen;
    cbn [unique_filter map In]; [tauto|].
  destruct (Set_has eqb seen (keyFn y)) eqn:Hs.
  - apply Set_has_In in Hs. rewrite IH. split.
    + tauto.
    + intros [[E|H] Hn]; [subst; contradiction|tauto].
  - assert (Hn : ~ In (keyFn y) seen)
      by (rewrite <- Set_has_In, Hs; discriminate).
    cbn [map In]. rewrite IH. rewrite <- (Set_has_In (Set_add eqb seen (keyFn y))).
    rewrite Set_has_add, orb_true_iff, Set_has_In, eqb_eq. split.
    + intros [E|[H Hk]]; [subst; tauto|tauto].
    + intros [[E|H] Hk]; [now left|].
      destruct (eqb k (keyFn y)) eqn:E.
      * apply eqb_eq in E. now left.
      * right. split; [exact H|]. intros [H'|H']; [contradiction|].
        apply eqb_eq in H'. congruence.
Qed.

Lemma unique_filter_NoDup (arr : list I) (seen : list T) :
  NoDup (map keyFn (unique_filter eqb keyFn seen arr)).
Proof.
  revert seen. induction arr as [|y rest IH]; intros seen;
    cbn [unique_filter map]; [constructor|].
  destruct (Set_has eqb seen (keyFn y)) eqn:Hs; [apply IH|].
  cbn [map]. constructor; [|apply IH].
  rewrite unique_filter_keys. intros [_ Hn]. apply Hn.
  apply Set_has_In. rewrite Set_has_add, (proj2 (eqb_eq _ _) eq_refl).
  apply orb_true_r.
Qed.

End OneEquality.

Lemma unique_filter_NoDup_id {T I : Type} (eqb : T -> T -> bool) (keyFn : I -> T)
    (eqb_eq : forall x y, eqb x y = true <-> x = y)
    (arr : list I) (seen : list T) :
  NoDup (map keyFn arr) -> (forall x, In x arr -> ~ In (keyFn x) seen) ->
  unique_filter eqb keyFn seen arr = arr.
Proof.
  revert seen. induction arr as [|y rest IH]; intros seen Hnd Hseen;
    cbn [unique_filter]; [reflexivity|].
  cbn [map] in Hnd. inversion Hnd as [|? ? Hy Hrest]; subst.
  destruct (Set_has eqb seen (keyFn y)) eqn:Hs.
  - apply (Set_has_In eqb eqb_eq) in Hs.
    exfalso. exact (Hseen y (or_introl eq_refl) Hs).
  - f_equal. apply IH; [exact Hrest|].
    intros x Hx Hin.
    apply (Set_has_In eqb eqb_eq) in Hin.
    rewrite (Set_has_add eqb eqb_eq), orb_true_iff in Hin.
    destruct Hin as [Hin|Hin].
    + apply (Set_has_In eqb eqb_eq) in Hin.
      exact (Hseen x (or_intror Hx) Hin).
    + apply eqb_eq in Hin. apply Hy. rewrite <- Hin. now apply in_map.
Qed.

(** [new Set(arr)] from a set [seen] adds the first occurrences of the
    elements not yet in it. *)
Lemma fold_Set_add (arr seen : list A) :
  fold_left (Set_add eqbA) arr seen
  = seen ++ unique_filter eqbA (fun x => x) seen arr.
Proof.
  revert seen. induction arr as [|x rest IH]; intros seen;
    cbn [fold_left unique_filter]; [now rewrite app_nil_r|].
  rewrite IH. unfold Set_add.
  destruct (Set_has eqbA seen x) eqn:E; [reflexivity|].
  now rewrite <- app_assoc.
Qed.

(** X14: [unique] keeps the first item of each key, in the order of the
    array: the first element, then the unique items of the rest whose key
    differs from its key.  The keys of the result are distinct and are
    the keys of the array; without a key function the elements are their
    own keys; and [unique] of the result changes nothing. *)
Theorem unique_keeps_first_of_each_key (keyFn : A -> K) :
  (forall arr, unique eqbA eqbK arr None
               = unique eqbA eqbA arr (Some (fun x => x)))
  /\ (forall x rest,
        unique eqbA eqbK (x :: rest) (Some keyFn)
        = x :: filter (fun y => negb (eqbK (keyFn y) (keyFn x)))
                      (unique eqbA eqbK rest (Some keyFn)))
  /\ (forall arr,
        let result := unique eqbA eqbK arr (Some keyFn) in
        NoDup (map keyFn result)
        /\ (forall k, In k (map keyFn result) <-> In k (map keyFn arr))
        /\ unique eqbA eqbK result (Some keyFn) = result).
Proof.
  split; [|split].
  - intros arr. cbn [unique]. unfold new_Set. now rewrite fold_Set_add.
  - intros x rest. cbn [unique unique_filter Set_has existsb].
    now rewrite (unique_filter_add eqbK eqbK_eq).
  - intros arr result. unfold result. cbn [unique].
    split; [apply (unique_filter_NoDup eqbK eqbK_eq)|].
    split.
    + intros k. rewrite (unique_filter_keys eqbK eqbK_eq). cbn [In]. tauto.
    + apply (unique_filter_NoDup_id eqbK keyFn eqbK_eq).
      * apply (unique_filter_NoDup eqbK eqbK_eq).
      * intros x _ [].
Qed.

(** X15: [intersection] and [difference] split the first array by
    membership in the second, keeping its order and its repetitions:
    together they are a rearrangement of the first array. *)
Theorem intersection_difference_split (arr1 arr2 : list A) :
  intersection eqbA arr1 arr2 = filter (fun x => Set_has eqbA arr2 x) arr1
  /\ difference eqbA arr1 arr2
     = filter (fun x => negb (Set_has eqbA arr2 x)) arr1
  /\ (forall x, In x (intersection eqbA arr1 arr2) <-> In x arr1 /\ In x arr2)
  /\ (forall x, In x (difference eqbA arr1 arr2) <-> In x arr1 /\ ~ In x arr2)
  /\ Permutation (intersection eqbA arr1 arr2 ++ difference eqbA arr1 arr2)
                 arr1.
Proof.
  assert (Hi : intersection eqbA arr1 arr2
               = filter (fun x => Set_has eqbA arr2 x) arr1).
  { unfold intersection. apply filter_ext. intros x.
    apply (Set_has_new eqbA eqbA_eq). }
  assert (Hd : difference eqbA arr1 arr2
               = filter (fun x => negb (Set_has eqbA arr2 x)) arr1).
  { unfold difference. apply filter_ext. intros x.
    now rewrite (Set_has_new eqbA eqbA_eq). }
  split; [exact Hi|]. split; [exact Hd|]. rewrite Hi, Hd.
  split; [|split].
  - intros x. rewrite filter_In, (Set_has_In eqbA eqbA_eq). tauto.
  - intros x. rewrite filter_In, negb_true_iff.
    rewrite <- (Set_has_In eqbA eqbA_eq arr2 x).
    destruct (Set_has eqbA arr2 x); split; intros [H1 H2];
      (split; [exact H1|]); congruence.
  - clear Hi Hd. induction arr1 as [|x rest IH]; cbn [filter]; [constructor|].
    destruct (Set_has eqbA arr2 x); cbn [negb app].
    + now constructor.
    + symmetry. apply Permutation_cons_app. now symmetry.
Qed.

(** X16: [union] is the first array without its repetitions, followed by
    the elements of the second that are not in the first, without
    repetitions; it has no repetitions and holds the elements of both. *)
Theorem union_appends_new_elements (arr1 arr2 : list A) :
  union eqbA arr1 arr2
  = unique eqbA eqbA arr1 (@None (A -> A))
    ++ difference eqbA (unique eqbA eqbA arr2 (@None (A -> A))) arr1
  /\ NoDup (union eqbA arr1 arr2)
  /\ (forall x, In x (union eqbA arr1 arr2) <-> In x arr1 \/ In x arr2).
Proof.
  assert (Hnew : forall arr,
            new_Set eqbA arr = unique_filter eqbA (fun x => x) [] arr)
    by (intros arr; unfold new_Set; now rewrite fold_Set_add).
  split; [|split].
  - unfold union, difference. cbn [unique]. unfold new_Set at 1.
    rewrite fold_left_app. fold (new_Set eqbA arr1).
    rewrite fold_Set_add. f_equal.
    unfold new_Set at 1.
    rewrite (unique_filter_fold eqbA eqbA_eq), <- Hnew.
    apply filter_ext. intros x. now rewrite (Set_has_new eqbA eqbA_eq).
  - unfold union. cbn [unique]. rewrite Hnew.
    rewrite <- (map_id (unique_filter _ _ _ _)).
    apply (unique_filter_NoDup eqbA eqbA_eq).
  - intros x. unfold union. cbn [unique]. rewrite Hnew.
    rewrite <- (map_id (unique_filter _ _ _ _)).
    rewrite (unique_filter_keys eqbA eqbA_eq), map_id, in_app_iff.
    cbn [In]. tauto.
Qed.

End ArraySets.

Section ArrayEnds.
Import JS ArrayHelper Spec.
Local Open Scope Z_scope.
Context {A : Type}.

(** X17: [first(arr, n)] is the first [n] elements, all of them when there
    are fewer.  [last(arr, n)] is the last [n] elements for a positive
    [n], but the whole array for [n = 0].  So the first [len - n] and the
    last [n] elements make up the array for [n] from 1 to [len], and not
    for [n = 0] unless the array is empty.  A negative [n] is refused. *)
Theorem first_last_split (arr : list A) (n : Z) :
  let len := Z.of_nat (List.length arr) in
  (n < 0 ->
     first arr n = Throw (Error "Invalid number provided")
     /\ last arr n = Throw (Error "Invalid number provided"))
  /\ (0 <= n -> first arr n = Return (firstn (Z.to_nat n) arr))
  /\ (0 < n ->
      last arr n = Return (skipn (List.length arr - Z.to_nat n) arr))
  /\ last arr 0 = Return arr
  /\ (0 < n <= len ->
      exists front back,
        first arr (len - n) = Return front /\ last arr n = Return back
        /\ (front ++ back)%list = arr)
  /\ (arr <> [] ->
      exists front back,
        first arr (len - 0) = Return front /\ last arr 0 = Return back
        /\ (front ++ back)%list <> arr).
Proof.
  intros len.
  assert (Hfirst : forall k, 0 <= k ->
            first arr k = Return (firstn (Z.to_nat k) arr)).
  { intros k Hk. unfold first, slice.
    destruct (Z.ltb_spec k 0); [lia|]. cbn [Z.ltb Z.compare].
    rewrite (Z.min_l 0) by lia. cbn [Z.to_nat skipn]. rewrite Z.sub_0_r.
    f_equal. fold len.
    destruct (Z.le_ge_cases k len).
    - now rewrite Z.min_l by lia.
    - rewrite Z.min_r by lia. rewrite !firstn_all2 by lia. reflexivity. }
  assert (Hlast : forall k, 0 < k ->
            last arr k = Return (skipn (List.length arr - Z.to_nat k) arr)).
  { intros k Hk. unfold last, slice_from, slice. fold len.
    destruct (Z.ltb_spec k 0); [lia|].
    destruct (Z.ltb_spec (- k) 0); [|lia].
    destruct (Z.ltb_spec len 0); [lia|].
    rewrite Z.min_id. f_equal.
    rewrite firstn_all2 by (rewrite length_skipn; lia).
    f_equal. lia. }
  assert (Hzero : last arr 0 = Return arr).
  { unfold last, slice_from, slice. fold len. cbn [Z.ltb Z.compare Z.opp].
    destruct (Z.ltb_spec len 0); [lia|].
    rewrite Z.min_id, (Z.min_l 0) by lia. cbn [Z.to_nat skipn].
    f_equal. apply firstn_all2. lia. }
  split; [|split; [|split; [|split; [|split]]]].
  - intros Hn. unfold first, last.
    destruct (Z.ltb_spec n 0); [split; reflexivity|lia].
  - apply Hfirst.
  - apply Hlast.
  - exact Hzero.
  - intros Hn. do 2 eexists.
    split; [apply Hfirst; lia|]. split; [apply Hlast; lia|].
    replace (Z.to_nat (len - n)) with (List.length arr - Z.to_nat n)%nat
      by lia.
    apply firstn_skipn.
  - intros Hne. do 2 eexists.
    split; [apply Hfirst; lia|]. split; [exact Hzero|].
    rewrite Z.sub_0_r. unfold len. rewrite Nat2Z.id, firstn_all.
    intros E. apply (f_equal (@List.length A)) in E.
    rewrite length_app in E. destruct arr; [congruence|cbn in E; lia].
Qed.

End ArrayEnds.

Section Zip.
Import JS ArrayHelper Spec.
Local Open Scope nat_scope.
Context {V : Type} (undefined : V).

Lemma zip_loop_map (arrays : list (list V)) (count i : nat)
    (result : list (list V)) :
  zip_loop undefined arrays count i result
  = result ++ map (fun i => map (fun arr => index undefined arr i) arrays)
                  (seq i count).
Proof.
  revert i result. induction count as [|count IH]; intros i result;
    cbn [zip_loop seq map]; [now rewrite app_nil_r|].
  rewrite IH, <- app_assoc. reflexivity.
Qed.

(** Reading [m] places of a row, at or past its length. *)
Lemma read_row (row : list V) (m : nat) :
  List.length row <= m ->
  map (fun i => index undefined row i) (seq 0 m)
  = row ++ repeat undefined (m - List.length row).
Proof.
  intros Hm. apply nth_ext with (d := undefined) (d' := undefined).
  - rewrite length_map, length_seq, length_app, repeat_length. lia.
  - intros i Hi. rewrite length_map, length_seq in Hi.
    rewrite (nth_indep _ undefined (index undefined row 0))
      by (rewrite length_map, length_seq; exact Hi).
    rewrite (map_nth (fun i => index undefined row i) (seq 0 m) 0 i).
    rewrite seq_nth by exact Hi. cbn [Nat.add]. unfold index.
    destruct (Nat.lt_ge_cases i (List.length row)).
    + now rewrite app_nth1.
    + rewrite nth_overflow by lia. rewrite app_nth2 by lia.
      symmetry. apply nth_repeat.
Qed.

Lemma map_rows {B : Type} (g : list V -> B) (rows : list (list V)) :
  map (fun j => g (nth j rows [])) (seq 0 (List.length rows)) = map g rows.
Proof.
  induction rows as [|row rows IH]; [reflexivity|].
  cbn [List.length seq map nth]. f_equal.
  rewrite <- seq_shift, map_map. exact IH.
Qed.

Lemma maxLength_bound (rows : list (list V)) (row : list V) :
  In row rows -> List.length row <= maxLength rows.
Proof.
  intros H. unfold maxLength.
  assert (Hall := proj1 (list_max_le (map (@List.length V) rows) _)
                    (Nat.le_refl _)).
  rewrite Forall_forall in Hall. apply Hall. now apply in_map.
Qed.

Lemma maxLength_same (rows : list (list V)) (n : nat) :
  rows <> [] -> (forall row, In row rows -> List.length row = n) ->
  maxLength rows = n.
Proof.
  intros Hne Hall. unfold maxLength.
  destruct rows as [|row rows]; [congruence|]. clear Hne.
  assert (E : map (@List.length V) (row :: rows)
              = repeat n (List.length (row :: rows))).
  { induction (row :: rows) as [|r rs IH]; [reflexivity|].
    cbn [map List.length repeat]. f_equal.
    - apply Hall. now left.
    - apply IH. intros r' Hr'. apply Hall. now right. }
  rewrite E. cbn [List.length repeat list_max fold_right].
  induction (List.length rows) as [|k IHk]; cbn [repeat fold_right]; lia.
Qed.

(** X18: [unzip] undoes [zip] up to padding: when some array is not empty,
    [unzip(zip(...arrays))] is the arrays, each padded with [undefined]
    to the length of the longest.  So arrays of one positive length come
    back unchanged; arrays that are all empty come back as no array at
    all. *)
Theorem unzip_zip_pads (arrays : list (list V)) :
  (0 < maxLength arrays ->
     unzip undefined (zip undefined arrays)
     = map (fun arr =>
              arr ++ repeat undefined (maxLength arrays - List.length arr))%list
           arrays)
  /\ (forall n, 0 < n -> arrays <> [] ->
        (forall arr, In arr arrays -> List.length arr = n) ->
        unzip undefined (zip undefined arrays) = arrays)
  /\ (maxLength arrays = 0 -> unzip undefined (zip undefined arrays) = []).
Proof.
  assert (Hpad : 0 < maxLength arrays ->
     unzip undefined (zip undefined arrays)
     = map (fun arr =>
              arr ++ repeat undefined (maxLength arrays - List.length arr))%list
           arrays).
  { intros Hm.
    assert (Hne : arrays <> []) by (intros ->; cbn in Hm; lia).
    set (m := maxLength arrays) in *. set (r := List.length arrays).
    assert (Hr : 0 < r) by (unfold r; destruct arrays; [congruence|cbn; lia]).
    set (cols := map (fun i => map (fun arr => index undefined arr i) arrays)
                     (seq 0 m)).
    assert (Hzip : zip undefined arrays = cols).
    { unfold zip. destruct arrays; [congruence|]. apply zip_loop_map. }
    rewrite Hzip.
    assert (Hcols : cols <> []).
    { unfold cols. destruct m; [lia|]. discriminate. }
    assert (Hmax : maxLength cols = r).
    { apply maxLength_same; [exact Hcols|].
      intros col Hcol. unfold cols in Hcol. apply in_map_iff in Hcol.
      destruct Hcol as (i & <- & _). apply length_map. }
    assert (Hunzip : unzip undefined cols
                     = zip_loop undefined cols (maxLength cols) 0 []).
    { clear Hmax. destruct cols; [congruence|reflexivity]. }
    rewrite Hunzip, zip_loop_map, Hmax. cbn [app].
    rewrite <- (map_rows (fun arr =>
                   arr ++ repeat undefined (m - List.length arr))%list arrays).
    fold r. apply map_ext_in. intros j Hj. apply in_seq in Hj.
    unfold cols. rewrite map_map.
    rewrite <- (read_row (nth j arrays []) m).
    - apply map_ext. intros i. unfold index at 1.
      rewrite (nth_indep _ undefined
                 ((fun arr => index undefined arr i) [])) by (rewrite length_map; fold r; lia).
      now rewrite (map_nth (fun arr => index undefined arr i) arrays [] j).
    - apply maxLength_bound. apply nth_In. fold r. lia. }
  split; [exact Hpad|]. split.
  - intros n Hn Hne Hall.
    pose proof (maxLength_same arrays n Hne Hall) as Hm.
    rewrite Hpad by lia. rewrite <- (map_id arrays) at 2.
    apply map_ext_in. intros arr Harr.
    rewrite Hm, (Hall arr Harr), Nat.sub_diag. apply app_nil_r.
  - intros Hm. unfold zip. destruct arrays as [|a0 rest]; [reflexivity|].
    rewrite Hm. reflexivity.
Qed.

End Zip.

Section Shuffle.
Import JS ArrayHelper Spec.
Local Open Scope Z_scope.
Context {V : Type} (undefined : V) (random : nat -> Q).
Hypothesis random_range : forall tick, (0 <= random tick)%Q /\ (random tick < 1)%Q.

(** [Math.floor(Math.random() * n)] is an index below [n]. *)
Lemma random_index_range (tick : nat) (n : Z) :
  0 < n -> 0 <= Qfloor (random tick * inject_Z n) < n.
Proof.
  intros Hn. destruct (random_range tick) as [H0 H1].
  assert (Hq : (0 < inject_Z n)%Q) by (unfold Qlt; cbn; lia).
  split.
  - change 0 with (Qfloor 0). apply Qfloor_resp_le.
    apply Qmult_le_0_compat; [exact H0|]. now apply Qlt_le_weak.
  - assert (Hlt : (random tick * inject_Z n < inject_Z n)%Q).
    { setoid_replace (inject_Z n) with (1 * inject_Z n)%Q at 2 by ring.
      apply Qmult_lt_compat_r; assumption. }
    pose proof (Qfloor_le (random tick * inject_Z n)) as Hfl.
    rewrite Zlt_Qlt. eapply Qle_lt_trans; eassumption.
Qed.

Lemma assign_middle (front back : list V) (x v : V) :
  assign undefined (front ++ x :: back) (Z.of_nat (List.length front)) v
  = (front ++ v :: back)%list.
Proof.
  unfold assign. destruct (Z.ltb_spec (Z.of_nat (List.length front)) 0); [lia|].
  rewrite Nat2Z.id.
  replace (List.length front <? List.length (front ++ x :: back))%nat with true
    by (symmetry; apply Nat.ltb_lt; rewrite length_app; cbn; lia).
  rewrite firstn_app, firstn_all, Nat.sub_diag. cbn [firstn].
  rewrite app_nil_r. f_equal. f_equal.
  replace (S (List.length front)) with (List.length (front ++ [x]))
    by (rewrite length_app; cbn; lia).
  replace (front ++ x :: back)%list with ((front ++ [x]) ++ back)%list
    by (rewrite <- app_assoc; reflexivity).
  rewrite skipn_app, skipn_all, Nat.sub_diag. reflexivity.
Qed.

Lemma index_Z_middle (front back : list V) (x : V) :
  index_Z undefined (front ++ x :: back) (Z.of_nat (List.length front)) = x.
Proof.
  unfold index_Z, index.
  destruct (Z.ltb_spec (Z.of_nat (List.length front)) 0); [lia|].
  rewrite Nat2Z.id. apply nth_middle.
Qed.

Lemma split_at (l : list V) (k : nat) :
  (k < List.length l)%nat ->
  exists front x back,
    l = (front ++ x :: back)%list /\ List.length front = k.
Proof.
  revert k. induction l as [|a l IH]; intros k Hk; cbn [List.length] in Hk;
    [lia|].
  destruct k as [|k].
  - exists [], a, l. split; reflexivity.
  - destruct (IH k ltac:(lia)) as (front & x & back & -> & Hl).
    exists (a :: front), x, back. split; [reflexivity|]. cbn. lia.
Qed.

(** Exchanging two places of an array rearranges it. *)
Lemma swap_Permutation (l : list V) (i j : Z) :
  0 <= j <= i -> i < Z.of_nat (List.length l) ->
  Permutation (swap undefined l i j) l.
Proof.
  intros Hj Hi.
  destruct (split_at l (Z.to_nat i) ltac:(lia)) as (front & y & back & El & Hl).
  replace i with (Z.of_nat (List.length front)) in * by lia.
  destruct (Z.eq_dec j (Z.of_nat (List.length front))) as [->|Hne].
  - unfold swap. rewrite El, index_Z_middle, !assign_middle. reflexivity.
  - destruct (split_at front (Z.to_nat j) ltac:(lia))
      as (f1 & x & f2 & Ef & Hf).
    replace j with (Z.of_nat (List.length f1)) in * by lia.
    unfold swap. rewrite El, index_Z_middle, assign_middle.
    rewrite Ef, <- !app_assoc. cbn [app].
    rewrite index_Z_middle, assign_middle.
    apply Permutation_app_head.
    transitivity (y :: x :: f2 ++ back)%list.
    + constructor. apply Permutation_sym, Permutation_middle.
    + rewrite perm_swap. constructor. apply Permutation_middle.
Qed.

Lemma shuffle_loop_spec (i : nat) :
  forall (result : list V) (tick : nat),
  (i < List.length result)%nat ->
  Permutation (fst (shuffle_loop undefined random result i tick)) result
  /\ snd (shuffle_loop undefined random result i tick) = (tick + i)%nat.
Proof.
  induction i as [|i IH]; intros result tick Hi; cbn [shuffle_loop].
  - split; [reflexivity|cbn; lia].
  - pose proof (random_index_range tick (Z.of_nat (S i) + 1) ltac:(lia)) as Hj.
    set (j := Qfloor _) in *.
    assert (Hp : Permutation (swap undefined result (Z.of_nat (S i)) j) result)
      by (apply swap_Permutation; lia).
    destruct (IH (swap undefined result (Z.of_nat (S i)) j) (S tick)) as [P T].
    { rewrite (Permutation_length Hp). lia. }
    split; [now rewrite P|]. rewrite T. lia.
Qed.

(** X19: with [Math.random()] in [0, 1), [shuffle] returns a rearrangement
    of the array: the same elements, each as many times as before.  It
    draws one random number for each element but one. *)
Theorem shuffle_rearranges (arr : list V) (tick : nat) :
  Permutation (fst (shuffle undefined random arr tick)) arr
  /\ List.length (fst (shuffle undefined random arr tick)) = List.length arr
  /\ snd (shuffle undefined random arr tick)
     = (tick + (List.length arr - 1))%nat.
Proof.
  assert (H : Permutation (fst (shuffle undefined random arr tick)) arr
              /\ snd (shuffle undefined random arr tick)
                 = (tick + (List.length arr - 1))%nat).
  { unfold shuffle. destruct arr as [|x rest].
    - cbn. split; [constructor|lia].
    - apply shuffle_loop_spec. cbn [List.length]. lia. }
  destruct H as [P T]. split; [exact P|]. split; [|exact T].
  now apply Permutation_length.
Qed.

Lemma slice_prefix {A : Type} (l : list A) (k : Z) :
  0 <= k <= Z.of_nat (List.length l) ->
  slice l 0 k = firstn (Z.to_nat k) l.
Proof.
  intros Hk. unfold slice. cbn [Z.ltb Z.compare].
  destruct (Z.ltb_spec k 0); [lia|].
  rewrite (Z.min_l 0), (Z.min_l k) by lia.
  cbn [Z.to_nat skipn]. now rewrite Z.sub_0_r.
Qed.

(** X20: with [Math.random()] in [0, 1), [sample(arr, size)] for a size
    that is not negative returns [size] items, or all of them when there
    are fewer, drawn from the array without replacement: together with
    the items left out they are a rearrangement of the array.  A negative
    size is refused before any random number is drawn. *)
Theorem sample_draws_without_replacement (arr : list V) (size : Z) (tick : nat) :
  (size < 0 ->
     sample undefined random arr size tick
     = (Throw (Error "Invalid size provided"), tick))
  /\ (0 <= size ->
      exists items rest,
        fst (sample undefined random arr size tick) = Return items
        /\ Z.of_nat (List.length items)
           = Z.min size (Z.of_nat (List.length arr))
        /\ Permutation (items ++ rest) arr).
Proof.
  split.
  - intros Hs. unfold sample. destruct (Z.ltb_spec size 0); [reflexivity|lia].
  - intros Hs. unfold sample. destruct (Z.ltb_spec size 0); [lia|].
    destruct (shuffle_rearranges arr tick) as (P & L & _).
    destruct (shuffle undefined random arr tick) as [shuffled tick'].
    cbn [fst] in *.
    set (k := Z.min size (Z.of_nat (List.length arr))).
    exists (firstn (Z.to_nat k) shuffled), (skipn (Z.to_nat k) shuffled).
    split; [f_equal; apply slice_prefix; unfold k; lia|].
    split; [rewrite length_firstn; unfold k; lia|].
    now rewrite firstn_skipn.
Qed.

(** X21: with [Math.random()] in [0, 1), [randomItem] refuses an empty
    array, returns one element of the array for [count = 1], and for any
    other count that is not negative returns that many items, or all of
    them when there are fewer, drawn without replacement.  For a negative
    count it returns a rearrangement of the array cut short by that many
    items. *)
Theorem randomItem_picks_from_array (arr : list V) (count : Z) (tick : nat) :
  (arr = [] ->
     randomItem undefined random arr count tick
     = (Throw (Error "Cannot pick from empty array"), tick))
  /\ (arr <> [] -> count = 1 ->
      exists item,
        randomItem undefined random arr count tick = (Return (Item item), S tick)
        /\ In item arr)
  /\ (arr <> [] -> count <> 1 ->
      exists items rest,
        fst (randomItem undefined random arr count tick) = Return (Items items)
        /\ Z.of_nat (List.length items)
           = (if count <? 0
              then Z.max (Z.of_nat (List.length arr) + count) 0
              else Z.min count (Z.of_nat (List.length arr)))
        /\ Permutation (items ++ rest) arr).
Proof.
  split; [|split].
  - intros ->. reflexivity.
  - intros Hne ->. unfold randomItem.
    destruct arr as [|x rest]; [congruence|].
    cbn [List.length Nat.eqb Z.eqb Pos.eqb].
    pose proof (random_index_range tick (Z.of_nat (S (List.length rest)))
                  ltac:(lia)) as Hj.
    set (j := Qfloor _) in *.
    eexists. split; [reflexivity|].
    unfold index_Z, index. destruct (Z.ltb_spec j 0); [lia|].
    apply nth_In. cbn [List.length]. lia.
  - intros Hne Hc. unfold randomItem.
    destruct arr as [|x xs]; [congruence|].
    set (arr := x :: xs) in *.
    change (List.length arr =? 0)%nat with false. cbv iota.
    destruct (Z.eqb_spec count 1); [contradiction|].
    destruct (shuffle_rearranges arr tick) as (P & L & _).
    destruct (shuffle undefined random arr tick) as [shuffled tick'].
    cbn [fst] in *.
    set (len := Z.of_nat (List.length arr)).
    assert (Hlen : Z.of_nat (List.length shuffled) = len) by (unfold len; lia).
    destruct (Z.ltb_spec count 0) as [Hneg|Hpos].
    + set (k := Z.max (len + count) 0).
      exists (firstn (Z.to_nat k) shuffled), (skipn (Z.to_nat k) shuffled).
      split.
      { do 2 f_equal. unfold slice. cbn [Z.ltb Z.compare]. rewrite Hlen.
        rewrite (Z.min_l count) by lia.
        destruct (Z.ltb_spec count 0); [|lia].
        rewrite (Z.min_l 0) by lia. cbn [Z.to_nat skipn].
        now rewrite Z.sub_0_r. }
      split; [rewrite length_firstn; unfold k; lia|].
      now rewrite firstn_skipn.
    + set (k := Z.min count len).
      exists (firstn (Z.to_nat k) shuffled), (skipn (Z.to_nat k) shuffled).
      split; [do 2 f_equal; apply slice_prefix; unfold k; lia|].
      split; [rewrite length_firstn; unfold k; lia|].
      now rewrite firstn_skipn.
Qed.

End Shuffle.

Section ArrayWitnesses.
Import JS ArrayHelper.

Lemma unique_keeps_first_of_each_key_witness :
  (forall x y : Z, Z.eqb x y = true <-> x = y)
  /\ unique Z.eqb Z.eqb [3; -3; 1; 3; -1]%Z (Some Z.abs) = [3; 1]%Z
  /\ (let result := unique Z.eqb Z.eqb [3; -3; 1; 3; -1]%Z (Some Z.abs) in
      NoDup (map Z.abs result)
      /\ (forall k, In k (map Z.abs result)
                    <-> In k (map Z.abs [3; -3; 1; 3; -1]%Z))
      /\ unique Z.eqb Z.eqb result (Some Z.abs) = result).
Proof.
  split; [exact Z.eqb_eq|]. split; [reflexivity|].
  exact (proj2 (proj2 (unique_keeps_first_of_each_key Z.eqb Z.eqb Z.eqb_eq
                         Z.abs)) [3; -3; 1; 3; -1]%Z).
Defined.

Lemma intersection_difference_split_witness :
  (forall x y : Z, Z.eqb x y = true <-> x = y)
  /\ intersection Z.eqb [1; 1; 2; 3]%Z [3; 1; 1]%Z = [1; 1; 3]%Z
  /\ difference Z.eqb [1; 1; 2; 3]%Z [3; 1; 1]%Z = [2]%Z
  /\ Permutation (intersection Z.eqb [1; 1; 2; 3]%Z [3; 1; 1]%Z
                  ++ difference Z.eqb [1; 1; 2; 3]%Z [3; 1; 1]%Z)
                 [1; 1; 2; 3]%Z.
Proof.
  split; [exact Z.eqb_eq|]. split; [reflexivity|]. split; [reflexivity|].
  exact (proj2 (proj2 (proj2 (proj2
           (intersection_difference_split Z.eqb Z.eqb_eq
              [1; 1; 2; 3]%Z [3; 1; 1]%Z))))).
Defined.

Lemma union_appends_new_elements_witness :
  (forall x y : Z, Z.eqb x y = true <-> x = y)
  /\ union Z.eqb [2; 1; 2]%Z [3; 1; 3]%Z = [2; 1; 3]%Z
  /\ NoDup (union Z.eqb [2; 1; 2]%Z [3; 1; 3]%Z)
  /\ (forall x, In x (union Z.eqb [2; 1; 2]%Z [3; 1; 3]%Z)
                <-> In x [2; 1; 2]%Z \/ In x [3; 1; 3]%Z).
Proof.
  split; [exact Z.eqb_eq|]. split; [reflexivity|].
  exact (proj2 (union_appends_new_elements Z.eqb Z.eqb_eq
                  [2; 1; 2]%Z [3; 1; 3]%Z)).
Defined.

(** A source of random numbers that always answers one half. *)
Lemma one_half_in_range :
  forall tick : nat, (0 <= (fun _ : nat => 1 # 2) tick)%Q
                     /\ ((fun _ : nat => 1 # 2) tick < 1)%Q.
Proof. intros tick. unfold Qle, Qlt. cbn. lia. Qed.

Lemma shuffle_rearranges_witness :
  (forall tick : nat, (0 <= 1 # 2)%Q /\ (1 # 2 < 1)%Q)
  /\ shuffle 0%Z (fun _ => 1 # 2) [1; 2; 3; 4]%Z 0 = ([1; 4; 2; 3]%Z, 3%nat)
  /\ Permutation (fst (shuffle 0%Z (fun _ => 1 # 2) [1; 2; 3; 4]%Z 0))
                 [1; 2; 3; 4]%Z
  /\ List.length (fst (shuffle 0%Z (fun _ => 1 # 2) [1; 2; 3; 4]%Z 0)) = 4%nat
  /\ snd (shuffle 0%Z (fun _ => 1 # 2) [1; 2; 3; 4]%Z 0) = 3%nat.
Proof.
  split; [exact one_half_in_range|]. split; [reflexivity|].
  exact (shuffle_rearranges 0%Z (fun _ => 1 # 2) one_half_in_range
           [1; 2; 3; 4]%Z 0%nat).
Defined.

Lemma sample_draws_without_replacement_witness :
  (forall tick : nat, (0 <= 1 # 2)%Q /\ (1 # 2 < 1)%Q)
  /\ (2 < 0 ->
      sample 0%Z (fun _ => 1 # 2) [1; 2; 3; 4]%Z 2 0
      = (Throw (Error "Invalid size provided"), 0%nat))%Z
  /\ (0 <= 2 ->
      exists items rest,
        fst (sample 0%Z (fun _ => 1 # 2) [1; 2; 3; 4]%Z 2 0) = Return items
        /\ Z.of_nat (List.length items) = Z.min 2 (Z.of_nat 4)
        /\ Permutation (items ++ rest) [1; 2; 3; 4]%Z)%Z.
Proof.
  split; [exact one_half_in_range|].
  exact (sample_draws_without_replacement 0%Z (fun _ => 1 # 2)
           one_half_in_range [1; 2; 3; 4]%Z 2%Z 0%nat).
Defined.

Lemma randomItem_picks_from_array_witness :
  (forall tick : nat, (0 <= 1 # 2)%Q /\ (1 # 2 < 1)%Q)
  /\ exists item,
       randomItem 0%Z (fun _ => 1 # 2) [1; 2; 3; 4]%Z 1 0
       = (Return (Item item), 1%nat)
       /\ In item [1; 2; 3; 4]%Z.
Proof.
  split; [exact one_half_in_range|].
  exact (proj1 (proj2 (randomItem_picks_from_array 0%Z (fun _ => 1 # 2)
                         one_half_in_range [1; 2; 3; 4]%Z 1%Z 0%nat))
           ltac:(discriminate) eq_refl).
Defined.

End ArrayWitnesses.

(* ================================================================== *)
(** * More on the validation helper: patterns *)
(* ================================================================== *)

Section RegexSemantics.
Import JS Regex Spec.
Local Open Scope string_scope.

Lemma lang_Void (s : string) : ~ lang Void s.
Proof. intros H. inversion H. Qed.

Lemma lang_Eps_inv (s : string) : lang Eps s -> s = EmptyString.
Proof. intros H. now inversion H. Qed.

Lemma lang_Seq_inv (r1 r2 : regex) (s : string) :
  lang (Seq r1 r2) s ->
  exists s1 s2, s = s1 ++ s2 /\ lang r1 s1 /\ lang r2 s2.
Proof. intros H. inversion H; subst. eauto. Qed.

Lemma lang_Alt_inv (r1 r2 : regex) (s : string) :
  lang (Alt r1 r2) s -> lang r1 s \/ lang r2 s.
Proof. intros H. inversion H; subst; auto. Qed.

Lemma lang_Class_inv (ranges : list (ascii * ascii)) (s : string) :
  lang (Class ranges) s ->
  exists c, s = String c EmptyString /\ in_class ranges c = true.
Proof. intros H. inversion H; subst. eauto. Qed.

Lemma seq_cases (r1 r2 : regex) :
  (seq r1 r2 = Void /\ (r1 = Void \/ r2 = Void))
  \/ (r1 = Eps /\ seq r1 r2 = r2)
  \/ seq r1 r2 = Seq r1 r2.
Proof. destruct r1, r2; cbn [seq]; auto. Qed.

Lemma alt_cases (r1 r2 : regex) :
  (r1 = Void /\ alt r1 r2 = r2)
  \/ (r2 = Void /\ alt r1 r2 = r1)
  \/ alt r1 r2 = Alt r1 r2.
Proof. destruct r1, r2; cbn [alt]; auto. Qed.

Lemma lang_seq (r1 r2 : regex) (s : string) :
  lang (seq r1 r2) s <-> lang (Seq r1 r2) s.
Proof.
  destruct (seq_cases r1 r2) as [[E [->| ->]]|[[-> E]| E]]; rewrite E.
  - split; intros H; inversion H; subst.
    exfalso. eapply lang_Void. eassumption.
  - split; intros H; inversion H; subst.
    exfalso. eapply lang_Void. eassumption.
  - split.
    + intros H. change s with (EmptyString ++ s). constructor; [constructor|exact H].
    + intros H. apply lang_Seq_inv in H.
      destruct H as (s1 & s2 & -> & H1 & H2).
      apply lang_Eps_inv in H1. now subst.
  - reflexivity.
Qed.

Lemma lang_alt (r1 r2 : regex) (s : string) :
  lang (alt r1 r2) s <-> lang (Alt r1 r2) s.
Proof.
  destruct (alt_cases r1 r2) as [[-> E]|[[-> E]| E]]; rewrite E.
  - split; [apply lang_Alt_r|].
    intros H. inversion H; subst; [exfalso; eapply lang_Void; eassumption|assumption].
  - split; [apply lang_Alt_l|].
    intros H. inversion H; subst; [assumption|exfalso; eapply lang_Void; eassumption].
  - reflexivity.
Qed.

Lemma append_nil_inv (s1 s2 : string) :
  s1 ++ s2 = EmptyString -> s1 = EmptyString /\ s2 = EmptyString.
Proof. destruct s1; [cbn; auto|discriminate]. Qed.

Lemma nullable_lang (r : regex) : nullable r = true <-> lang r EmptyString.
Proof.
  induction r as [| |ranges|r1 IH1 r2 IH2|r1 IH1 r2 IH2|r IH]; cbn [nullable].
  - split; [discriminate|intros H; inversion H].
  - split; [constructor|reflexivity].
  - split; [discriminate|intros H; inversion H].
  - rewrite andb_true_iff, IH1, IH2. split.
    + intros [H1 H2]. change EmptyString with (EmptyString ++ EmptyString).
      now constructor.
    + intros H. apply lang_Seq_inv in H.
      destruct H as (s1 & s2 & E & H1 & H2). symmetry in E.
      apply append_nil_inv in E. destruct E; subst. now split.
  - rewrite orb_true_iff, IH1, IH2. split.
    + intros [H|H]; [now apply lang_Alt_l|now apply lang_Alt_r].
    + intros H. inversion H; subst; [now left|now right].
  - split; [constructor|reflexivity].
Qed.

Lemma deriv_sound (c : ascii) (r : regex) (s : string) :
  lang (deriv c r) s -> lang r (String c s).
Proof.
  revert s. induction r as [| |ranges|r1 IH1 r2 IH2|r1 IH1 r2 IH2|r IH];
    intros s H; cbn [deriv] in H.
  - now apply lang_Void in H.
  - now apply lang_Void in H.
  - destruct (in_class ranges c) eqn:E; [|now apply lang_Void in H].
    apply lang_Eps_inv in H. subst. now constructor.
  - assert (Hleft : lang (seq (deriv c r1) r2) s -> lang (Seq r1 r2) (String c s)).
    { intros H'. apply lang_seq, lang_Seq_inv in H'.
      destruct H' as (s1 & s2 & -> & H1 & H2).
      change (String c (s1 ++ s2)) with (String c s1 ++ s2).
      constructor; [now apply IH1|exact H2]. }
    destruct (nullable r1) eqn:N; [|now apply Hleft].
    apply lang_alt in H. inversion H; subst; [now apply Hleft|].
    change (String c s) with (EmptyString ++ String c s).
    constructor; [now apply nullable_lang|now apply IH2].
  - apply lang_alt in H. inversion H; subst;
      [apply lang_Alt_l; now apply IH1|apply lang_Alt_r; now apply IH2].
  - apply lang_seq, lang_Seq_inv in H.
    destruct H as (s1 & s2 & -> & H1 & H2).
    change (String c (s1 ++ s2)) with (String c s1 ++ s2).
    constructor; [now apply IH|exact H2].
Qed.

Lemma deriv_complete (r : regex) (s0 : string) :
  lang r s0 -> forall c t, s0 = String c t -> lang (deriv c r) t.
Proof.
  induction 1 as [|ranges c' Hc|r1 r2 s1 s2 H1 IH1 H2 IH2|r1 r2 s H IH
                  |r1 r2 s H IH|r|r s1 s2 H1 IH1 H2 IH2];
    intros c t E; cbn [deriv].
  - discriminate.
  - injection E as -> <-. rewrite Hc. constructor.
  - destruct s1 as [|c1 s1'].
    + cbn [append] in E. subst s2.
      rewrite (proj2 (nullable_lang r1) H1).
      apply lang_alt, lang_Alt_r. now apply IH2.
    + cbn [append] in E. injection E as -> <-.
      assert (Hl : lang (seq (deriv c r1) r2) (s1' ++ s2)).
      { apply lang_seq. constructor; [now apply IH1|exact H2]. }
      destruct (nullable r1); [apply lang_alt, lang_Alt_l|]; exact Hl.
  - apply lang_alt, lang_Alt_l. now apply IH.
  - apply lang_alt, lang_Alt_r. now apply IH.
  - discriminate.
  - destruct s1 as [|c1 s1'].
    + cbn [append] in E. now apply IH2.
    + cbn [append] in E. injection E as -> <-.
      apply lang_seq. constructor; [now apply IH1|exact H2].
Qed.

(** The matcher by derivatives decides the language of the expression. *)
Lemma matches_lang (r : regex) (s : string) :
  matches r s = true <-> lang r s.
Proof.
  revert r. induction s as [|c s IH]; intros r; cbn [matches].
  - apply nullable_lang.
  - rewrite IH. split; [apply deriv_sound|].
    intros H. now apply (deriv_complete r _ H).
Qed.

End RegexSemantics.

(** Taking a membership apart along the expression. *)
Ltac lang_inv :=
  repeat match goal with
  | H : Spec.lang (Regex.Seq _ _) _ |- _ =>
      apply lang_Seq_inv in H;
      let s1 := fresh "s" in let s2 := fresh "s" in let E := fresh "E" in
      let H1 := fresh "H" in let H2 := fresh "H" in
      destruct H as (s1 & s2 & E & H1 & H2); try subst
  | H : Spec.lang (Regex.Alt _ _) _ |- _ => apply lang_Alt_inv in H; destruct H as [H|H]
  | H : Spec.lang (Regex.Class _) _ |- _ =>
      apply lang_Class_inv in H;
      let c := fresh "c" in let E := fresh "E" in let Hc := fresh "Hc" in
      destruct H as (c & E & Hc); try subst
  | H : Spec.lang Regex.Eps _ |- _ => apply lang_Eps_inv in H; try subst
  | H : Spec.lang Regex.Void _ |- _ => now apply lang_Void in H
  end.

Section RegexSurface.
Import JS Regex Spec.
Local Open Scope string_scope.

(** ** Character classes *)

Lemma in_range_true (lo hi c : ascii) :
  in_class [(lo, hi)] c = true <->
  (nat_of_ascii lo <= nat_of_ascii c <= nat_of_ascii hi)%nat.
Proof.
  unfold in_class, in_range. cbn [existsb fst snd].
  rewrite orb_false_r, andb_true_iff, !Nat.leb_le. reflexivity.
Qed.

Lemma in_range_false (lo hi c : ascii) :
  in_class [(lo, hi)] c = false <->
  (nat_of_ascii c < nat_of_ascii lo \/ nat_of_ascii hi < nat_of_ascii c)%nat.
Proof.
  unfold in_class, in_range. cbn [existsb fst snd].
  rewrite orb_false_r, andb_false_iff, !Nat.leb_gt. reflexivity.
Qed.

Lemma in_class_cons (rg : ascii * ascii) (ranges : list (ascii * ascii))
    (c : ascii) :
  in_class (rg :: ranges) c = in_class [rg] c || in_class ranges c.
Proof. unfold in_class. cbn [existsb]. now rewrite orb_false_r. Qed.

Lemma nat_of_ascii_inj (c c' : ascii) :
  nat_of_ascii c = nat_of_ascii c' -> c = c'.
Proof.
  intros E. rewrite <- (ascii_nat_embedding c), <- (ascii_nat_embedding c').
  now rewrite E.
Qed.

Lemma lang_chr (c : ascii) (s : string) :
  lang (chr c) s <-> s = String c EmptyString.
Proof.
  unfold chr. split.
  - intros H. lang_inv. apply in_range_true in Hc.
    f_equal. apply nat_of_ascii_inj. lia.
  - intros ->. constructor. apply in_range_true. lia.
Qed.

Lemma lang_lit (w s : string) : lang (lit w) s <-> s = w.
Proof.
  revert s. induction w as [|c w IH]; intros s.
  - cbn [lit]. split; [apply lang_Eps_inv|intros ->; constructor].
  - destruct w as [|c' w'].
    + cbn [lit]. apply lang_chr.
    + change (lit (String c (String c' w')))
        with (Seq (chr c) (lit (String c' w'))).
      split.
      * intros H. apply lang_Seq_inv in H.
        destruct H as (s1 & s2 & -> & H1 & H2).
        apply lang_chr in H1. apply IH in H2. now subst.
      * intros ->. change (String c (String c' w'))
          with (String c EmptyString ++ String c' w').
        constructor; [now apply lang_chr|now apply IH].
Qed.

Lemma lang_opt (r : regex) (s : string) :
  lang (opt r) s <-> s = EmptyString \/ lang r s.
Proof.
  unfold opt. split.
  - intros H. apply lang_Alt_inv in H. destruct H as [H|H]; [|now right].
    left. now apply lang_Eps_inv.
  - intros [->|H]; [apply lang_Alt_l; constructor|now apply lang_Alt_r].
Qed.

Lemma all_chars_app (p : ascii -> bool) (a b : string) :
  all_chars p (a ++ b) = all_chars p a && all_chars p b.
Proof.
  induction a as [|x a IH]; cbn [append all_chars]; [reflexivity|].
  now rewrite IH, andb_assoc.
Qed.

(** [[class]{n}]: [n] characters of the class. *)
Lemma lang_times_class (ranges : list (ascii * ascii)) (n : nat) (s : string) :
  lang (times n (Class ranges)) s <->
  String.length s = n /\ all_chars (in_class ranges) s = true.
Proof.
  assert (Hone : forall s, lang (Class ranges) s <->
            String.length s = 1%nat /\ all_chars (in_class ranges) s = true).
  { intros t. split.
    - intros H. lang_inv. cbn. now rewrite Hc.
    - intros [Hl Ha]. destruct t as [|c [|c' t]]; try discriminate.
      cbn in Ha. rewrite andb_true_r in Ha. now constructor. }
  revert s. induction n as [|n IH]; intros s.
  - cbn [times]. split.
    + intros H. apply lang_Eps_inv in H. now subst.
    + intros [Hl _]. destruct s; [constructor|discriminate].
  - destruct n as [|n].
    + cbn [times]. apply Hone.
    + change (times (S (S n)) (Class ranges))
        with (Seq (Class ranges) (times (S n) (Class ranges))).
      split.
      * intros H. apply lang_Seq_inv in H.
        destruct H as (s1 & s2 & -> & H1 & H2).
        apply Hone in H1. apply IH in H2.
        rewrite length_append, all_chars_app.
        destruct H1 as [-> ->], H2 as [-> ->]. now split.
      * intros [Hl Ha]. destruct s as [|c t]; [discriminate|].
        cbn in Hl, Ha. apply andb_prop in Ha. destruct Ha as [Hc Ht].
        change (String c t) with (String c EmptyString ++ t).
        constructor; [now constructor|]. apply IH. split; [lia|exact Ht].
Qed.

(** [[class]{0,n}]: at most [n] characters of the class. *)
Lemma lang_upto_class (ranges : list (ascii * ascii)) (n : nat) (s : string) :
  lang (upto n (Class ranges)) s <->
  (String.length s <= n)%nat /\ all_chars (in_class ranges) s = true.
Proof.
  revert s. induction n as [|n IH]; intros s; cbn [upto].
  - split.
    + intros H. apply lang_Eps_inv in H. subst. now split.
    + intros [Hl _]. destruct s; [constructor|cbn in Hl; lia].
  - rewrite lang_opt. split.
    + intros [->|H]; [split; [cbn; lia|reflexivity]|].
      apply lang_Seq_inv in H. destruct H as (s1 & s2 & -> & H1 & H2).
      lang_inv. apply IH in H2. destruct H2 as [Hl Ha].
      cbn. rewrite Hc, Ha. split; [lia|reflexivity].
    + intros [Hl Ha]. destruct s as [|c t]; [now left|right].
      cbn in Hl, Ha. apply andb_prop in Ha. destruct Ha as [Hc Ht].
      change (String c t) with (String c EmptyString ++ t).
      constructor; [now constructor|]. apply IH. split; [lia|exact Ht].
Qed.

Lemma string_split (s : string) (k : nat) :
  (k <= String.length s)%nat ->
  exists a b, s = a ++ b /\ String.length a = k.
Proof.
  revert k. induction s as [|c s IH]; intros k Hk.
  - exists EmptyString, EmptyString. cbn in *. split; [reflexivity|lia].
  - destruct k as [|k].
    + exists EmptyString, (String c s). now split.
    + destruct (IH k) as (a & b & -> & Hl); [cbn in Hk; lia|].
      exists (String c a), b. split; [reflexivity|cbn; lia].
Qed.

(** [[class]{lo,hi}]. *)
Lemma lang_between_class (ranges : list (ascii * ascii)) (lo hi : nat)
    (s : string) :
  (lo <= hi)%nat ->
  (lang (between lo hi (Class ranges)) s <->
   (lo <= String.length s <= hi)%nat
   /\ all_chars (in_class ranges) s = true).
Proof.
  intros Hlh. unfold between. split.
  - intros H. apply lang_Seq_inv in H.
    destruct H as (s1 & s2 & -> & H1 & H2).
    apply lang_times_class in H1. apply lang_upto_class in H2.
    rewrite length_append, all_chars_app.
    destruct H1 as [<- ->], H2 as [Hl ->]. split; [lia|reflexivity].
  - intros [Hl Ha].
    destruct (string_split s lo ltac:(lia)) as (a & b & -> & Hla).
    rewrite all_chars_app in Ha. apply andb_prop in Ha.
    rewrite length_append in Hl.
    constructor; [apply lang_times_class|apply lang_upto_class];
      (split; [lia|tauto]).
Qed.

(** [(r sep){n} r]: [n + 1] strings of [r] separated by [sep]. *)
Lemma lang_separated (r : regex) (sep : ascii) (n : nat) (s : string) :
  lang (Seq (times n (Seq r (chr sep))) r) s <->
  exists parts,
    List.length parts = S n /\ Forall (lang r) parts
    /\ s = String.concat (String sep EmptyString) parts.
Proof.
  assert (Hpart : forall t, lang (Seq r (chr sep)) t <->
            exists a, t = a ++ String sep EmptyString /\ lang r a).
  { intros t. split.
    - intros H. apply lang_Seq_inv in H.
      destruct H as (s1 & s2 & -> & H1 & H2).
      apply lang_chr in H2. subst. eauto.
    - intros (a & -> & Ha). constructor; [exact Ha|now apply lang_chr]. }
  revert s. induction n as [|n IH]; intros s.
  - cbn [times]. split.
    + intros H. apply lang_Seq_inv in H.
      destruct H as (s1 & s2 & -> & H1 & H2).
      apply lang_Eps_inv in H1. subst. exists [s2].
      split; [reflexivity|]. split; [now constructor|reflexivity].
    + intros (parts & Hl & Hall & ->).
      destruct parts as [|a [|b parts]]; try discriminate.
      inversion Hall; subst. cbn [String.concat].
      change a with (EmptyString ++ a). constructor; [constructor|assumption].
  - destruct n as [|n].
    + cbn [times]. split.
      * intros H. apply lang_Seq_inv in H.
        destruct H as (s1 & s2 & -> & H1 & H2).
        apply Hpart in H1. destruct H1 as (a & -> & Ha).
        exists [a; s2]. split; [reflexivity|].
        split; [repeat constructor; assumption|].
        cbn [String.concat]. now rewrite append_assoc.
      * intros (parts & Hl & Hall & ->).
        destruct parts as [|a [|b [|c parts]]]; try discriminate.
        inversion Hall as [|? ? Ha Hall']; subst.
        inversion Hall' as [|? ? Hb _]; subst.
        cbn [String.concat]. rewrite <- append_assoc.
        constructor; [|exact Hb]. apply Hpart. eauto.
    + change (times (S (S n)) (Seq r (chr sep)))
        with (Seq (Seq r (chr sep)) (times (S n) (Seq r (chr sep)))).
      split.
      * intros H. apply lang_Seq_inv in H.
        destruct H as (s1 & s2 & -> & H1 & H2).
        apply lang_Seq_inv in H1. destruct H1 as (x & t & -> & Hx & Ht).
        apply Hpart in Hx. destruct Hx as (a & -> & Ha).
        assert (Hrest : lang (Seq (times (S n) (Seq r (chr sep))) r) (t ++ s2))
          by now constructor.
        apply IH in Hrest. destruct Hrest as (parts & Hl & Hall & E).
        exists (a :: parts). split; [cbn; lia|]. split; [now constructor|].
        destruct parts as [|b parts]; [discriminate|].
        cbn [String.concat]. cbn [String.concat] in E.
        rewrite !append_assoc. now rewrite E.
      * intros (parts & Hl & Hall & ->).
        destruct parts as [|a [|b parts]]; try discriminate.
        inversion Hall as [|? ? Ha Hall']; subst.
        assert (Hrest : lang (Seq (times (S n) (Seq r (chr sep))) r)
                          (String.concat (String sep EmptyString) (b :: parts))).
        { apply IH. exists (b :: parts). split; [cbn in *; lia|]. now split. }
        apply lang_Seq_inv in Hrest.
        destruct Hrest as (t & s2 & E & Ht & H2).
        change (String.concat (String sep EmptyString) (a :: b :: parts))
          with (a ++ String sep EmptyString
                  ++ String.concat (String sep EmptyString) (b :: parts)).
        rewrite E.
        replace (a ++ String sep EmptyString ++ t ++ s2)
          with (((a ++ String sep EmptyString) ++ t) ++ s2)
          by (now rewrite !append_assoc).
        constructor; [|exact H2]. constructor; [|exact Ht].
        apply Hpart. eauto.
Qed.

Lemma lang_Star_any (s : string) : lang (Star any) s.
Proof.
  induction s as [|c s IH]; [constructor|].
  change (String c s) with (String c EmptyString ++ s).
  constructor; [|exact IH]. constructor. apply in_range_true.
  pose proof (nat_ascii_bounded c). cbn. lia.
Qed.

Lemma test_Whole (r : regex) (s : string) :
  test (Whole r) s = true <-> lang r s.
Proof. apply matches_lang. Qed.

(** A pattern anchored at the start matches when some prefix of the string
    is in its language. *)
Lemma test_Prefix (r : regex) (s : string) :
  test (Prefix r) s = true <-> exists p rest, s = p ++ rest /\ lang r p.
Proof.
  cbn [test]. rewrite matches_lang. split.
  - intros H. apply lang_Seq_inv in H.
    destruct H as (p & rest & -> & Hp & _). eauto.
  - intros (p & rest & -> & Hp). constructor; [exact Hp|apply lang_Star_any].
Qed.

Lemma append_same_length (a b a' b' : string) :
  a ++ b = a' ++ b' -> String.length a = String.length a' ->
  a = a' /\ b = b'.
Proof.
  revert a'. induction a as [|c a IH]; intros [|c' a'] E Hl;
    try discriminate; cbn [append] in E.
  - now split.
  - injection E as -> E. destruct (IH a' E) as [-> ->]; [cbn in Hl; lia|].
    now split.
Qed.

End RegexSurface.

Section Addresses.
Import JS Regex ValidationHelper Spec.
Local Open Scope string_scope.

Ltac class_facts :=
  repeat match goal with
  | H : in_class [_] _ = true |- _ => apply in_range_true in H; cbn in H
  | H : in_class [_] _ = false |- _ => apply in_range_false in H; cbn in H
  end.

Lemma is_digit_code (c : ascii) :
  is_digit c = true <-> (48 <= nat_of_ascii c <= 57)%nat.
Proof.
  unfold is_digit. cbv zeta. rewrite andb_true_iff, !Nat.leb_le. reflexivity.
Qed.

(** The octets of the pattern are the decimal numbers up to 255 written
    with one to three digits. *)
Lemma lang_octet (s : string) : lang octet s <-> decimal_octet s.
Proof.
  split.
  - intros H. unfold octet, opt, range, chr in H. cbn [lit] in H.
    unfold chr in H. lang_inv; class_facts; cbn [append];
      (split; [cbn; lia|]);
      (split;
       [cbn [all_digits]; rewrite ?andb_true_r, ?andb_true_iff;
        repeat split; apply is_digit_code; lia
       |cbn [digits_value]; unfold digit_value; lia]).
  - intros (Hl & Hd & Hv).
    destruct s as [|c1 [|c2 [|c3 [|c4 t]]]]; cbn in Hl; try lia;
      cbn [all_digits] in Hd; rewrite ?andb_true_r, ?andb_true_iff in Hd;
      cbn [digits_value] in Hv; unfold digit_value in Hv;
      apply matches_lang; unfold octet, opt, range, chr; cbn [lit]; unfold chr.
    + apply is_digit_code in Hd.
      cbn [matches deriv nullable seq alt andb orb].
      repeat (match goal with
              | |- context [in_class ?r ?c] =>
                  destruct (in_class r c) eqn:?
              end; cbn [matches deriv nullable seq alt andb orb]);
        class_facts; try reflexivity; lia.
    + destruct Hd as [D1 D2].
      apply is_digit_code in D1. apply is_digit_code in D2.
      cbn [matches deriv nullable seq alt andb orb].
      repeat (match goal with
              | |- context [in_class ?r ?c] =>
                  destruct (in_class r c) eqn:?
              end; cbn [matches deriv nullable seq alt andb orb]);
        class_facts; try reflexivity; lia.
    + destruct Hd as (D1 & D2 & D3).
      apply is_digit_code in D1. apply is_digit_code in D2.
      apply is_digit_code in D3.
      cbn [matches deriv nullable seq alt andb orb].
      repeat (match goal with
              | |- context [in_class ?r ?c] =>
                  destruct (in_class r c) eqn:?
              end; cbn [matches deriv nullable seq alt andb orb]);
        class_facts; try reflexivity; lia.
Qed.

Ltac class_is_hex :=
  unfold is_hex, is_digit, in_class, in_range;
  cbn [existsb fst snd]; rewrite ?orb_false_r;
  change (nat_of_ascii "0") with 48%nat; change (nat_of_ascii "9") with 57%nat;
  change (nat_of_ascii "a") with 97%nat; change (nat_of_ascii "f") with 102%nat;
  change (nat_of_ascii "A") with 65%nat; change (nat_of_ascii "F") with 70%nat;
  repeat match goal with
  | |- context [(?a <=? ?b)%nat] => destruct (a <=? b)%nat
  end; reflexivity.

Lemma in_class_hex (c : ascii) :
  in_class [("0", "9"); ("a", "f"); ("A", "F")]%char c = is_hex c.
Proof. class_is_hex. Qed.

Lemma in_class_hex_colour (c : ascii) :
  in_class [("A", "F"); ("a", "f"); ("0", "9")]%char c = is_hex c.
Proof. class_is_hex. Qed.

Lemma all_chars_ext (p q : ascii -> bool) (s : string) :
  (forall c, p c = q c) -> all_chars p s = all_chars q s.
Proof.
  intros H. induction s as [|c s IH]; cbn [all_chars]; [reflexivity|].
  now rewrite H, IH.
Qed.

Lemma Forall_iff {T : Type} (P Q : T -> Prop) (l : list T) :
  (forall x, P x <-> Q x) -> Forall P l <-> Forall Q l.
Proof.
  intros H. split; intros HF; eapply Forall_impl; try eassumption;
    intros x; apply H.
Qed.

(** X22: [isValidIP(ip, 'v4')] accepts exactly the strings made of four
    parts separated by dots, each part one to three decimal digits that
    read as a number from 0 to 255; leading zeros are accepted.  A version
    other than 'v4' and 'v6' accepts nothing. *)
Theorem isValidIP_v4_dotted_quads (ip : string) :
  (isValidIP ip "v4" = true <->
   exists parts,
     List.length parts = 4%nat /\ Forall decimal_octet parts
     /\ ip = String.concat "." parts)
  /\ (forall version, version <> "v4" -> version <> "v6" ->
      isValidIP ip version = false).
Proof.
  split.
  - unfold isValidIP. cbn [String.eqb Ascii.eqb Bool.eqb].
    unfold ipv4Regex. rewrite test_Whole, lang_separated.
    split; intros (parts & Hl & Hall & E); exists parts;
      (split; [exact Hl|]); (split; [|exact E]);
      revert Hall; apply Forall_iff; intros x;
      first [apply lang_octet|symmetry; apply lang_octet].
  - intros version H4 H6. unfold isValidIP.
    destruct (String.eqb_spec version "v4"); [contradiction|].
    destruct (String.eqb_spec version "v6"); [contradiction|reflexivity].
Qed.

(** X23: [isValidIP(ip, 'v6')] accepts exactly the strings made of eight
    groups separated by colons, each group one to four hexadecimal digits
    in either case; the shortened forms written with [::] are not
    accepted. *)
Theorem isValidIP_v6_eight_groups (ip : string) :
  (isValidIP ip "v6" = true <->
   exists parts,
     List.length parts = 8%nat /\ Forall hex_group parts
     /\ ip = String.concat ":" parts)
  /\ isValidIP "::1" "v6" = false.
Proof.
  split; [|reflexivity].
  unfold isValidIP. cbn [String.eqb Ascii.eqb Bool.eqb].
  unfold ipv6Regex. rewrite test_Whole, lang_separated.
  assert (Hg : forall x, lang (between 1 4 hex_digit) x <-> hex_group x).
  { intros x. unfold hex_digit, hex_group.
    rewrite lang_between_class by lia.
    now rewrite (all_chars_ext _ is_hex x in_class_hex). }
  split; intros (parts & Hl & Hall & E); exists parts;
    (split; [exact Hl|]); (split; [|exact E]);
    revert Hall; apply Forall_iff; intros x;
    first [apply Hg|symmetry; apply Hg].
Qed.

(** X24: [isValidHexColor] accepts exactly a [#] followed by three or by
    six hexadecimal digits in either case. *)
Theorem isValidHexColor_three_or_six (color : string) :
  isValidHexColor color = true <->
  exists h,
    color = String "#" h
    /\ (String.length h = 3%nat \/ String.length h = 6%nat)
    /\ all_chars is_hex h = true.
Proof.
  unfold isValidHexColor, hexRegex, hex_colour_digit. rewrite test_Whole.
  split.
  - intros H. apply lang_Seq_inv in H.
    destruct H as (s1 & h & -> & H1 & H2).
    apply lang_chr in H1. subst s1. exists h. split; [reflexivity|].
    apply lang_Alt_inv in H2.
    destruct H2 as [H2|H2]; apply lang_times_class in H2;
      destruct H2 as [Hl Ha];
      rewrite (all_chars_ext _ is_hex h in_class_hex_colour) in Ha;
      (split; [|exact Ha]); [now right|now left].
  - intros (h & -> & Hl & Ha).
    change (String "#" h) with (String "#" EmptyString ++ h).
    constructor; [now apply lang_chr|].
    rewrite <- (all_chars_ext _ is_hex h in_class_hex_colour) in Ha.
    destruct Hl as [Hl|Hl]; [apply lang_Alt_r|apply lang_Alt_l];
      apply lang_times_class; now split.
Qed.

End Addresses.

Section SocialSecurity.
Import JS Regex ValidationHelper Spec.
Local Open Scope string_scope.

Lemma digit_is_dot (a : string) :
  all_digits a = true ->
  all_chars (in_class [("000", "009"); ("011", "012"); ("014", "255")]%char) a
  = true.
Proof.
  induction a as [|c a IH]; cbn [all_digits all_chars]; [reflexivity|].
  intros H. apply andb_prop in H. destruct H as [Hc Ha].
  rewrite (IH Ha), andb_true_r.
  rewrite (in_class_cons _ [_; _]), (in_class_cons _ [_]).
  assert (H3 : in_class [("014", "255")]%char c = true).
  { apply in_range_true. unfold is_digit in Hc. cbv zeta in Hc.
    apply andb_prop in Hc. destruct Hc as [H1 H2].
    apply Nat.leb_le in H1, H2. pose proof (nat_ascii_bounded c).
    cbn. lia. }
  rewrite H3. now rewrite !orb_true_r.
Qed.

(** A literal at the start of the string. *)
Lemma test_Prefix_lit (w a b : string) :
  String.length a = String.length w ->
  (test (Prefix (lit w)) (a ++ b) = true <-> a = w).
Proof.
  intros Hl. rewrite test_Prefix. split.
  - intros (p & rest & E & Hp). apply lang_lit in Hp. subst p.
    now apply append_same_length in E.
  - intros ->. exists w, b. split; [reflexivity|now apply lang_lit].
Qed.

(** A literal after [k] characters. *)
Lemma test_Prefix_skip (k : nat) (w a b c : string) :
  String.length a = k -> String.length b = String.length w ->
  all_digits a = true ->
  (test (Prefix (Seq (times k dot) (lit w))) (a ++ b ++ c) = true <-> b = w).
Proof.
  intros Hk Hl Ha. rewrite test_Prefix. split.
  - intros (p & rest & E & Hp). apply lang_Seq_inv in Hp.
    destruct Hp as (x & y & -> & Hx & Hy).
    apply lang_lit in Hy. subst y.
    unfold dot in Hx. apply lang_times_class in Hx. destruct Hx as [Hx _].
    rewrite append_assoc in E.
    apply append_same_length in E; [|lia]. destruct E as [_ E].
    now apply append_same_length in E.
  - intros ->. exists (a ++ w), c. split; [now rewrite append_assoc|].
    constructor; [|now apply lang_lit].
    unfold dot. apply lang_times_class. split; [exact Hk|].
    now apply digit_is_dot.
Qed.

Lemma append_empty (s : string) : s ++ EmptyString = s.
Proof. induction s as [|c s IH]; cbn; [reflexivity|now rewrite IH]. Qed.

(** X25: [isValidSSN] looks at the digits of its argument only, and accepts
    exactly nine digits, read as an area of three digits, a group of two
    and a serial of four, such that the area is not 000, not 666 and does
    not begin with 9, the group is not 00 and the serial is not 0000. *)
Theorem isValidSSN_rules (ssn : string) :
  isValidSSN ssn = true <->
  exists area group serial,
    str_filter is_digit ssn = area ++ group ++ serial
    /\ String.length area = 3%nat
    /\ String.length group = 2%nat
    /\ String.length serial = 4%nat
    /\ area <> "000" /\ area <> "666"
    /\ String.get 0 area <> Some "9"%char
    /\ group <> "00" /\ serial <> "0000".
Proof.
  unfold isValidSSN.
  pose proof (all_digits_filter ssn) as Hd.
  set (cleaned := str_filter is_digit ssn) in *.
  destruct (Nat.eqb_spec (String.length cleaned) 9) as [Hlen|Hlen];
    cbn [negb].
  2:{ split; [discriminate|].
      intros (area & group & serial & E & H3 & H2 & H4 & _).
      exfalso. apply Hlen. rewrite E, !length_append. lia. }
  destruct (string_split cleaned 3 ltac:(lia)) as (area & rest & E1 & H3).
  assert (Hrest : String.length rest = 6%nat)
    by (rewrite E1, length_append in Hlen; lia).
  destruct (string_split rest 2 ltac:(lia)) as (group & serial & E2 & H2).
  assert (H4 : String.length serial = 4%nat)
    by (rewrite E2, length_append in Hrest; lia).
  subst rest.
  rewrite E1 in Hd. rewrite !all_digits_app in Hd.
  apply andb_prop in Hd. destruct Hd as [Da Hd].
  apply andb_prop in Hd. destruct Hd as [Dg Ds].
  assert (T1 : test (Prefix (lit "000")) cleaned = true <-> area = "000")
    by (rewrite E1; now apply test_Prefix_lit).
  assert (T2 : test (Prefix (lit "666")) cleaned = true <-> area = "666")
    by (rewrite E1; now apply test_Prefix_lit).
  assert (T3 : test (Prefix (chr "9")) cleaned = true
               <-> String.get 0 area = Some "9"%char).
  { rewrite E1, test_Prefix. destruct area as [|c t]; [discriminate|].
    cbn [String.get]. split.
    - intros (p & r & E & Hp). apply lang_chr in Hp. subst p.
      cbn [append] in E. now injection E as -> _.
    - intros [= ->]. exists "9", (t ++ group ++ serial).
      split; [reflexivity|now apply lang_chr]. }
  assert (T4 : test (Prefix (Seq (times 3 dot) (lit "00"))) cleaned = true
               <-> group = "00")
    by (rewrite E1; now apply test_Prefix_skip).
  assert (T5 : test (Prefix (Seq (times 5 dot) (lit "0000"))) cleaned = true
               <-> serial = "0000").
  { rewrite E1, <- (append_empty serial), <- append_assoc.
    rewrite (append_empty serial) at 2.
    apply test_Prefix_skip;
      [rewrite length_append; lia|exact H4
      |rewrite all_digits_app, Da; exact Dg]. }
  unfold invalidPatterns. cbn [existsb].
  rewrite negb_true_iff, orb_false_r, !orb_false_iff.
  rewrite <- !not_true_iff_false, T1, T2, T3, T4, T5.
  split.
  - intros (N1 & N2 & N3 & N4 & N5).
    exists area, group, serial. repeat split; assumption.
  - intros (area' & group' & serial' & E & L3 & L2 & L4 & N).
    rewrite E1 in E.
    apply append_same_length in E; [|lia]. destruct E as [<- E].
    apply append_same_length in E; [|lia]. destruct E as [<- <-].
    tauto.
Qed.

End SocialSecurity.

(* ================================================================== *)
(** * More on the number helper *)
(* ================================================================== *)

Section TierBoundaries.
Import JS NumberHelper Spec JSFacts.
Local Open Scope string_scope.
Local Open Scope Z_scope.
Variable host : Host.

Lemma abs_Int (z : Z) : abs (Int z) = Int (Z.abs z).
Proof.
  cbn [abs Int]. apply fin_inject_Z. unfold Qabs, inject_Z. reflexivity.
Qed.

Lemma Z_div_eq (n d k : Z) : 0 < d -> d * k <= n < d * (k + 1) -> n / d = k.
Proof.
  intros Hd H. symmetry. apply (Z.div_unique n d k (n - d * k)); lia.
Qed.

(** Rounding to one decimal a quotient that lies within a twentieth below
    the next thousand: the result is written "1000.0". *)
Lemma toFixed_next_thousand (a u : Z) :
  0 < u -> 99995 * u <= 100 * a -> a < 1000 * u ->
  toFixed host (div (Int a) (Int u)) default_decimals = Return "1000.0".
Proof.
  intros Hu Hlo Hhi.
  assert (Hdiv : div (Int a) (Int u) = fin (inject_Z a / inject_Z u)).
  { unfold div, Int, sgn. cbn [Qnum inject_Z].
    destruct (Z.compare_spec u 0); try lia; reflexivity. }
  rewrite Hdiv. unfold toFixed.
  change (fraction_digits default_decimals) with (Some 1%Z). cbv iota.
  unfold fin.
  set (q := Qred (inject_Z a / inject_Z u)).
  assert (Eq : (q == inject_Z a / inject_Z u)%Q) by apply Qred_correct.
  assert (Hu' : (0 < inject_Z u)%Q) by (unfold Qlt; cbn; lia).
  assert (Hq_lo : ((99995 # 100) <= q)%Q).
  { rewrite Eq. apply Qle_shift_div_l; [exact Hu'|].
    unfold Qle, Qmult, inject_Z. cbn [Qnum Qden]. lia. }
  assert (Hq_hi : (q < inject_Z 1000)%Q).
  { rewrite Eq. apply Qlt_shift_div_r; [exact Hu'|].
    rewrite <- inject_Z_mult, <- Zlt_Qlt. lia. }
  assert (Hq0 : (0 <= q)%Q).
  { eapply Qle_trans; [|exact Hq_lo]. unfold Qle; cbn; lia. }
  assert (Habs : (Qabs q == q)%Q) by now apply Qabs_pos.
  assert (Hbig : Qle_bool (inject_Z (10 ^ 21)) (Qabs q) = false).
  { apply not_true_iff_false. rewrite Qle_bool_iff, Habs. intros H.
    apply (Qlt_irrefl q). eapply Qlt_le_trans; [exact Hq_hi|].
    eapply Qle_trans; [|exact H].
    rewrite <- Zle_Qle. apply Z.leb_le. vm_compute. reflexivity. }
  rewrite Hbig.
  assert (Hsign : Qlt_bool q 0 = false).
  { unfold Qlt_bool. apply negb_false_iff, Qle_bool_iff. exact Hq0. }
  rewrite Hsign.
  assert (Hn : Qfloor (Qabs q * inject_Z (10 ^ 1) + (1 # 2)) = 10000).
  { assert (L : (inject_Z 10000 <= Qabs q * inject_Z (10 ^ 1) + (1 # 2))%Q).
    { rewrite Habs.
      setoid_replace (inject_Z 10000)
        with ((99995 # 100) * inject_Z (10 ^ 1) + (1 # 2))%Q
        by reflexivity.
      apply Qplus_le_l. apply Qmult_le_compat_r; [exact Hq_lo|].
      unfold Qle; cbn; lia. }
    assert (U : (Qabs q * inject_Z (10 ^ 1) + (1 # 2) < inject_Z 10001)%Q).
    { rewrite Habs.
      apply Qlt_le_trans
        with (inject_Z 1000 * inject_Z (10 ^ 1) + (1 # 2))%Q;
        [|unfold Qle; cbn; lia].
      apply Qplus_lt_l. apply Qmult_lt_compat_r; [reflexivity|exact Hq_hi]. }
    apply Z.le_antisymm.
    - apply Z.lt_succ_r. rewrite Zlt_Qlt.
      eapply Qle_lt_trans; [apply Qfloor_le|]. exact U.
    - rewrite <- (Qfloor_Z 10000). now apply Qfloor_resp_le. }
  rewrite Hn. reflexivity.
Qed.

(** X26: [shortenNumber] rounds the shortened value to one decimal before
    it picks no new unit: an integer within 50 below a million is written
    "1000K" and not "1M", and likewise "1000M" and "1000B" below a billion
    and a trillion; a negative one gets the sign in front. *)
Theorem shortenNumber_rounds_within_tier (z : Z) :
  let sign := if z <? 0 then "-" else "" in
  (999950 <= Z.abs z < 1000000 ->
     shortenNumber host (Int z) default_decimals = Return (sign ++ "1000K"))
  /\ (999950000 <= Z.abs z < 1000000000 ->
     shortenNumber host (Int z) default_decimals = Return (sign ++ "1000M"))
  /\ (999950000000 <= Z.abs z < 1000000000000 ->
     shortenNumber host (Int z) default_decimals = Return (sign ++ "1000B")).
Proof.
  intros sign.
  assert (Hstart : forall lo, 1000 <= lo -> lo <= Z.abs z ->
            shortenNumber host (Int z) default_decimals
            = shorten_scan host units (Int z) (Int (Z.abs z)) sign
                           default_decimals).
  { intros lo Hlo Hz. unfold shortenNumber. cbn [isNaN Int].
    change (Fin (inject_Z ?x)) with (Int x).
    rewrite abs_Int, !lt_Int.
    destruct (Z.ltb_spec (Z.abs z) 1000); [lia|]. reflexivity. }
  assert (Hparse : ToString host (parseFloat "1000.0") = "1000")
    by reflexivity.
  change (10 ^ 12) with 1000000000000 in *.
  unfold units in Hstart. cbn [shorten_scan value suffix] in Hstart.
  unfold ge in Hstart. rewrite !le_Int in Hstart.
  change (10 ^ 12) with 1000000000000 in Hstart.
  change (10 ^ 9) with 1000000000 in Hstart.
  change (10 ^ 6) with 1000000 in Hstart.
  change (10 ^ 3) with 1000 in Hstart.
  split; [|split]; intros Hz.
  - rewrite (Hstart 999950) by lia.
    destruct (Z.leb_spec 1000000000000 (Z.abs z)); [lia|].
    destruct (Z.leb_spec 1000000000 (Z.abs z)); [lia|].
    destruct (Z.leb_spec 1000000 (Z.abs z)); [lia|].
    destruct (Z.leb_spec 1000 (Z.abs z)); [|lia].
    rewrite toFixed_next_thousand by lia. now rewrite Hparse.
  - rewrite (Hstart 999950000) by lia.
    destruct (Z.leb_spec 1000000000000 (Z.abs z)); [lia|].
    destruct (Z.leb_spec 1000000000 (Z.abs z)); [lia|].
    destruct (Z.leb_spec 1000000 (Z.abs z)); [|lia].
    rewrite toFixed_next_thousand by lia. now rewrite Hparse.
  - rewrite (Hstart 999950000000) by lia.
    destruct (Z.leb_spec 1000000000000 (Z.abs z)); [lia|].
    destruct (Z.leb_spec 1000000000 (Z.abs z)); [|lia].
    rewrite toFixed_next_thousand by lia. now rewrite Hparse.
Qed.

End TierBoundaries.

Section Clamp.
Import JS NumberHelper Spec JSFacts.
Local Open Scope Z_scope.

Lemma Qlt_bool_iff (x y : Q) : Qlt_bool x y = true <-> (x < y)%Q.
Proof.
  unfold Qlt_bool. rewrite negb_true_iff, <- not_true_iff_false, Qle_bool_iff.
  split; [apply Qnot_le_lt|apply Qlt_not_le].
Qed.

Lemma Qlt_bool_false (x y : Q) : Qlt_bool x y = false <-> (y <= x)%Q.
Proof.
  unfold Qlt_bool. rewrite negb_false_iff. apply Qle_bool_iff.
Qed.

(** X27: [clampNumber] on finite numbers with [min <= max] returns [num]
    when it lies between the bounds, and otherwise the bound it is
    beyond; the result always lies between the bounds, and clamping it
    again changes nothing.  It raises an error when an argument is [NaN]
    or infinite, and another one when [min > max]. *)
Theorem clampNumber_within_bounds (num min max : Q) :
  ((min <= max)%Q ->
     exists r,
       clampNumber (Fin num) (Fin min) (Fin max) = Return (Fin r)
       /\ (min <= r)%Q /\ (r <= max)%Q
       /\ ((min <= num)%Q -> (num <= max)%Q -> r = num)
       /\ ((num < min)%Q -> r = min)
       /\ ((max < num)%Q -> r = max)
       /\ clampNumber (Fin r) (Fin min) (Fin max) = Return (Fin r))
  /\ ((max < min)%Q ->
      clampNumber (Fin num) (Fin min) (Fin max)
      = Throw (Error "Min value cannot be greater than max value"))
  /\ (forall a b c,
        isFinite a && isFinite b && isFinite c = false ->
        clampNumber a b c = Throw (Error "Invalid number provided")).
Proof.
  split; [|split].
  - intros Hmm.
    assert (Hgt : gt (Fin min) (Fin max) = false)
      by (apply Qlt_bool_false; exact Hmm).
    assert (Hclamp : forall x,
              clampNumber (Fin x) (Fin min) (Fin max)
              = Return (Math_min (Math_max (Fin x) (Fin min)) (Fin max))).
    { intros x. unfold clampNumber. cbn [isValidNumber isNaN isFinite negb andb orb].
      now rewrite Hgt. }
    rewrite Hclamp. unfold Math_max, Math_min. cbn [isNaN orb lt].
    destruct (Qlt_bool num min) eqn:E1.
    + apply Qlt_bool_iff in E1. cbn [isNaN orb lt].
      assert (E2 : Qlt_bool max min = false) by now apply Qlt_bool_false.
      rewrite E2. exists min.
      split; [reflexivity|]. split; [apply Qle_refl|]. split; [exact Hmm|].
      split; [intros H; exfalso; exact (Qlt_not_le _ _ E1 H)|].
      split; [reflexivity|].
      split; [intros H; exfalso;
              exact (Qlt_irrefl _ (Qlt_le_trans _ _ _
                       (Qlt_trans _ _ _ H E1) Hmm))|].
      rewrite Hclamp. unfold Math_max, Math_min. cbn [isNaN orb lt].
      assert (E3 : Qlt_bool min min = false)
        by (apply Qlt_bool_false, Qle_refl).
      rewrite E3. cbn [isNaN orb lt]. now rewrite E2.
    + apply Qlt_bool_false in E1. cbn [isNaN orb lt].
      destruct (Qlt_bool max num) eqn:E2.
      * apply Qlt_bool_iff in E2. exists max.
        split; [reflexivity|]. split; [exact Hmm|]. split; [apply Qle_refl|].
        split; [intros _ H; exfalso; exact (Qlt_not_le _ _ E2 H)|].
        split; [intros H; exfalso;
                exact (Qlt_irrefl _ (Qle_lt_trans _ _ _ Hmm
                         (Qlt_trans _ _ _ E2 H)))|].
        split; [reflexivity|].
        rewrite Hclamp. unfold Math_max, Math_min. cbn [isNaN orb lt].
        assert (E3 : Qlt_bool max min = false) by now apply Qlt_bool_false.
        rewrite E3. cbn [isNaN orb lt].
        assert (E4 : Qlt_bool max max = false)
          by (apply Qlt_bool_false, Qle_refl).
        now rewrite E4.
      * apply Qlt_bool_false in E2. exists num.
        split; [reflexivity|]. split; [exact E1|]. split; [exact E2|].
        split; [reflexivity|].
        split; [intros H; exfalso; exact (Qlt_not_le _ _ H E1)|].
        split; [intros H; exfalso; exact (Qlt_not_le _ _ H E2)|].
        rewrite Hclamp. unfold Math_max, Math_min. cbn [isNaN orb lt].
        assert (E3 : Qlt_bool num min = false) by now apply Qlt_bool_false.
        rewrite E3. cbn [isNaN orb lt].
        assert (E4 : Qlt_bool max num = false) by now apply Qlt_bool_false.
        now rewrite E4.
  - intros Hlt. unfold clampNumber.
    cbn [isValidNumber isNaN isFinite negb andb orb].
    assert (Hgt : gt (Fin min) (Fin max) = true)
      by (apply Qlt_bool_iff; exact Hlt).
    now rewrite Hgt.
  - intros a b c H. unfold clampNumber, isValidNumber.
    destruct a, b, c; cbn in H; try discriminate; reflexivity.
Qed.

End Clamp.

Section Ordinal.
Import JS NumberHelper Spec JSFacts.
Local Open Scope string_scope.
Local Open Scope Z_scope.
Variable host : Host.
Variable NumberFormat_ordinal : string -> completion (number -> string).

Lemma isInteger_Int (z : Z) : isInteger (Int z) = true.
Proof.
  unfold isInteger, Int. rewrite Qfloor_Z. apply Qeq_bool_iff. reflexivity.
Qed.

(** X28: for an English locale [formatOrdinal] writes an integer below
    2^53 in magnitude, where every integer is a number of its own, with
    the suffix of its last digits when it is not negative: "th" for 11, 12
    and 13 in the last two places, else "st", "nd", "rd" for a last digit
    1, 2, 3, else "th".  A negative integer always gets "th".  A number
    that is not an integer is refused, whatever the locale. *)
Theorem formatOrdinal_english :
  (forall (z : Z) (locale : string),
      String.prefix "en" locale = true -> Z.abs z < 2 ^ 53 ->
      formatOrdinal host NumberFormat_ordinal (Int z) locale
      = Return (ToString host (Int z)
                ++ (if z <? 0 then "th" else ordinal_suffix z)))
  /\ (forall (num : number) (locale : string),
        isInteger num = false ->
        formatOrdinal host NumberFormat_ordinal num locale
        = Throw (Error "Invalid number provided")).
Proof.
  split.
  - intros z locale Hen _.
    unfold formatOrdinal. rewrite isInteger_Int, Hen.
    cbn [isNaN Int negb orb].
    change (Fin (inject_Z ?x)) with (Int x).
    rewrite !rem_Int by lia. unfold ge.
    rewrite !le_Int, !strict_eq_Int.
    destruct (Z.ltb_spec z 0) as [Hneg|Hpos].
    + pose proof (Z.rem_nonpos z 100 ltac:(lia) ltac:(lia)) as H100.
      pose proof (Z.rem_nonpos z 10 ltac:(lia) ltac:(lia)) as H10.
      destruct (Z.leb_spec 11 (Z.rem z 100)); [lia|]. cbn [andb].
      destruct (Z.eqb_spec (Z.rem z 10) 1); [lia|].
      destruct (Z.eqb_spec (Z.rem z 10) 2); [lia|].
      destruct (Z.eqb_spec (Z.rem z 10) 3); [lia|]. reflexivity.
    + rewrite !Z.rem_mod_nonneg by lia. unfold ordinal_suffix.
      destruct ((11 <=? z mod 100) && (z mod 100 <=? 13)); [reflexivity|].
      destruct (z mod 10 =? 1); [reflexivity|].
      destruct (z mod 10 =? 2); [reflexivity|].
      destruct (z mod 10 =? 3); reflexivity.
  - intros num locale Hn. unfold formatOrdinal. rewrite Hn.
    now rewrite orb_true_r.
Qed.

End Ordinal.

Lemma formatOrdinal_english_witness :
  NumberHelper.formatOrdinal Spec.reference_host
    (fun _ => JS.Throw JS.RangeError) (JS.Int 112) "en-US"
  = JS.Return "112th"%string
  /\ NumberHelper.formatOrdinal Spec.reference_host
       (fun _ => JS.Throw JS.RangeError) (JS.Int (-1)) "en-US"
     = JS.Return "-1th"%string
  /\ NumberHelper.formatOrdinal Spec.reference_host
       (fun _ => JS.Throw JS.RangeError) (JS.Fin (5 # 2)) "fr-FR"
     = JS.Throw (JS.Error "Invalid number provided").
Proof.
  split; [|split].
  - exact (proj1 (formatOrdinal_english Spec.reference_host
                    (fun _ => JS.Throw JS.RangeError)) 112%Z "en-US"%string
             eq_refl eq_refl).
  - exact (proj1 (formatOrdinal_english Spec.reference_host
                    (fun _ => JS.Throw JS.RangeError)) (-1)%Z "en-US"%string
             eq_refl eq_refl).
  - exact (proj2 (formatOrdinal_english Spec.reference_host
                    (fun _ => JS.Throw JS.RangeError)) (JS.Fin (5 # 2))
             "fr-FR"%string eq_refl).
Defined.

(* ================================================================== *)
(** * More on the validation helper: e-mail addresses and passwords *)
(* ================================================================== *)

Section Email.
Import JS Regex ValidationHelper Spec.
Local Open Scope string_scope.

Lemma lang_Star_class (ranges : list (ascii * ascii)) (s : string) :
  lang (Star (Class ranges)) s <-> all_chars (in_class ranges) s = true.
Proof.
  split.
  - intros H. remember (Star (Class ranges)) as r eqn:Er.
    induction H as [| | | | | |r0 s1 s2 H1 _ H2 IH2]; try discriminate Er.
    + reflexivity.
    + injection Er as ->. apply lang_Class_inv in H1.
      destruct H1 as (c & -> & Hc). cbn [append all_chars].
      rewrite Hc. now apply IH2.
  - induction s as [|c s IH]; cbn [all_chars]; [constructor|].
    intros H. apply andb_prop in H. destruct H as [Hc Hs].
    change (String c s) with (String c EmptyString ++ s).
    constructor; [now constructor|now apply IH].
Qed.

(** [[class]+]: one character of the class or more. *)
Lemma lang_plus_class (ranges : list (ascii * ascii)) (s : string) :
  lang (plus (Class ranges)) s <->
  s <> EmptyString /\ all_chars (in_class ranges) s = true.
Proof.
  unfold plus. split.
  - intros H. apply lang_Seq_inv in H. destruct H as (x & t & -> & Hx & Ht).
    apply lang_Class_inv in Hx. destruct Hx as (c & -> & Hc).
    apply lang_Star_class in Ht. cbn [append all_chars]. rewrite Hc, Ht.
    split; [discriminate|reflexivity].
  - intros [Hne H]. destruct s as [|c s]; [congruence|].
    cbn [all_chars] in H. apply andb_prop in H. destruct H as [Hc Hs].
    change (String c s) with (String c EmptyString ++ s).
    constructor; [now constructor|now apply lang_Star_class].
Qed.

Lemma in_class_plain (c : ascii) :
  in_class [("000", "008"); ("014", "031"); ("033", "063"); ("065", "159");
            ("161", "255")]%char c = is_plain c.
Proof. destruct c as [[] [] [] [] [] [] [] []]; reflexivity. Qed.

(** X29: [isValidEmail] accepts exactly the strings made of a local part,
    an [@], a domain, a dot and an ending, where the three parts are not
    empty and hold neither white space nor [@].  Nothing else is asked of
    the parts: further dots and any punctuation are accepted. *)
Theorem isValidEmail_shape (email : string) :
  isValidEmail email = true <->
  exists local domain ending,
    email = local ++ "@" ++ domain ++ "." ++ ending
    /\ local <> "" /\ domain <> "" /\ ending <> ""
    /\ all_chars is_plain local = true
    /\ all_chars is_plain domain = true
    /\ all_chars is_plain ending = true.
Proof.
  assert (Hpart : forall x, lang (plus not_space_or_at) x <->
            x <> "" /\ all_chars is_plain x = true).
  { intros x. unfold not_space_or_at. rewrite lang_plus_class.
    now rewrite (all_chars_ext _ is_plain x in_class_plain). }
  unfold isValidEmail, emailRegex. rewrite test_Whole. split.
  - intros H.
    apply lang_Seq_inv in H. destruct H as (local & t1 & -> & Hl & H).
    apply lang_Seq_inv in H. destruct H as (at_ & t2 & -> & Ha & H).
    apply lang_Seq_inv in H. destruct H as (domain & t3 & -> & Hd & H).
    apply lang_Seq_inv in H. destruct H as (dot_ & ending & -> & Hp & He).
    apply lang_chr in Ha, Hp. subst at_ dot_.
    apply Hpart in Hl, Hd, He.
    exists local, domain, ending. tauto.
  - intros (local & domain & ending & -> & Nl & Nd & Ne & Hl & Hd & He).
    constructor; [now apply Hpart|].
    constructor; [now apply lang_chr|].
    constructor; [now apply Hpart|].
    constructor; [now apply lang_chr|now apply Hpart].
Qed.

End Email.

Section Passwords.
Import JS Regex ValidationHelper ValidationHelper.Password Spec JSFacts.
Local Open Scope string_scope.
Local Open Scope Z_scope.
Variable host : Host.

(** A pattern with no anchor made of one class looks for a character of
    the class. *)
Lemma search_contains (ranges : list (ascii * ascii)) (s : string) :
  test (search (Class ranges)) s = contains (in_class ranges) s.
Proof.
  apply eq_true_iff_eq. unfold search. rewrite test_Whole. split.
  - intros H. apply lang_Seq_inv in H.
    destruct H as (a & t & -> & _ & H).
    apply lang_Seq_inv in H. destruct H as (x & b & -> & Hx & _).
    apply lang_Class_inv in Hx. destruct Hx as (c & -> & Hc).
    unfold contains. rewrite !all_chars_app. cbn [all_chars].
    rewrite Hc. cbn [negb andb]. now rewrite andb_false_r.
  - unfold contains. rewrite negb_true_iff.
    induction s as [|c s IH]; cbn [all_chars]; [discriminate|].
    destruct (in_class ranges c) eqn:Hc; cbn [negb andb].
    + intros _. change (String c s) with (EmptyString ++ String c EmptyString ++ s).
      constructor; [constructor|].
      constructor; [now constructor|apply lang_Star_any].
    + intros H. specialize (IH H).
      apply lang_Seq_inv in IH. destruct IH as (a & t & -> & _ & Ht).
      change (String c (a ++ t)) with (String c a ++ t).
      constructor; [apply lang_Star_any|exact Ht].
Qed.

Lemma contains_ext (p q : ascii -> bool) (s : string) :
  (forall c, p c = q c) -> contains p s = contains q s.
Proof.
  intros H. unfold contains. f_equal. apply all_chars_ext.
  intros c. now rewrite H.
Qed.

Lemma search_upper (s : string) :
  test (search (range "A" "Z")) s = contains is_upper_letter s.
Proof. unfold range. rewrite search_contains. apply contains_ext.
  intros c. unfold in_class, in_range, is_upper_letter.
  cbn [existsb fst snd]. now rewrite orb_false_r. Qed.

Lemma search_lower (s : string) :
  test (search (range "a" "z")) s = contains is_lower_letter s.
Proof. unfold range. rewrite search_contains. apply contains_ext.
  intros c. unfold in_class, in_range, is_lower_letter.
  cbn [existsb fst snd]. now rewrite orb_false_r. Qed.

Lemma search_digit (s : string) :
  test (search digit) s = contains is_digit s.
Proof. unfold digit, range. rewrite search_contains. apply contains_ext.
  intros c. unfold in_class, in_range, is_digit.
  cbn [existsb fst snd]. now rewrite orb_false_r. Qed.

Lemma check_fst (c : bool) (st : state) (m : string) :
  fst (if c then push st m else point st) = [] <-> c = false /\ fst st = [].
Proof.
  destruct c; cbn [push point fst]; [|tauto].
  split; [|intros [H _]; discriminate H].
  intros H. destruct (fst st); discriminate H.
Qed.

Lemma check_snd (c : bool) (st : state) (m : string) :
  snd (if c then push st m else point st) = snd st + (if c then 0 else 1).
Proof. destruct c; cbn [push point snd]; lia. Qed.

Lemma limit_fst (c : bool) (st : state) (m : string) :
  fst (if c then push st m else st) = [] <-> c = false /\ fst st = [].
Proof.
  destruct c; cbn [push fst]; [|tauto].
  split; [|intros [H _]; discriminate H].
  intros H. destruct (fst st); discriminate H.
Qed.

Lemma limit_snd (c : bool) (st : state) (m : string) :
  snd (if c then push st m else st) = snd st.
Proof. now destruct c. Qed.

Lemma require_fst (flag found : bool) (st : state) (m : string) :
  fst (if flag && negb found then push st m
       else if flag then point st else st) = []
  <-> (flag = true -> found = true) /\ fst st = [].
Proof.
  destruct flag, found; cbn [andb negb push point fst].
  - split; [intros H; split; [reflexivity|exact H]|intros [_ H]; exact H].
  - split; [|intros [H _]; discriminate (H eq_refl)].
    intros H. destruct (fst st); discriminate H.
  - split; [intros H; split; [discriminate|exact H]|intros [_ H]; exact H].
  - split; [intros H; split; [discriminate|exact H]|intros [_ H]; exact H].
Qed.

Lemma require_snd (flag found : bool) (st : state) (m : string) :
  (flag = true -> found = true) ->
  snd (if flag && negb found then push st m
       else if flag then point st else st) = snd st + required flag.
Proof.
  destruct flag, found; cbn [andb negb push point snd required]; intros H;
    try lia; discriminate (H eq_refl).
Qed.

Lemma bonus_fst (c : bool) (st : state) :
  fst (if c then point st else st) = fst st.
Proof. now destruct c. Qed.

Lemma bonus_snd (c : bool) (st : state) :
  snd (if c then point st else st) = snd st + (if c then 1 else 0).
Proof. destruct c; cbn [point snd]; lia. Qed.

(** The checks of [validatePassword] in a row, on any conditions. *)
Lemma checks_in_a_row (short long U hasU L hasL N hasN S hasS twelve rep : bool)
    (m1 m2 m3 m4 m5 m6 m7 : string) :
  let st : state := ([], 0) in
  let st1 := if short then push st m1 else point st in
  let st2 := if long then push st1 m2 else st1 in
  let st3 := if U && negb hasU then push st2 m3
             else if U then point st2 else st2 in
  let st4 := if L && negb hasL then push st3 m4
             else if L then point st3 else st3 in
  let st5 := if N && negb hasN then push st4 m5
             else if N then point st4 else st4 in
  let st6 := if S && negb hasS then push st5 m6
             else if S then point st5 else st5 in
  let st7 := if twelve then point st6 else st6 in
  let st8 := if rep then push st7 m7 else point st7 in
  ((List.length (fst st8) =? 0)%nat = true <->
   short = false /\ long = false
   /\ (U = true -> hasU = true) /\ (L = true -> hasL = true)
   /\ (N = true -> hasN = true) /\ (S = true -> hasS = true)
   /\ rep = false)
  /\ ((List.length (fst st8) =? 0)%nat = true ->
      fst st8 = []
      /\ snd st8 = 2 + required U + required L + required N + required S
                   + (if twelve then 1 else 0)).
Proof.
  intros st st1 st2 st3 st4 st5 st6 st7 st8.
  assert (Hfst : fst st8 = [] <->
            short = false /\ long = false
            /\ (U = true -> hasU = true) /\ (L = true -> hasL = true)
            /\ (N = true -> hasN = true) /\ (S = true -> hasS = true)
            /\ rep = false).
  { unfold st8. rewrite check_fst. unfold st7. rewrite bonus_fst.
    unfold st6. rewrite require_fst. unfold st5. rewrite require_fst.
    unfold st4. rewrite require_fst. unfold st3. rewrite require_fst.
    unfold st2. rewrite limit_fst. unfold st1. rewrite check_fst.
    unfold st. cbn [fst]. tauto. }
  rewrite Nat.eqb_eq, length_zero_iff_nil. split; [exact Hfst|].
  intros H. split; [exact H|]. apply Hfst in H.
  destruct H as (E1 & E2 & HU & HL & HN & HS & E7).
  unfold st8. rewrite check_snd. unfold st7. rewrite bonus_snd.
  unfold st6. rewrite require_snd by exact HS.
  unfold st5. rewrite require_snd by exact HN.
  unfold st4. rewrite require_snd by exact HL.
  unfold st3. rewrite require_snd by exact HU.
  unfold st2. rewrite limit_snd. unfold st1. rewrite check_snd.
  unfold st. rewrite E1, E7. cbn [snd]. lia.
Qed.

(** What [validatePassword] answers for a password it finds valid. *)
Lemma validatePassword_valid (password : string) (o : options) :
  let r := validatePassword host password o in
  let length := Int (Z.of_nat (String.length password)) in
  (valid r = true <->
   lt length (minLength o) = false
   /\ gt length (maxLength o) = false
   /\ (requireUppercase o = true ->
       test (search (range "A" "Z")) password = true)
   /\ (requireLowercase o = true ->
       test (search (range "a" "z")) password = true)
   /\ (requireNumbers o = true -> test (search digit) password = true)
   /\ (requireSymbols o = true -> test (search symbol) password = true)
   /\ repeated password = false)
  /\ (valid r = true ->
      feedback r = []
      /\ score r
         = 2 + required (requireUppercase o) + required (requireLowercase o)
           + required (requireNumbers o) + required (requireSymbols o)
           + (if ge length (Int 12) then 1 else 0)).
Proof.
  exact (checks_in_a_row _ _ _ _ _ _ _ _ _ _ _ _ _ _ _ _ _ _ _).
Qed.

Lemma validatePassword_strength (password : string) (o : options) :
  let r := validatePassword host password o in
  strength r = if score r <=? 2 then "weak"
               else if score r <=? 4 then "medium" else "strong".
Proof. reflexivity. Qed.

(** X30: a password that [validatePassword] finds valid scores 2, plus 1
    for each kind of character the options require, plus 1 when it has 12
    characters or more.  With the default options it is valid exactly
    when it has 8 to 128 characters, an uppercase letter, a lowercase
    letter and a digit, and no character three times in a row; its score
    is then 5 or 6 and its strength "strong", never "medium" or "weak".
    With no kind of character required, a valid password of fewer than 12
    characters is rated "weak". *)
Theorem validatePassword_valid_is_scored (password : string) :
  let n := Z.of_nat (String.length password) in
  (forall o,
     let r := validatePassword host password o in
     valid r = true ->
     score r = 2 + required (requireUppercase o) + required (requireLowercase o)
               + required (requireNumbers o) + required (requireSymbols o)
               + (if 12 <=? n then 1 else 0)
     /\ feedback r = [])
  /\ (let r := validatePassword host password default_options in
      (valid r = true <->
       8 <= n <= 128
       /\ contains is_upper_letter password = true
       /\ contains is_lower_letter password = true
       /\ contains is_digit password = true
       /\ repeated password = false)
      /\ (valid r = true -> 5 <= score r <= 6 /\ strength r = "strong"))
  /\ (forall o,
        let r := validatePassword host password o in
        requireUppercase o = false -> requireLowercase o = false ->
        requireNumbers o = false -> requireSymbols o = false ->
        valid r = true -> n < 12 -> strength r = "weak").
Proof.
  intros n. split; [|split].
  - intros o r Hv.
    destruct (proj2 (validatePassword_valid password o) Hv) as [Hf Hs].
    unfold r. split; [|exact Hf]. rewrite Hs. unfold ge. now rewrite le_Int.
  - cbv zeta. split.
    + rewrite (proj1 (validatePassword_valid password default_options)).
      cbn [default_options minLength maxLength requireUppercase
           requireLowercase requireNumbers requireSymbols].
      unfold gt. rewrite !lt_Int, search_upper, search_lower, search_digit.
      fold n. rewrite !Z.ltb_ge. split.
      * intros (H1 & H2 & HU & HL & HN & _ & HR). auto 10 with zarith.
      * intros (H1 & HU & HL & HN & HR).
        repeat split; try lia; try (intros _; assumption); try discriminate.
        exact HR.
    + intros Hv.
      destruct (proj2 (validatePassword_valid password default_options) Hv)
        as [_ Hs].
      cbn [default_options requireUppercase requireLowercase requireNumbers
           requireSymbols required] in Hs.
      rewrite validatePassword_strength.
      set (s := score _) in *.
      assert (Hr : 5 <= s <= 6) by (destruct (ge _ _); lia).
      split; [exact Hr|].
      destruct (Z.leb_spec s 2); [lia|]. destruct (Z.leb_spec s 4); [lia|].
      reflexivity.
  - intros o r HU HL HN HS Hv Hn.
    destruct (proj2 (validatePassword_valid password o) Hv) as [_ Hs].
    rewrite HU, HL, HN, HS in Hs. cbn [required] in Hs.
    unfold ge in Hs. rewrite le_Int in Hs. fold n in Hs.
    destruct (Z.leb_spec 12 n); [lia|].
    unfold r in *. rewrite validatePassword_strength, Hs. reflexivity.
Qed.

End Passwords.
